(** * Avail funnel of paima-engine: a shallow embedding and its properties

    Source: packages/engine/paima-funnel/src/funnels/avail/funnel.ts

    The funnel wraps a base funnel of the primary (EVM) chain and splices
    into its blocks the data submitted to a secondary (Avail) chain, aligned
    by timestamp.  Numbers are JavaScript numbers in the source; they are
    integers here ([Z]), and the one quotient the source takes
    ([maxSlot = delayed timestamp / 20]) is a rational ([Q]).  The remote
    endpoints (primary node, wrapped funnel, secondary RPC, database, light
    client) are fields of a [World]; every request is logged in a trace. *)

From Stdlib Require Import ZArith QArith Lia Sorted.
From stdpp Require Import base option list sorting gmap strings.

Local Open Scope Z_scope.

(** ** Data model *)

(** [AvailConfig] of [@paima/utils]; [delay] and [confirmationDepth] are
    optional in the source ([config.delay ?? 0]). *)
Record AvailConfig := {
  delay : option Z;
  confirmationDepth : option Z;
  funnelBlockGroupSize : Z;
  lightClient : string;
  rpc : string
}.

Inductive ChainDataExtensionDatumType :=
| Generic
| ERC20Transfer
| ERC721Transfer
| OtherDatum.

(** An extension datum.  The funnel itself only builds generic ones, the
    wrapped funnel may hand over others. *)
Record CdeDatum := {
  cdeName : string;
  datumBlockNumber : Z;
  transactionHash : string;
  payload : string;
  cdeDatumType : ChainDataExtensionDatumType;
  scheduledPrefix : string;
  datumNetwork : string
}.

(** [ChainData]: one primary block.  [extensionDatums] is an optional
    field in the source, [None] is [undefined]. *)
Record ChainData := {
  timestamp : Z;
  blockHash : string;
  blockNumber : Z;
  submittedData : list string;
  extensionDatums : option (list CdeDatum)
}.

(** The records of [getSubmittedData].  [readData] overwrites
    [blockNumber] with a lookup in an object, which may be [undefined];
    hence the option. *)
Record CdeData := {
  cdeBlockNumber : option Z;
  cdeExtensionDatums : option (list CdeDatum)
}.

(** The BABE pre-digest is an enumeration; "all the variants have a
    slotNumber field". *)
Inductive RawBabePreDigest :=
| Primary (authorityIndex slotNumber : Z)
| SecondaryPlain (authorityIndex slotNumber : Z)
| SecondaryVRF (authorityIndex slotNumber : Z).

(** Digest items of a header.  The payload of a pre-runtime item is kept
    in decoded form: [api.createType('RawBabePreDigest', ..)] belongs to
    the RPC library. *)
Inductive DigestItem :=
| PreRuntime (engine : string) (digest : RawBabePreDigest)
| Consensus (engine : string)
| Seal (engine : string)
| Other
| RuntimeEnvironmentUpdated.

Record Header := {
  hdr_number : Z;
  hdr_hash : string;
  hdr_logs : list DigestItem
}.

(** [type HeaderData = { number; hash; slot }] *)
Record HeaderData := {
  number : Z;
  hash : string;
  slot : Z
}.

(** What the code can throw.  The source has no error classes: the first
    is the [TypeError] raised by reading [.asPreRuntime] of [undefined] in
    [getSlotFromHeader], the second the [Error]s thrown by [getState] and
    [latestBlock]; the names are those of the specification's taxonomy. *)
Inductive FunnelError :=
| MalformedHeaderError
| UninitializedStateError.

Inductive Result (A : Type) :=
| Ok (a : A)
| Err (e : FunnelError).
Arguments Ok {A} a.
Arguments Err {A} e.

(** ** Pure helpers *)

Definition applyDelay (config : AvailConfig) (baseTimestamp : Z) : Z :=
  Z.max (baseTimestamp - default 0 (delay config)) 0.

Definition isPreRuntime (log : DigestItem) : bool :=
  match log with
  | PreRuntime _ _ => true
  | _ => false
  end.

Definition slotNumberOf (d : RawBabePreDigest) : Z :=
  match d with
  | Primary _ s => s
  | SecondaryPlain _ s => s
  | SecondaryVRF _ s => s
  end.

(** [header.digest.logs.find(log => log.isPreRuntime)!.asPreRuntime]: the
    [!] is erased at run time, so a missing item makes the property read
    throw. *)
Definition getSlotFromHeader (header : Header) : Result Z :=
  match List.find isPreRuntime (hdr_logs header) with
  | Some (PreRuntime _ babeDigest) => Ok (slotNumberOf babeDigest)
  | _ => Err MalformedHeaderError
  end.

(** JavaScript truthiness of a number. *)
Definition truthy (n : Z) : bool := negb (n =? 0).

(** [getUpperBoundBlock]: scans from the last index down and stops at the
    first entry with [maxTimestamp >= ts]. *)
Fixpoint getUpperBoundBlock_down (rev_entries : list (Z * Z)) (maxTimestamp : Q)
  : option Z :=
  match rev_entries with
  | [] => None
  | (ts, toBlockInner) :: rest =>
      if Qle_bool (inject_Z ts) maxTimestamp then Some toBlockInner
      else getUpperBoundBlock_down rest maxTimestamp
  end.

Definition getUpperBoundBlock (timestampToBlockNumber : list (Z * Z))
  (maxTimestamp : Q) : option Z :=
  getUpperBoundBlock_down (rev timestampToBlockNumber) maxTimestamp.

(** [composeChainData].  [Array.prototype.find] yields the first match;
    an array is truthy even when empty, so the first branch is taken
    whenever the block has the field at all.  Blocks are values here: every
    block owns its array ([processBlock] builds it with [cdeData.flat()]),
    so [push] is [++]; the in-place version follows. *)
Definition mergeBlock (blockData : ChainData) (matchingData : CdeData) : ChainData :=
  match extensionDatums blockData with
  | Some own =>
      match cdeExtensionDatums matchingData with
      | Some more =>
          {| timestamp := timestamp blockData;
             blockHash := blockHash blockData;
             blockNumber := blockNumber blockData;
             submittedData := submittedData blockData;
             extensionDatums := Some (own ++ more) |}
      | None => blockData
      end
  | None =>
      match cdeExtensionDatums matchingData with
      | Some more =>
          {| timestamp := timestamp blockData;
             blockHash := blockHash blockData;
             blockNumber := blockNumber blockData;
             submittedData := submittedData blockData;
             extensionDatums := Some more |}
      | None => blockData
      end
  end.

Definition matchesBlock (blockData : ChainData) (blockCdeData : CdeData) : bool :=
  match cdeBlockNumber blockCdeData with
  | Some n => n =? blockNumber blockData
  | None => false
  end.

Definition composeBlock (cdeData : list CdeData) (blockData : ChainData) : ChainData :=
  match List.find (matchesBlock blockData) cdeData with
  | None => blockData
  | Some matchingData => mergeBlock blockData matchingData
  end.

Definition composeChainData (baseChainData : list ChainData) (cdeData : list CdeData)
  : list ChainData :=
  map (composeBlock cdeData) baseChainData.

(** ** [composeChainData] in place

    The source mutates the blocks: [push] writes into the block's own
    array, and a block without an array is given the record's.  Here the
    objects live on a heap, blocks and records refer to their arrays by
    address, and [composeChainData] above is what is read back when every
    block owns its array (see [composeChainData_in_place]). *)
Module InPlace.

Record BlockObject := {
  o_timestamp : Z;
  o_blockHash : string;
  o_blockNumber : Z;
  o_submittedData : list string;
  o_extensionDatums : option nat
}.

Record CdeObject := {
  c_blockNumber : option Z;
  c_extensionDatums : option nat
}.

Record Heap := {
  objects : gmap nat BlockObject;
  arrays : gmap nat (list CdeDatum)
}.

Definition arrayAt (h : Heap) (l : nat) : list CdeDatum := default [] (arrays h !! l).

Definition matches (blockData : BlockObject) (blockCdeData : CdeObject) : bool :=
  match c_blockNumber blockCdeData with
  | Some n => n =? o_blockNumber blockData
  | None => false
  end.

(** The callback of [baseChainData.map], run on the block at address [a]. *)
Definition composeOne (cdeData : list CdeObject) (h : Heap) (a : nat) : Heap :=
  match objects h !! a with
  | None => h
  | Some blockData =>
      match List.find (matches blockData) cdeData with
      | None => h
      | Some matchingData =>
          match o_extensionDatums blockData, c_extensionDatums matchingData with
          | Some own, Some more =>
              {| objects := objects h;
                 arrays := <[own := arrayAt h own ++ arrayAt h more]> (arrays h) |}
          | None, Some more =>
              {| objects :=
                   <[a := {| o_timestamp := o_timestamp blockData;
                             o_blockHash := o_blockHash blockData;
                             o_blockNumber := o_blockNumber blockData;
                             o_submittedData := o_submittedData blockData;
                             o_extensionDatums := Some more |}]> (objects h);
                 arrays := arrays h |}
          | _, None => h
          end
      end
  end.

Definition composeChainData (baseChainData : list nat) (cdeData : list CdeObject)
  (h : Heap) : Heap :=
  fold_left (composeOne cdeData) baseChainData h.

(** Reading the heap back as values. *)
Definition viewBlock (h : Heap) (o : BlockObject) : ChainData :=
  {| timestamp := o_timestamp o;
     blockHash := o_blockHash o;
     blockNumber := o_blockNumber o;
     submittedData := o_submittedData o;
     extensionDatums := arrayAt h <$> o_extensionDatums o |}.

Definition viewCde (h : Heap) (c : CdeObject) : CdeData :=
  {| cdeBlockNumber := c_blockNumber c;
     cdeExtensionDatums := arrayAt h <$> c_extensionDatums c |}.

Definition viewAt (h : Heap) (a : nat) : option ChainData :=
  viewBlock h <$> objects h !! a.

(** The array a block owns, if any. *)
Definition ownOf (h : Heap) (a : nat) : option nat :=
  match objects h !! a with
  | Some o => o_extensionDatums o
  | None => None
  end.

(** Every block of the list is a distinct object with an array of its own,
    which no other block of the list and no record shares. *)
Definition owned (baseChainData : list nat) (cdeData : list CdeObject) (h : Heap) : Prop :=
  NoDup baseChainData /\
  (forall a b l, a ∈ baseChainData -> b ∈ baseChainData -> a <> b ->
                 ownOf h a = Some l -> ownOf h b <> Some l) /\
  (forall a l c, a ∈ baseChainData -> ownOf h a = Some l -> c ∈ cdeData ->
                 c_extensionDatums c <> Some l).

End InPlace.

(** ** The shared cache entry *)

(** Modelled from the spec: [AvailFunnelCacheEntryState] and the class
    [AvailFunnelCacheEntry] live in FunnelCache.ts.  The fields are the
    ones funnel.ts reads and writes; [lastBlock] is "unset until first
    resolved", the buffer and the index start empty, no slot boundary has
    been consumed at the start, and the number given to [initialize] is
    kept as [startingBlockHeight]. *)
Record AvailFunnelCacheEntryState := {
  latestBlock_ : option HeaderData;
  startingBlockHeight : Z;
  lastBlock : option Z;
  bufferedChainData : list ChainData;
  timestampToBlockNumber : list (Z * Z);
  lastMaxSlot : Q;
  api : string
}.

(** Modelled from the spec: the entry holds no state until [initialize]
    is called ("lazily-initialized"). *)
Record AvailFunnelCacheEntry := {
  entry_state : option AvailFunnelCacheEntryState
}.

(** Modelled from the spec: a fresh entry, [new AvailFunnelCacheEntry()]. *)
Definition newEntry : AvailFunnelCacheEntry := {| entry_state := None |}.

(** Modelled from the spec: [initialized()] of the cache entry. *)
Definition initialized (entry : AvailFunnelCacheEntry) : bool :=
  match entry_state entry with
  | Some _ => true
  | None => false
  end.

(** Modelled from the spec: [initialize(api, startingBlockHeight)] records
    the handle and the mapped height with "an empty buffer/index". *)
Definition initialize (api_handle : string) (mapped : Z) : AvailFunnelCacheEntry :=
  {| entry_state := Some {| latestBlock_ := None;
                            startingBlockHeight := mapped;
                            lastBlock := None;
                            bufferedChainData := [];
                            timestampToBlockNumber := [];
                            lastMaxSlot := 0%Q;
                            api := api_handle |} |}.

Definition set_latestBlock (b : option HeaderData) (st : AvailFunnelCacheEntryState) :=
  {| latestBlock_ := b;
     startingBlockHeight := startingBlockHeight st;
     lastBlock := lastBlock st;
     bufferedChainData := bufferedChainData st;
     timestampToBlockNumber := timestampToBlockNumber st;
     lastMaxSlot := lastMaxSlot st;
     api := api st |}.

(** Modelled from the spec: [updateLatestBlock(block)] of the cache entry
    (FunnelCache.ts) records the block as the latest secondary head. *)
Definition entry_updateLatestBlock (block : HeaderData)
  (st : AvailFunnelCacheEntryState) : AvailFunnelCacheEntryState :=
  set_latestBlock (Some block) st.

Definition set_lastBlock (n : Z) (st : AvailFunnelCacheEntryState) :=
  {| latestBlock_ := latestBlock_ st;
     startingBlockHeight := startingBlockHeight st;
     lastBlock := Some n;
     bufferedChainData := bufferedChainData st;
     timestampToBlockNumber := timestampToBlockNumber st;
     lastMaxSlot := lastMaxSlot st;
     api := api st |}.

Definition set_bufferedChainData (l : list ChainData) (st : AvailFunnelCacheEntryState) :=
  {| latestBlock_ := latestBlock_ st;
     startingBlockHeight := startingBlockHeight st;
     lastBlock := lastBlock st;
     bufferedChainData := l;
     timestampToBlockNumber := timestampToBlockNumber st;
     lastMaxSlot := lastMaxSlot st;
     api := api st |}.

Definition set_timestampToBlockNumber (l : list (Z * Z)) (st : AvailFunnelCacheEntryState) :=
  {| latestBlock_ := latestBlock_ st;
     startingBlockHeight := startingBlockHeight st;
     lastBlock := lastBlock st;
     bufferedChainData := bufferedChainData st;
     timestampToBlockNumber := l;
     lastMaxSlot := lastMaxSlot st;
     api := api st |}.

Definition set_lastMaxSlot (q : Q) (st : AvailFunnelCacheEntryState) :=
  {| latestBlock_ := latestBlock_ st;
     startingBlockHeight := startingBlockHeight st;
     lastBlock := lastBlock st;
     bufferedChainData := bufferedChainData st;
     timestampToBlockNumber := timestampToBlockNumber st;
     lastMaxSlot := q;
     api := api st |}.

(** ** The outside world and the machine *)

(** One entry of [ReadPresyncDataFrom]. *)
Record PresyncArg := {
  arg_network : string;
  arg_from : Z;
  arg_to : Z
}.

Inductive ConfigNetworkType := EVM | CARDANO | MINA | AVAIL.

Record PresyncChainData := {
  presyncExtensionDatums : option (list CdeDatum);
  networkType : ConfigNetworkType;
  network : string;
  presyncBlockNumber : option Z
}.

Inductive PresyncResult :=
| PresyncBlocks (blocks : list PresyncChainData)
| FUNNEL_PRESYNC_FINISHED.

(** The body of a light-client answer, [{ block_number, data_transactions }]. *)
Record Response := {
  status : Z;
  block_number : Z;
  data_transactions : list string
}.

(** The endpoints.  A block hash of the secondary chain stands for the
    block it identifies, so [rpc_header n] is [getBlockHash(n)] followed by
    [getHeader].  The finalized head moves while the funnel waits for it:
    [rpc_finalized k] is the head at the [k]-th [getFinalizedHead].  The
    endpoints always answer; failures of the network are not part of the
    model. *)
Record World := {
  web3_timestamp : Z -> Z;
  base_chainData : Z -> list ChainData;
  base_presync : list PresyncArg -> gmap string PresyncResult;
  rpc_finalized : nat -> Z;
  rpc_header : Z -> Header;
  db_latestProcessedCde : string -> option Z;
  http_blockData : string -> Z -> Response
}.

Inductive Event :=
| BaseReadData (blockHeight : Z)
| BaseReadPresyncData (args : list PresyncArg)
| Web3GetBlock (n : Z)
| CreateApi (endpoint : string)
| RpcGetFinalizedHead
| RpcGetBlockHash (n : Z)
| RpcGetHeader (n : Z)
| DbLatestProcessedCde (net : string)
| HttpGet (lc : string) (curr : Z)
| Delay (ms : Z).

(** [cacheEntries] is [sharedData.cacheManager.cacheEntries[SYMBOL]],
    [polls] counts the [getFinalizedHead] requests made so far. *)
Record Machine := {
  cacheEntries : option AvailFunnelCacheEntry;
  polls : nat;
  trace : list Event
}.

Inductive Outcome (A : Type) :=
| Return (a : A)
| Throw (e : FunnelError)
| OutOfFuel.
Arguments Return {A} a.
Arguments Throw {A} e.
Arguments OutOfFuel {A}.

(** State and exceptions: a mutation made before a throw stays. *)
Definition M (A : Type) : Type := Machine -> Outcome A * Machine.

Definition ret {A} (a : A) : M A := fun s => (Return a, s).

Definition bind {A B} (m : M A) (k : A -> M B) : M B :=
  fun s =>
    match m s with
    | (Return a, s') => k a s'
    | (Throw e, s') => (Throw e, s')
    | (OutOfFuel, s') => (OutOfFuel, s')
    end.

Definition throw {A} (e : FunnelError) : M A := fun s => (Throw e, s).
Definition outOfFuel {A} : M A := fun s => (OutOfFuel, s).

Definition liftResult {A} (r : Result A) : M A :=
  match r with
  | Ok a => ret a
  | Err e => throw e
  end.

Notation "x <- m ;; k" := (bind m (fun x => k))
  (at level 100, m at next level, right associativity,
   format "'[v' x  <-  m  ;;  '/' k ']'").
Notation "m ;;; k" := (bind m (fun _ => k))
  (at level 100, right associativity, format "'[v' m  ;;;  '/' k ']'").

Definition emit (e : Event) : M unit :=
  fun s => (Return tt, {| cacheEntries := cacheEntries s;
                          polls := polls s;
                          trace := trace s ++ [e] |}).

(** ** The funnel *)

Section Funnel.

Variable w : World.
Variable config : AvailConfig.
Variable chainName : string.

(** *** Requests to the endpoints *)

Definition base_readData (blockHeight : Z) : M (list ChainData) :=
  emit (BaseReadData blockHeight) ;;;
  ret (base_chainData w blockHeight).

Definition base_readPresyncData (args : list PresyncArg)
  : M (gmap string PresyncResult) :=
  emit (BaseReadPresyncData args) ;;;
  ret (base_presync w args).

(** [Number((await web3.eth.getBlock(n)).timestamp)] *)
Definition web3_getBlock (n : Z) : M Z :=
  emit (Web3GetBlock n) ;;;
  ret (web3_timestamp w n).

Definition createApi (endpoint : string) : M string :=
  emit (CreateApi endpoint) ;;;
  ret endpoint.

Definition rpc_getFinalizedHead : M Z :=
  fun s => (Return (rpc_finalized w (polls s)),
            {| cacheEntries := cacheEntries s;
               polls := S (polls s);
               trace := trace s ++ [RpcGetFinalizedHead] |}).

Definition rpc_getBlockHash (n : Z) : M Z :=
  emit (RpcGetBlockHash n) ;;;
  ret n.

Definition rpc_getHeader (blockHash : Z) : M Header :=
  emit (RpcGetHeader blockHash) ;;;
  ret (rpc_header w blockHash).

Definition getLatestProcessedCdeBlockheight (net : string) : M (option Z) :=
  emit (DbLatestProcessedCde net) ;;;
  ret (db_latestProcessedCde w net).

Definition fetch (lc : string) (curr : Z) : M Response :=
  emit (HttpGet lc curr) ;;;
  ret (http_blockData w lc curr).

Definition delay_ms (ms : Z) : M unit := emit (Delay ms).

(** *** Access to the cache entry *)

(** [getState]: throws when the entry or its state is missing. *)
Definition getState : M AvailFunnelCacheEntryState :=
  fun s =>
    match cacheEntries s with
    | Some {| entry_state := Some bufferedState |} => (Return bufferedState, s)
    | _ => (Throw UninitializedStateError, s)
    end.

(** A write through the reference [cachedState]. *)
Definition modifyState (f : AvailFunnelCacheEntryState -> AvailFunnelCacheEntryState)
  : M unit :=
  fun s =>
    match cacheEntries s with
    | Some {| entry_state := Some st |} =>
        (Return tt, {| cacheEntries := Some {| entry_state := Some (f st) |};
                       polls := polls s;
                       trace := trace s |})
    | _ => (Return tt, s)
    end.

(** [latestBlock()] *)
Definition latestBlock : M HeaderData :=
  fun s =>
    match cacheEntries s with
    | Some {| entry_state := Some {| latestBlock_ := Some b |} |} => (Return b, s)
    | _ => (Throw UninitializedStateError, s)
    end.

(** [updateLatestBlock()] *)
Definition updateLatestBlock : M Z :=
  cachedState <- getState ;;
  latestHead <- rpc_getFinalizedHead ;;
  latestHeader <- rpc_getHeader latestHead ;;
  let delayedBlock :=
    Z.max (hdr_number latestHeader - default 0 (confirmationDepth config)) 1 in
  delayedBlockHash <- rpc_getBlockHash delayedBlock ;;
  delayedHeader <- rpc_getHeader delayedBlockHash ;;
  slot <- liftResult (getSlotFromHeader delayedHeader) ;;
  modifyState (entry_updateLatestBlock {| number := hdr_number delayedHeader;
                                          hash := hdr_hash delayedHeader;
                                          slot := slot |}) ;;;
  ret delayedBlock.

(** *** Secondary-chain reader *)

(** [for (let bn = from; bn < to; bn++)] *)
Fixpoint getMultipleHeaderData_loop (count : nat) (bn : Z) (results : list HeaderData)
  : M (list HeaderData) :=
  match count with
  | O => ret results
  | S count' =>
      blockHash <- rpc_getBlockHash bn ;;
      header <- rpc_getHeader blockHash ;;
      slot <- liftResult (getSlotFromHeader header) ;;
      getMultipleHeaderData_loop count' (bn + 1)
        (results ++ [{| number := hdr_number header;
                        hash := hdr_hash header;
                        slot := slot |}])
  end.

Definition getMultipleHeaderData (from to : Z) : M (list HeaderData) :=
  getMultipleHeaderData_loop (Z.to_nat (to - from)) from [].

(** The generic event built for one data transaction. *)
Definition genericDatum (net : string) (response : Response) (d : string) : CdeDatum :=
  {| cdeName := "availDefaultExtension";
     datumBlockNumber := block_number response;
     transactionHash := "hash";
     payload := d;
     cdeDatumType := Generic;
     scheduledPrefix := "avail";
     datumNetwork := net |}.

(** [for (let curr = from; curr <= to; curr++)] *)
Fixpoint getSubmittedData_loop (count : nat) (lc : string) (curr : Z) (net : string)
  (data : list CdeData) : M (list CdeData) :=
  match count with
  | O => ret data
  | S count' =>
      responseRaw <- fetch lc curr ;;
      if negb (status responseRaw =? 200) then
        getSubmittedData_loop count' lc (curr + 1) net data
      else if (0 <? Z.of_nat (length (data_transactions responseRaw))) then
        getSubmittedData_loop count' lc (curr + 1) net
          (data ++ [{| cdeBlockNumber := Some (block_number responseRaw);
                       cdeExtensionDatums :=
                         Some (map (genericDatum net responseRaw)
                                   (data_transactions responseRaw)) |}])
      else
        getSubmittedData_loop count' lc (curr + 1) net data
  end.

Definition getSubmittedData (lc : string) (from to : Z) (net : string)
  : M (list CdeData) :=
  getSubmittedData_loop (Z.to_nat (to + 1 - from)) lc from net [].

(** *** Time correlator *)

(** The [while (low < high)] loop.  The interval shrinks at every turn,
    so [high - low] turns are enough. *)
Fixpoint findBlockByTimestamp_loop (fuel : nat) (targetTimestamp low high : Z) : M Z :=
  if low <? high then
    match fuel with
    | O => outOfFuel
    | S fuel' =>
        let mid := (low + high) / 2 in
        blockHash <- rpc_getBlockHash mid ;;
        header <- rpc_getHeader blockHash ;;
        slot <- liftResult (getSlotFromHeader header) ;;
        if slot * 20 <=? targetTimestamp then
          findBlockByTimestamp_loop fuel' targetTimestamp (mid + 1) high
        else
          findBlockByTimestamp_loop fuel' targetTimestamp low mid
    end
  else ret low.

Definition findBlockByTimestamp (targetTimestamp : Z) : M Z :=
  highHash <- rpc_getFinalizedHead ;;
  highHeader <- rpc_getHeader highHash ;;
  let high := hdr_number highHeader + 1 in
  findBlockByTimestamp_loop (Z.to_nat (high - 1)) targetTimestamp 1 high.

(** *** Bootstrap *)

(** [recoverState].  The entry is looked up or created, bootstrapped when
    it holds no state yet, and the head is refreshed once.  The funnel
    object it returns carries [config] and [chainName] only. *)
Definition getOrCreateEntry : M AvailFunnelCacheEntry :=
  fun s =>
    match cacheEntries s with
    | Some entry => (Return entry, s)
    | None => (Return newEntry, {| cacheEntries := Some newEntry;
                                   polls := polls s;
                                   trace := trace s |})
    end.

Definition setEntry (entry : AvailFunnelCacheEntry) : M unit :=
  fun s => (Return tt, {| cacheEntries := Some entry;
                          polls := polls s;
                          trace := trace s |}).

Definition recoverState (startingBlockHeight : Z) : M unit :=
  availFunnelCacheEntry <- getOrCreateEntry ;;
  (if negb (initialized availFunnelCacheEntry) then
     startingBlock <- web3_getBlock startingBlockHeight ;;
     api_handle <- createApi (rpc config) ;;
     mappedStartingBlockHeight <- findBlockByTimestamp (applyDelay config startingBlock) ;;
     setEntry (initialize api_handle mappedStartingBlockHeight)
   else ret tt) ;;;
  _ <- updateLatestBlock ;;
  ret tt.

(** *** Presync *)

Definition toPresync (d : CdeData) : PresyncChainData :=
  {| presyncExtensionDatums := cdeExtensionDatums d;
     networkType := AVAIL;
     network := chainName;
     presyncBlockNumber := cdeBlockNumber d |}.

Definition readPresyncData (args : list PresyncArg) : M (gmap string PresyncResult) :=
  baseData <- base_readPresyncData args ;;
  match List.find (fun arg => String.eqb (arg_network arg) chainName) args with
  | None => ret baseData
  | Some arg =>
      let fromBlock := arg_from arg in
      let toBlock := arg_to arg in
      cachedState <- getState ;;
      let startBlockHeight := startingBlockHeight cachedState in
      if fromBlock >=? startBlockHeight then
        ret (<[chainName := FUNNEL_PRESYNC_FINISHED]> baseData)
      else
        let toBlock := Z.min toBlock (startBlockHeight - 1) in
        let fromBlock := Z.max fromBlock 0 in
        if fromBlock >? toBlock then ret baseData
        else
          data <- getSubmittedData (lightClient config) fromBlock toBlock chainName ;;
          ret (<[chainName := PresyncBlocks (map toPresync data)]> baseData)
  end.

(** *** Sync *)

(** [!cachedState.lastBlock]: unset, or zero. *)
Definition lastBlockUnset (st : AvailFunnelCacheEntryState) : bool :=
  match lastBlock st with
  | Some n => negb (truthy n)
  | None => true
  end.

(** Lines 77-107: the resume cursor, resolved when it is unset.  [first]
    is [chainData[0]]. *)
Definition resolveLastBlock (first : ChainData) : M unit :=
  cachedState <- getState ;;
  if lastBlockUnset cachedState then
    queryResults <- getLatestProcessedCdeBlockheight chainName ;;
    match queryResults with
    | Some block_height =>
        modifyState (set_lastBlock
          (Z.max block_height (startingBlockHeight cachedState - 1)))
    | None =>
        ts <- web3_getBlock (blockNumber first - 1) ;;
        earliestParallelChainBlock <- findBlockByTimestamp (applyDelay config ts) ;;
        modifyState (set_lastBlock (earliestParallelChainBlock - 1))
    end
  else ret tt.

(** The inner [while] of the header loop: poll every 500 ms until the head
    moves. *)
Fixpoint waitForBlocks (fuel : nat) (latestNumber : Z) : M unit :=
  match fuel with
  | O => outOfFuel
  | S fuel' =>
      delayedBlock <- updateLatestBlock ;;
      if delayedBlock =? latestNumber then
        delay_ms 500 ;;; waitForBlocks fuel' latestNumber
      else ret tt
  end.

(** The cursor as the header loop reads it; it was assigned just before,
    so it is a number there. *)
Definition cursor (st : AvailFunnelCacheEntryState) : Z := default 0 (lastBlock st).

Definition reachesMaxSlot (maxSlot : Q) (headers : list HeaderData) : bool :=
  match last headers with
  | Some h => Qle_bool maxSlot (inject_Z (slot h))
  | None => false
  end.

(** Lines 112-146: the [while (true)] that fetches headers in groups. *)
Fixpoint fetchHeaders (fuel : nat) (maxSlot : Q) (headers : list HeaderData)
  : M (list HeaderData) :=
  match fuel with
  | O => outOfFuel
  | S fuel' =>
      latest <- latestBlock ;;
      cachedState <- getState ;;
      let to := Z.min (number latest)
                      (cursor cachedState + funnelBlockGroupSize config) in
      availHeaders <- getMultipleHeaderData (cursor cachedState + 1) to ;;
      let headers := headers ++ availHeaders in
      match last headers with
      | Some h => modifyState (set_lastBlock (number h))
      | None => ret tt
      end ;;;
      if reachesMaxSlot maxSlot headers then ret headers
      else if negb (to =? number latest) then fetchHeaders fuel' maxSlot headers
      else waitForBlocks fuel (number latest) ;;; fetchHeaders fuel' maxSlot headers
  end.

(** Lines 148-151: every header is pushed on the index and becomes the
    latest block. *)
Definition pushHeaders (headers : list HeaderData) (st : AvailFunnelCacheEntryState)
  : AvailFunnelCacheEntryState :=
  set_latestBlock
    (match last headers with
     | Some h => Some h
     | None => latestBlock_ st
     end)
    (set_timestampToBlockNumber
       (timestampToBlockNumber st ++ map (fun h => (slot h * 20, number h)) headers)
       st).

(** Lines 153-163: entries up to the boundary consumed before are shifted
    off the front. *)
Fixpoint trimConsumed (boundary : Q) (entries : list (Z * Z)) : list (Z * Z) :=
  match entries with
  | [] => []
  | (ts, bn) :: rest =>
      if Qle_bool (inject_Z ts) boundary then trimConsumed boundary rest
      else entries
  end.

(** Lines 167-180: one pass over index and blocks; [advance] is the inner
    [while] that moves [currIndex]. *)
Fixpoint advance (ts : Z) (blocks : list ChainData) : list ChainData :=
  match blocks with
  | [] => []
  | block :: rest =>
      if applyDelay config (timestamp block) >=? ts then blocks
      else advance ts rest
  end.

Fixpoint buildMapping (entries : list (Z * Z)) (blocks : list ChainData)
  (mapping : gmap Z Z) : gmap Z Z :=
  match entries with
  | [] => mapping
  | (ts, bn) :: rest =>
      match advance ts blocks with
      | [] => buildMapping rest [] mapping
      | block :: later =>
          buildMapping rest (block :: later) (<[bn := blockNumber block]> mapping)
      end
  end.

(** Lines 209-211: [data.blockNumber = mapping[data.blockNumber]] *)
Definition remap (mapping : gmap Z Z) (data : CdeData) : CdeData :=
  {| cdeBlockNumber := match cdeBlockNumber data with
                       | Some n => mapping !! n
                       | None => None
                       end;
     cdeExtensionDatums := cdeExtensionDatums data |}.

(** Lines 77-216, entered with a non-empty batch whose first and last
    blocks are [first] and [final]. *)
Definition correlate (fuel : nat) (chainData : list ChainData)
  (first final : ChainData) : M (list ChainData) :=
  resolveLastBlock first ;;;
  let maxSlot := (inject_Z (applyDelay config (timestamp final)) / 20)%Q in
  headers <- fetchHeaders fuel maxSlot [] ;;
  modifyState (pushHeaders headers) ;;;
  cachedState <- getState ;;
  let trimmed := trimConsumed (lastMaxSlot cachedState * 20)%Q
                              (timestampToBlockNumber cachedState) in
  modifyState (set_timestampToBlockNumber trimmed) ;;;
  match trimmed with
  | [] => ret chainData
  | (firstTs, fromBlock) :: _ =>
      modifyState (set_lastMaxSlot maxSlot) ;;;
      let availToMainchainBlockHeightMapping := buildMapping trimmed chainData ∅ in
      if negb (Qle_bool (inject_Z firstTs) (maxSlot * 20)%Q) then ret chainData
      else
        let toBlock :=
          match getUpperBoundBlock trimmed (maxSlot * 20)%Q with
          | Some b => if truthy b then b else fromBlock
          | None => fromBlock
          end in
        if negb (truthy toBlock) || (fromBlock <? 0) || (toBlock <? fromBlock)
        then ret chainData
        else
          availData <- getSubmittedData (lightClient config) fromBlock toBlock chainName ;;
          ret (composeChainData chainData
                 (map (remap availToMainchainBlockHeightMapping) availData))
  end.

Definition passesFilter (latestHeaderTimestamp : Z) (data : ChainData) : bool :=
  applyDelay config (timestamp data) <=? latestHeaderTimestamp.

(** [readData].  [fuel] bounds the turns of the header loop and of the
    wait for new blocks, which the source leaves unbounded.  The batch is
    returned by value: the blocks of [chainData] after the merge. *)
Definition readData (fuel : nat) (blockHeight : Z) : M (list ChainData) :=
  cachedState <- getState ;;
  match bufferedChainData cachedState with
  | [] =>
      baseData <- base_readData blockHeight ;;
      modifyState (fun st => set_bufferedChainData (bufferedChainData st ++ baseData) st)
  | _ :: _ => ret tt
  end ;;;
  _ <- updateLatestBlock ;;
  latestBlockQueryState <- latestBlock ;;
  let latestHeaderTimestamp := slot latestBlockQueryState * 20 in
  cachedState <- getState ;;
  let chainData :=
    List.filter (passesFilter latestHeaderTimestamp) (bufferedChainData cachedState) in
  modifyState (fun st =>
    set_bufferedChainData (drop (length chainData) (bufferedChainData st)) st) ;;;
  match chainData with
  | [] => ret chainData
  | first :: _ => correlate fuel chainData first (List.last chainData first)
  end.

End Funnel.

(** ** Vocabulary of the statements *)

(** The machine after some more requests. *)
Definition logged (events : list Event) (s : Machine) : Machine :=
  {| cacheEntries := cacheEntries s;
     polls := polls s;
     trace := trace s ++ events |}.

(** The number of the finalized head that the next [getFinalizedHead]
    request will see. *)
Definition finalizedHeight (w : World) (s : Machine) : Z :=
  hdr_number (rpc_header w (rpc_finalized w (polls s))).

(** The record [getSubmittedData] builds for an answer with
    transactions. *)
Definition recordOf (net : string) (response : Response) : CdeData :=
  {| cdeBlockNumber := Some (block_number response);
     cdeExtensionDatums :=
       Some (map (genericDatum net response) (data_transactions response)) |}.

(** The records that one block contributes to [getSubmittedData]. *)
Definition blockRecords (w : World) (lc net : string) (curr : Z) : list CdeData :=
  let response := http_blockData w lc curr in
  if negb (status response =? 200) then []
  else if 0 <? Z.of_nat (length (data_transactions response))
       then [recordOf net response] else [].

(** A block with other extension datums, everything else kept. *)
Definition withDatums (b : ChainData) (l : list CdeDatum) : ChainData :=
  {| timestamp := timestamp b;
     blockHash := blockHash b;
     blockNumber := blockNumber b;
     submittedData := submittedData b;
     extensionDatums := Some l |}.

(** ** Sample data *)

Definition sampleDatum (p : string) : CdeDatum :=
  {| cdeName := "availDefaultExtension"; datumBlockNumber := 6;
     transactionHash := "hash"; payload := p; cdeDatumType := Generic;
     scheduledPrefix := "avail"; datumNetwork := "avail" |}.

Definition sampleBlock (n ts : Z) (datums : option (list CdeDatum)) : ChainData :=
  {| timestamp := ts; blockHash := "0x0a"; blockNumber := n;
     submittedData := []; extensionDatums := datums |}.

Definition sampleRecord (n : Z) (datums : list CdeDatum) : CdeData :=
  {| cdeBlockNumber := Some n; cdeExtensionDatums := Some datums |}.

(** ** Specifications of runs *)

(** The correlation state of a machine, when it has one. *)
Definition stateOf (s : Machine) : option AvailFunnelCacheEntryState :=
  match cacheEntries s with
  | Some entry => entry_state entry
  | None => None
  end.

(** [keeps f m]: no run of [m], whatever its outcome, changes the
    component [f] of the correlation state. *)
Definition keeps {X A} (f : AvailFunnelCacheEntryState -> X) (m : M A) : Prop :=
  forall s r s', m s = (r, s') -> f <$> stateOf s' = f <$> stateOf s.

(** [quiet m]: a run of [m] only adds to the trace and to the count of
    polls; the cache is as before. *)
Definition quiet {A} (m : M A) : Prop :=
  forall s r s', m s = (r, s') -> cacheEntries s' = cacheEntries s.

(** The resume cursor as the specification words it: the persisted height
    when one is recorded and is at least [startingBlockHeight - 1],
    otherwise the bootstrap value of [recoverState]. *)
Definition specCursor (persisted : option Z) (startingBlockHeight bootstrap : Z) : Z :=
  match persisted with
  | Some height => if height >=? startingBlockHeight - 1 then height else bootstrap
  | None => bootstrap
  end.

(** A machine at the start of the process: nothing cached, nothing
    requested. *)
Definition processStart : Machine :=
  {| cacheEntries := None; polls := 0; trace := [] |}.

Definition sampleHeader (n slotNumber : Z) : Header :=
  {| hdr_number := n; hdr_hash := "0xhead";
     hdr_logs := [PreRuntime "BABE" (Primary 0 slotNumber); Seal "BABE"] |}.

Definition sampleConfig : AvailConfig :=
  {| delay := None; confirmationDepth := None; funnelBlockGroupSize := 100;
     lightClient := "http://lc"; rpc := "ws://avail" |}.

(** A secondary chain whose block [n] is in slot [n] (logical time
    [20 * n]), a primary chain whose block [n] has timestamp [20 * n], and
    a light client with data in block 6 only. *)
Definition sampleWorld (baseBlocks : Z -> list ChainData) (finalized : nat -> Z)
  (persisted : option Z) : World :=
  {| web3_timestamp := fun n => 20 * n;
     base_chainData := baseBlocks;
     base_presync := fun _ => ∅;
     rpc_finalized := finalized;
     rpc_header := fun n => sampleHeader n n;
     db_latestProcessedCde := fun _ => persisted;
     http_blockData := fun _ n =>
       {| status := if n =? 7 then 404 else 200;
          block_number := n;
          data_transactions := if n =? 6 then ["tx"%string] else [] |} |}.

(** The machine after the bootstrap at primary block 5. *)
Definition bootstrapped (world : World) : Machine :=
  snd (recoverState world sampleConfig 5 processStart).

(** The machine with its correlation state replaced. *)
Definition withState (st : AvailFunnelCacheEntryState) (s : Machine) : Machine :=
  {| cacheEntries := Some {| entry_state := Some st |};
     polls := polls s;
     trace := trace s |}.

(** The block that the next head refresh stores: the finalized head, held
    back by the confirmation depth. *)
Definition refreshedHead (w : World) (config : AvailConfig) (s : Machine)
  : Result HeaderData :=
  let head := rpc_finalized w (polls s) in
  let delayedBlock :=
    Z.max (hdr_number (rpc_header w head) - default 0 (confirmationDepth config)) 1 in
  match getSlotFromHeader (rpc_header w delayedBlock) with
  | Ok sl => Ok {| number := hdr_number (rpc_header w delayedBlock);
                   hash := hdr_hash (rpc_header w delayedBlock);
                   slot := sl |}
  | Err e => Err e
  end.

(** The logical time of the secondary chain as a call that starts in [s]
    sees it. *)
Definition currentLogicalTime (w : World) (config : AvailConfig) (s : Machine)
  : Result Z :=
  match refreshedHead w config s with
  | Ok b => Ok (slot b * 20)
  | Err e => Err e
  end.

(** The blocks a call of [readData] works on: the carried-over buffer, or
    a fresh batch of the base funnel when the buffer is empty. *)
Definition pendingBlocks (w : World) (blockHeight : Z) (st : AvailFunnelCacheEntryState)
  : list ChainData :=
  match bufferedChainData st with
  | [] => base_chainData w blockHeight
  | _ :: _ => bufferedChainData st
  end.

(** [returns m P]: whatever a run of [m] returns is in [P]. *)
Definition returns {A} (m : M A) (P : A -> Prop) : Prop :=
  forall s a s', m s = (Return a, s') -> P a.

(** Two records of the same primary block: all but the extension datums
    agree. *)
Definition sameBlock (a b : ChainData) : Prop :=
  timestamp a = timestamp b /\ blockHash a = blockHash b /\
  blockNumber a = blockNumber b /\ submittedData a = submittedData b.

(** ** The index over the life of a process *)

Definition sortedByTime (index : list (Z * Z)) : Prop :=
  StronglySorted (fun a b => fst a <= fst b) index.

(** The entry that [readData] pushes for a header. *)
Definition indexEntry (h : HeaderData) : Z * Z := (slot h * 20, number h).

(** The calls the runtime makes on the funnel. *)
Inductive Call :=
| RecoverState (startingBlockHeight : Z)
| ReadData (fuel : nat) (blockHeight : Z)
| ReadPresyncData (args : list PresyncArg).

(** The machine after a call, whatever its outcome. *)
Definition perform (w : World) (config : AvailConfig) (chainName : string)
  (call : Call) (s : Machine) : Machine :=
  match call with
  | RecoverState h => snd (recoverState w config h s)
  | ReadData fuel blockHeight => snd (readData w config chainName fuel blockHeight s)
  | ReadPresyncData args => snd (readPresyncData w config chainName args s)
  end.

Definition performAll (w : World) (config : AvailConfig) (chainName : string)
  (calls : list Call) (s : Machine) : Machine :=
  fold_left (fun s' call => perform w config chainName call s') calls s.

(** An entry of the index is the logical time and the number of a block
    at or below the cursor. *)
Definition indexEntryOk (w : World) (upTo : Z) (e : Z * Z) : Prop :=
  1 <= snd e <= upTo /\
  exists sl, getSlotFromHeader (rpc_header w (snd e)) = Ok sl /\ fst e = sl * 20.

(** What holds of the correlation state between calls. *)
Definition indexInv (w : World) (st : AvailFunnelCacheEntryState) : Prop :=
  1 <= startingBlockHeight st /\
  0 <= cursor st /\
  sortedByTime (timestampToBlockNumber st) /\
  Forall (indexEntryOk w (cursor st)) (timestampToBlockNumber st).

Definition machineInv (w : World) (s : Machine) : Prop :=
  forall st, stateOf s = Some st -> indexInv w st.

(** The part of the state the index invariant and the trimming read. *)
Definition indexFields (st : AvailFunnelCacheEntryState) : Z * option Z * list (Z * Z) * Q :=
  (startingBlockHeight st, lastBlock st, timestampToBlockNumber st, lastMaxSlot st).

(** How one call may change the index: the entries (logical time, number)
    of consecutive blocks in ascending order are appended, then entries at
    or before the boundary [consumed] are dropped from the front. *)
Definition trimmedAndExtended (w : World) (consumed : Q) (before after : list (Z * Z))
  : Prop :=
  exists (appended : list (Z * Z)) (k : nat) (c : Z),
    after = drop k (before ++ appended) /\
    Forall (fun e => (inject_Z (fst e) <= consumed)%Q) (take k (before ++ appended)) /\
    map snd appended = seqZ (c + 1) (Z.of_nat (length appended)) /\
    Forall (fun e => exists sl, getSlotFromHeader (rpc_header w (snd e)) = Ok sl /\
                                fst e = sl * 20) appended.

(** Headers of the consecutive blocks after [c], each with its slot. *)
Definition consecutive (w : World) (c : Z) (headers : list HeaderData) : Prop :=
  map number headers = seqZ (c + 1) (Z.of_nat (length headers)) /\
  Forall (fun h => getSlotFromHeader (rpc_header w (number h)) = Ok (slot h)) headers.

(** The index fields that the header loop leaves alone. *)
Definition restFields (st : AvailFunnelCacheEntryState) : Z * list (Z * Z) * Q :=
  (startingBlockHeight st, timestampToBlockNumber st, lastMaxSlot st).

(** What a call does to the index: from a state that satisfies the
    invariant it leads, whatever the outcome, to one that satisfies it,
    the index trimmed at the front and extended at the back. *)
Definition indexStep (w : World) (s s' : Machine) : Prop :=
  forall st, stateOf s = Some st -> indexInv w st ->
    exists st', stateOf s' = Some st' /\
                indexInv w st' /\
                trimmedAndExtended w (lastMaxSlot st * 20)%Q
                  (timestampToBlockNumber st) (timestampToBlockNumber st').

Definition indexSteps (w : World) {A} (m : M A) : Prop :=
  forall s r s', m s = (r, s') -> indexStep w s s'.

(** The index fields that the end of [correlate] leaves alone. *)
Definition cursorFields (st : AvailFunnelCacheEntryState) : Z * option Z * list (Z * Z) :=
  (startingBlockHeight st, lastBlock st, timestampToBlockNumber st).

(** [preserves w m P]: every run of [m] from a machine that satisfies the
    invariant ends in one that does, and what it returns is in [P]. *)
Definition preserves (w : World) {A} (m : M A) (P : A -> Prop) : Prop :=
  forall s r s', m s = (r, s') -> machineInv w s ->
    machineInv w s' /\ match r with Return a => P a | _ => True end.

(** A light client with data in blocks 6 and 8. *)
Definition busyWorld (baseBlocks : Z -> list ChainData) (finalized : nat -> Z)
  (persisted : option Z) : World :=
  {| web3_timestamp := fun n => 20 * n;
     base_chainData := baseBlocks;
     base_presync := fun _ => ∅;
     rpc_finalized := finalized;
     rpc_header := fun n => sampleHeader n n;
     db_latestProcessedCde := fun _ => persisted;
     http_blockData := fun _ n =>
       {| status := 200;
          block_number := n;
          data_transactions :=
            if n =? 6 then ["six"%string]
            else if n =? 8 then ["eight"%string] else [] |} |}.

Definition sampleArg (from to : Z) : PresyncArg :=
  {| arg_network := "avail"; arg_from := from; arg_to := to |}.

(** ** Wrapping a funnel *)




(** ** Vocabulary of the further properties *)

(** [emits P m]: a run of [m] only appends to the trace, and every
    request it appends is in [P]. *)
Definition emits {A} (P : Event -> Prop) (m : M A) : Prop :=
  forall s r s', m s = (r, s') ->
    exists events, trace s' = trace s ++ events /\ Forall P events.

(** The two requests that fetch the header of block [n]. *)
Definition headerRequests (n : Z) : list Event := [RpcGetBlockHash n; RpcGetHeader n].

(** The header data read from block [n] when its slot is [sl]. *)
Definition headerDataAt (w : World) (n sl : Z) : HeaderData :=
  {| number := hdr_number (rpc_header w n);
     hash := hdr_hash (rpc_header w n);
     slot := sl |}.

(** The first block of a batch whose delayed timestamp is not before
    [ts]. *)
Definition firstReady (config : AvailConfig) (ts : Z) (blocks : list ChainData)
  : option ChainData :=
  List.find (fun block => applyDelay config (timestamp block) >=? ts) blocks.

(** The extension datums of a block, none when the field is absent. *)
Definition datumsOf (b : ChainData) : list CdeDatum := default [] (extensionDatums b).

(** A record as [getSubmittedData] builds it: it carries the number the
    light client answered with and at least one datum, and its datums are
    generic datums of the network with the same number. *)
Definition wellFormedRecord (net : string) (r : CdeData) : Prop :=
  exists n datums,
    cdeBlockNumber r = Some n /\
    cdeExtensionDatums r = Some datums /\
    datums <> [] /\
    Forall (fun d => cdeDatumType d = Generic /\ datumNetwork d = net /\
                     datumBlockNumber d = n /\ cdeName d = "availDefaultExtension"%string)
           datums.

(** A secondary chain like that of [sampleWorld], except that block [bad]
    carries no pre-runtime digest. *)
Definition brokenWorld (bad : Z) (baseBlocks : Z -> list ChainData)
  (finalized : nat -> Z) (persisted : option Z) : World :=
  {| web3_timestamp := fun n => 20 * n;
     base_chainData := baseBlocks;
     base_presync := fun _ => ∅;
     rpc_finalized := finalized;
     rpc_header := fun n =>
       if n =? bad
       then {| hdr_number := n; hdr_hash := "0xhead"; hdr_logs := [Seal "BABE"] |}
       else sampleHeader n n;
     db_latestProcessedCde := fun _ => persisted;
     http_blockData := fun _ n =>
       {| status := 200; block_number := n; data_transactions := [] |} |}.

(** The machine with another cache entry. *)
Definition withEntry (entry : AvailFunnelCacheEntry) (s : Machine) : Machine :=
  {| cacheEntries := Some entry; polls := polls s; trace := trace s |}.

(** The block a head refresh started in [s] reads: the finalized head held
    back by the confirmation depth, and block 1 at least. *)
Definition heldBackBlock (w : World) (config : AvailConfig) (s : Machine) : Z :=
  Z.max (hdr_number (rpc_header w (rpc_finalized w (polls s)))
         - default 0 (confirmationDepth config)) 1.

(** The four requests of a head refresh started in [s]. *)
Definition refreshRequests (w : World) (config : AvailConfig) (s : Machine) : list Event :=
  [RpcGetFinalizedHead; RpcGetHeader (rpc_finalized w (polls s));
   RpcGetBlockHash (heldBackBlock w config s); RpcGetHeader (heldBackBlock w config s)].



(** The requests to the wrapped funnel. *)
Definition isBaseRequest (e : Event) : bool :=
  match e with
  | BaseReadData _ | BaseReadPresyncData _ => true
  | _ => false
  end.

(** The requests that resolve the resume cursor: the database query and
    the block of the primary node. *)
Definition isCursorRequest (e : Event) : bool :=
  match e with
  | DbLatestProcessedCde _ | Web3GetBlock _ => true
  | _ => false
  end.

(** The requests [readData] makes before it filters the buffer: the base
    funnel is asked when the buffer is empty, then the head is
    refreshed. *)
Definition prefixRequests (w : World) (config : AvailConfig) (blockHeight : Z)
  (st : AvailFunnelCacheEntryState) (s : Machine) : list Event :=
  match bufferedChainData st with
  | [] => BaseReadData blockHeight :: refreshRequests w config s
  | _ :: _ => refreshRequests w config s
  end.

(** A datum attached in time: the secondary block it names is in the
    index with a logical time that is not after the delayed timestamp of a
    block of the batch with the number of the block it is attached to. *)
Definition attachedInTime (config : AvailConfig) (index : list (Z * Z))
  (batch : list ChainData) (inp : ChainData) (d : CdeDatum) : Prop :=
  exists ts block,
    In (ts, datumBlockNumber d) index /\
    In block batch /\
    blockNumber block = blockNumber inp /\
    ts <= applyDelay config (timestamp block).

(** [out] is the block [inp] of the batch after the merge: nothing but the
    extension datums differs, and these are the datums of [inp] followed by
    generic datums of the network, each attached in time. *)
Definition attaches (config : AvailConfig) (chainName : string) (index : list (Z * Z))
  (batch : list ChainData) (out inp : ChainData) : Prop :=
  sameBlock out inp /\
  exists more,
    datumsOf out = datumsOf inp ++ more /\
    Forall (fun d => cdeDatumType d = Generic /\ datumNetwork d = chainName /\
                     attachedInTime config index batch inp d) more.

(** A heap with two blocks, each with an array of its own, and one record
    for block 10. *)
Definition sampleHeap : InPlace.Heap :=
  {| InPlace.objects :=
       <[0%nat := {| InPlace.o_timestamp := 100; InPlace.o_blockHash := "0x0a";
                     InPlace.o_blockNumber := 10; InPlace.o_submittedData := [];
                     InPlace.o_extensionDatums := Some 10%nat |}]>
       (<[1%nat := {| InPlace.o_timestamp := 120; InPlace.o_blockHash := "0x0a";
                      InPlace.o_blockNumber := 11; InPlace.o_submittedData := [];
                      InPlace.o_extensionDatums := Some 11%nat |}]> ∅);
     InPlace.arrays :=
       <[10%nat := [sampleDatum "a"]]>
       (<[11%nat := []]> (<[20%nat := [sampleDatum "b"; sampleDatum "c"]]> ∅)) |}.

Definition sampleCdeObjects : list InPlace.CdeObject :=
  [{| InPlace.c_blockNumber := Some 10; InPlace.c_extensionDatums := Some 20%nat |}].

(** A heap with one block that has no array yet, and two records for it,
    each with its array. *)
Definition bareHeap : InPlace.Heap :=
  {| InPlace.objects :=
       <[0%nat := {| InPlace.o_timestamp := 100; InPlace.o_blockHash := "0x0a";
                     InPlace.o_blockNumber := 10; InPlace.o_submittedData := [];
                     InPlace.o_extensionDatums := None |}]> ∅;
     InPlace.arrays :=
       <[20%nat := [sampleDatum "b"]]> (<[21%nat := [sampleDatum "c"]]> ∅) |}.

(** A machine of which only the count of polls matters: the head refresh
    reads nothing else of the machine to tell which head it will see. *)
Definition atPoll (p : nat) : Machine :=
  {| cacheEntries := None; polls := p; trace := [] |}.

(** The requests of the wait for a new head that starts at poll [p] and
    sees the head move at its [k]-th refresh: [k] refreshes, each followed
    by a pause of 500 ms, and the refresh that sees the new head. *)
Definition waitRequests (w : World) (config : AvailConfig) (p k : nat) : list Event :=
  concat (map (fun i => refreshRequests w config (atPoll (p + i)) ++ [Delay 500])
              (seq 0 k))
  ++ refreshRequests w config (atPoll (p + k)).

(** A request that is not a request to the light client for a block below
    [floor]. *)
Definition notBelow (floor : Z) (e : Event) : Prop :=
  forall lc n, e = HttpGet lc n -> floor <= n.

(** The index and the cursor are past the range of the presync: every
    entry of the index is a block from [startingBlockHeight] on, and a
    cursor that is set is at [startingBlockHeight - 1] or later. *)
Definition pastPresync (st : AvailFunnelCacheEntryState) : Prop :=
  Forall (fun e => startingBlockHeight st <= snd e) (timestampToBlockNumber st) /\
  (lastBlockUnset st = false -> startingBlockHeight st - 1 <= cursor st).

(** * Properties *)

(** ** Slot of a header *)

Lemma find_none_iff {A} (p : A -> bool) (l : list A) :
  List.find p l = None <-> (forall x, In x l -> p x = false).
Proof.
  split.
  - intros Hf x Hx. exact (find_none p l Hf x Hx).
  - induction l as [|a l IH]; intros Hall; simpl; [reflexivity|].
    rewrite (Hall a (or_introl eq_refl)). apply IH.
    intros x Hx. apply Hall. now right.
Qed.

(** C6. A header whose digest log has no pre-runtime entry has no slot:
    [getSlotFromHeader] fails, with the malformed-header error and no
    other outcome. *)
Theorem getSlotFromHeader_no_preRuntime (header : Header) :
  (forall log, In log (hdr_logs header) -> isPreRuntime log = false) ->
  getSlotFromHeader header = Err MalformedHeaderError.
Proof.
  intros Hnone. unfold getSlotFromHeader.
  apply find_none_iff in Hnone. now rewrite Hnone.
Qed.

Lemma getSlotFromHeader_no_preRuntime_witness :
  getSlotFromHeader {| hdr_number := 7; hdr_hash := "0xab";
                       hdr_logs := [Consensus "BABE"; Seal "BABE"] |}
  = Err MalformedHeaderError.
Proof.
  apply getSlotFromHeader_no_preRuntime.
  intros log [<-|[<-|[]]]; reflexivity.
Defined.

(** The converse: with a pre-runtime entry the slot is the one of the
    first such entry. *)
Lemma getSlotFromHeader_first_preRuntime (header : Header) pre engine d post :
  hdr_logs header = pre ++ PreRuntime engine d :: post ->
  (forall log, In log pre -> isPreRuntime log = false) ->
  getSlotFromHeader header = Ok (slotNumberOf d).
Proof.
  intros Hlogs Hpre. unfold getSlotFromHeader. rewrite Hlogs. clear Hlogs.
  induction pre as [|a pre IH]; simpl; [reflexivity|].
  rewrite (Hpre a (or_introl eq_refl)). apply IH.
  intros log Hlog. apply Hpre. now right.
Qed.

(** ** Merging secondary data into primary blocks *)

Section Compose.

Implicit Types (b : ChainData) (r : CdeData).
Implicit Types (baseChainData : list ChainData) (cdeData : list CdeData).

Lemma matchesBlock_true b r :
  matchesBlock b r = true <-> cdeBlockNumber r = Some (blockNumber b).
Proof.
  unfold matchesBlock. destruct (cdeBlockNumber r) as [n|].
  - rewrite Z.eqb_eq. split; congruence.
  - split; discriminate.
Qed.

Lemma matchesBlock_false b r :
  matchesBlock b r = false <-> cdeBlockNumber r <> Some (blockNumber b).
Proof.
  rewrite <- matchesBlock_true. destruct (matchesBlock b r); split; congruence.
Qed.

Lemma find_first_match {A} (p : A -> bool) (pre : list A) (x : A) (post : list A) :
  (forall y, In y pre -> p y = false) ->
  p x = true ->
  List.find p (pre ++ x :: post) = Some x.
Proof.
  intros Hpre Hx. induction pre as [|a pre IH]; simpl.
  - now rewrite Hx.
  - rewrite (Hpre a (or_introl eq_refl)). apply IH.
    intros y Hy. apply Hpre. now right.
Qed.

Lemma composeBlock_no_match cdeData b :
  (forall r, In r cdeData -> cdeBlockNumber r <> Some (blockNumber b)) ->
  composeBlock cdeData b = b.
Proof.
  intros Hno. unfold composeBlock.
  replace (List.find (matchesBlock b) cdeData) with (@None CdeData); [reflexivity|].
  symmetry. apply find_none_iff. intros r Hr. apply matchesBlock_false. auto.
Qed.

Lemma composeBlock_first_match pre r post b :
  (forall r', In r' pre -> cdeBlockNumber r' <> Some (blockNumber b)) ->
  cdeBlockNumber r = Some (blockNumber b) ->
  composeBlock (pre ++ r :: post) b = mergeBlock b r.
Proof.
  intros Hpre Hr. unfold composeBlock. rewrite find_first_match; [reflexivity| |].
  - intros r' Hr'. apply matchesBlock_false. auto.
  - now apply matchesBlock_true.
Qed.

Lemma composeChainData_lookup baseChainData cdeData (i : nat) :
  composeChainData baseChainData cdeData !! i
  = composeBlock cdeData <$> baseChainData !! i.
Proof. unfold composeChainData. apply list_lookup_fmap. Qed.

Lemma mergeBlock_both b r own more :
  extensionDatums b = Some own ->
  cdeExtensionDatums r = Some more ->
  mergeBlock b r = withDatums b (own ++ more).
Proof. intros Hb Hr. unfold mergeBlock. now rewrite Hb, Hr. Qed.

Lemma mergeBlock_absent b r more :
  extensionDatums b = None ->
  cdeExtensionDatums r = Some more ->
  mergeBlock b r = withDatums b more.
Proof. intros Hb Hr. unfold mergeBlock. now rewrite Hb, Hr. Qed.

Lemma withDatums_own b own : extensionDatums b = Some own -> withDatums b own = b.
Proof. destruct b; simpl; intros ->; reflexivity. Qed.

(** C4. Merging keeps every datum in place.  A primary block without a
    matching secondary record comes back unchanged.  With a matching
    record, the block's datums are followed by the record's: two non-empty
    lists are concatenated in order, and when one side is empty (or the
    block has no list yet) the result is the other side. *)
Theorem composeChainData_concatenates baseChainData cdeData :
  length (composeChainData baseChainData cdeData) = length baseChainData /\
  forall (i : nat) b, baseChainData !! i = Some b ->
    ((forall r, In r cdeData -> cdeBlockNumber r <> Some (blockNumber b)) ->
       composeChainData baseChainData cdeData !! i = Some b) /\
    (forall pre r post more,
       cdeData = pre ++ r :: post ->
       (forall r', In r' pre -> cdeBlockNumber r' <> Some (blockNumber b)) ->
       cdeBlockNumber r = Some (blockNumber b) ->
       cdeExtensionDatums r = Some more ->
       (forall own, extensionDatums b = Some own ->
          composeChainData baseChainData cdeData !! i
          = Some (withDatums b (own ++ more))) /\
       (extensionDatums b = Some [] \/ extensionDatums b = None ->
          composeChainData baseChainData cdeData !! i = Some (withDatums b more)) /\
       (more = [] -> is_Some (extensionDatums b) ->
          composeChainData baseChainData cdeData !! i = Some b)).
Proof.
  split.
  { unfold composeChainData. apply length_map. }
  intros i b Hi. rewrite composeChainData_lookup, Hi. simpl. split.
  - intros Hno. now rewrite composeBlock_no_match.
  - intros pre r post more -> Hpre Hr Hmore.
    rewrite (composeBlock_first_match pre r post b Hpre Hr).
    split; [|split].
    + intros own Hown. now rewrite (mergeBlock_both b r own more).
    + intros [Hempty|Habsent].
      * now rewrite (mergeBlock_both b r [] more).
      * now rewrite (mergeBlock_absent b r more).
    + intros -> [own Hown].
      rewrite (mergeBlock_both b r own []); [|assumption..].
      rewrite app_nil_r. now rewrite withDatums_own.
Qed.

(** C5. Only the first record with the block's number counts: whatever
    follows it in the secondary-data list, also further records with the
    same number, is ignored and its datums do not reach the block. *)
Theorem composeChainData_first_record_only baseChainData pre r post (i : nat) b :
  baseChainData !! i = Some b ->
  (forall r', In r' pre -> cdeBlockNumber r' <> Some (blockNumber b)) ->
  cdeBlockNumber r = Some (blockNumber b) ->
  composeChainData baseChainData (pre ++ r :: post) !! i = Some (mergeBlock b r) /\
  composeChainData baseChainData (pre ++ r :: post) !! i
  = composeChainData baseChainData (pre ++ [r]) !! i.
Proof.
  intros Hi Hpre Hr. rewrite !composeChainData_lookup, Hi. simpl.
  now rewrite !composeBlock_first_match.
Qed.

End Compose.

Lemma composeChainData_concatenates_witness :
  composeChainData
    [sampleBlock 10 100 (Some [sampleDatum "a"]); sampleBlock 11 120 None]
    [sampleRecord 10 [sampleDatum "b"; sampleDatum "c"]] !! 0%nat
  = Some (sampleBlock 10 100 (Some [sampleDatum "a"; sampleDatum "b"; sampleDatum "c"]))
  /\
  composeChainData
    [sampleBlock 10 100 (Some [sampleDatum "a"]); sampleBlock 11 120 None]
    [sampleRecord 10 [sampleDatum "b"; sampleDatum "c"]] !! 1%nat
  = Some (sampleBlock 11 120 None).
Proof.
  destruct (composeChainData_concatenates
    [sampleBlock 10 100 (Some [sampleDatum "a"]); sampleBlock 11 120 None]
    [sampleRecord 10 [sampleDatum "b"; sampleDatum "c"]]) as [_ Hblocks].
  split.
  - destruct (Hblocks 0%nat _ eq_refl) as [_ Hmatch].
    destruct (Hmatch [] (sampleRecord 10 [sampleDatum "b"; sampleDatum "c"]) []
                [sampleDatum "b"; sampleDatum "c"] eq_refl) as [Hboth _].
    + intros r' [].
    + reflexivity.
    + reflexivity.
    + exact (Hboth [sampleDatum "a"] eq_refl).
  - destruct (Hblocks 1%nat _ eq_refl) as [Hnone _].
    apply Hnone. intros r [<-|[]]. simpl. discriminate.
Defined.

Lemma composeChainData_first_record_only_witness :
  composeChainData [sampleBlock 10 100 (Some [])]
    ([] ++ sampleRecord 10 [sampleDatum "first"]
        :: [sampleRecord 10 [sampleDatum "second"]]) !! 0%nat
  = Some (sampleBlock 10 100 (Some [sampleDatum "first"])).
Proof.
  destruct (composeChainData_first_record_only
              [sampleBlock 10 100 (Some [])] []
              (sampleRecord 10 [sampleDatum "first"])
              [sampleRecord 10 [sampleDatum "second"]]
              0%nat (sampleBlock 10 100 (Some [])) eq_refl) as [Hfirst _].
  - intros r' [].
  - reflexivity.
  - exact Hfirst.
Defined.

(** ** The merge on the heap *)

Section InPlaceCompose.

Import InPlace.

Variable cdeData : list CdeObject.

Lemma find_view h o :
  List.find (matchesBlock (viewBlock h o)) (map (viewCde h) cdeData)
  = viewCde h <$> List.find (matches o) cdeData.
Proof.
  induction cdeData as [|c l IH]; [reflexivity|]. simpl.
  change (matchesBlock (viewBlock h o) (viewCde h c)) with (matches o c).
  destruct (matches o c); [reflexivity|exact IH].
Qed.

Lemma find_matches_elem_of o c :
  List.find (matches o) cdeData = Some c -> c ∈ cdeData.
Proof. intros Hf. apply find_some in Hf as [Hin _]. now apply list_elem_of_In. Qed.

Lemma arrayAt_insert_eq h l v :
  arrayAt {| objects := objects h; arrays := <[l := v]> (arrays h) |} l = v.
Proof. unfold arrayAt. simpl. now rewrite lookup_insert_eq. Qed.

Lemma arrayAt_insert_ne h l l' v :
  l <> l' ->
  arrayAt {| objects := objects h; arrays := <[l := v]> (arrays h) |} l' = arrayAt h l'.
Proof. intros Hne. unfold arrayAt. simpl. now rewrite lookup_insert_ne. Qed.

(** The step on block [a] writes at most into the array that [a] owns. *)
Lemma composeOne_arrays h a l :
  ownOf h a <> Some l -> arrayAt (composeOne cdeData h a) l = arrayAt h l.
Proof.
  intros Hown. unfold composeOne, ownOf in *.
  destruct (objects h !! a) as [o|]; [|reflexivity].
  destruct (List.find (matches o) cdeData) as [m|]; [|reflexivity].
  destruct (o_extensionDatums o) as [own|], (c_extensionDatums m) as [more|];
    try reflexivity.
  apply arrayAt_insert_ne. congruence.
Qed.

Lemma composeOne_objects h a b :
  a <> b -> objects (composeOne cdeData h a) !! b = objects h !! b.
Proof.
  intros Hne. unfold composeOne.
  destruct (objects h !! a) as [o|]; [|reflexivity].
  destruct (List.find (matches o) cdeData) as [m|]; [|reflexivity].
  destruct (o_extensionDatums o) as [own|], (c_extensionDatums m) as [more|];
    try reflexivity.
  simpl. now rewrite lookup_insert_ne.
Qed.

Lemma composeOne_ownOf h a b :
  a <> b -> ownOf (composeOne cdeData h a) b = ownOf h b.
Proof. intros Hne. unfold ownOf. now rewrite composeOne_objects. Qed.

(** Another block, with another array, reads as before. *)
Lemma composeOne_other h a b :
  a <> b ->
  (forall l, ownOf h b = Some l -> ownOf h a <> Some l) ->
  viewAt (composeOne cdeData h a) b = viewAt h b.
Proof.
  intros Hne Hown. unfold viewAt. rewrite composeOne_objects by exact Hne.
  destruct (objects h !! b) as [o|] eqn:Hb; [|reflexivity]. simpl. f_equal.
  unfold viewBlock. f_equal.
  destruct (o_extensionDatums o) as [l|] eqn:Hl; [|reflexivity]. simpl. f_equal.
  apply composeOne_arrays, Hown. unfold ownOf. now rewrite Hb.
Qed.

(** The records read as before when [a] shares no array with them. *)
Lemma composeOne_records h a :
  (forall l c, ownOf h a = Some l -> c ∈ cdeData -> c_extensionDatums c <> Some l) ->
  map (viewCde (composeOne cdeData h a)) cdeData = map (viewCde h) cdeData.
Proof.
  intros Hown. apply map_ext_in. intros c Hc. apply list_elem_of_In in Hc.
  unfold viewCde. f_equal.
  destruct (c_extensionDatums c) as [l|] eqn:Hl; [|reflexivity]. simpl. f_equal.
  apply composeOne_arrays. intros Ha. exact (Hown l c Ha Hc Hl).
Qed.

(** The block itself reads as [composeBlock] says. *)
Lemma composeOne_self h a :
  (forall l c, ownOf h a = Some l -> c ∈ cdeData -> c_extensionDatums c <> Some l) ->
  viewAt (composeOne cdeData h a) a
  = composeBlock (map (viewCde h) cdeData) <$> viewAt h a.
Proof.
  intros Hown. unfold viewAt, composeOne, ownOf in *.
  destruct (objects h !! a) as [o|] eqn:Ha; [|now rewrite Ha].
  simpl. unfold composeBlock. rewrite find_view.
  destruct (List.find (matches o) cdeData) as [m|] eqn:Hm; simpl;
    [|now rewrite Ha].
  pose proof (find_matches_elem_of o m Hm) as Hin.
  unfold mergeBlock, viewBlock, viewCde. simpl.
  destruct (o_extensionDatums o) as [own|] eqn:Ho,
           (c_extensionDatums m) as [more|] eqn:Hc; simpl.
  - rewrite Ha. simpl. f_equal. rewrite Ho. simpl.
    now rewrite arrayAt_insert_eq.
  - rewrite Ha. simpl. now rewrite Ho.
  - rewrite lookup_insert_eq. reflexivity.
  - rewrite Ha. simpl. now rewrite Ho.
Qed.

(** The later steps leave alone a block that is not in their list and whose
    array none of their blocks owns. *)
Lemma composeChainData_frame rest : forall h a,
  NoDup rest ->
  a ∉ rest ->
  (forall b l, b ∈ rest -> ownOf h a = Some l -> ownOf h b <> Some l) ->
  viewAt (InPlace.composeChainData rest cdeData h) a = viewAt h a.
Proof.
  induction rest as [|b rest IH]; intros h a Hnd Ha Hown; [reflexivity|].
  apply NoDup_cons in Hnd as [Hb Hnd].
  apply not_elem_of_cons in Ha as [Hab Ha].
  unfold InPlace.composeChainData. simpl.
  change (fold_left (composeOne cdeData) rest (composeOne cdeData h b))
    with (InPlace.composeChainData rest cdeData (composeOne cdeData h b)).
  rewrite IH; auto.
  - apply composeOne_other; [congruence|].
    intros l Hl. apply (Hown b l); [left|exact Hl].
  - intros b' l Hb' Hl. rewrite composeOne_ownOf in Hl by congruence.
    rewrite composeOne_ownOf by (intros ->; contradiction).
    apply (Hown b' l); [now right|exact Hl].
Qed.

(** The array a block refers to after its own step: still its own, or a
    record's. *)
Lemma composeOne_ownOf_self h a l :
  ownOf (composeOne cdeData h a) a = Some l ->
  ownOf h a = Some l \/ exists c, c ∈ cdeData /\ c_extensionDatums c = Some l.
Proof.
  unfold ownOf, composeOne.
  destruct (objects h !! a) as [o|] eqn:Ha; [|rewrite Ha; discriminate].
  destruct (List.find (matches o) cdeData) as [m|] eqn:Hm; [|rewrite Ha; auto].
  pose proof (find_matches_elem_of o m Hm) as Hin.
  destruct (o_extensionDatums o) as [own|] eqn:Ho,
           (c_extensionDatums m) as [more|] eqn:Hc; simpl;
    try (rewrite Ha, Ho; auto; fail).
  rewrite lookup_insert_eq. simpl. intros [= <-]. right. eauto.
Qed.

(** X1. On a heap where every block owns its array, what is read back after
    the in-place merge is [composeBlock] of what was there before, block by
    block: the value-level [composeChainData]. *)
Theorem composeChainData_in_place baseChainData : forall h,
  owned baseChainData cdeData h ->
  forall a, a ∈ baseChainData ->
    viewAt (InPlace.composeChainData baseChainData cdeData h) a
    = composeBlock (map (viewCde h) cdeData) <$> viewAt h a.
Proof.
  induction baseChainData as [|a0 rest IH]; intros h (Hnd & Hblocks & Hrecords) a Ha.
  { now apply elem_of_nil in Ha. }
  pose proof Hnd as Hnd0. apply NoDup_cons in Hnd0 as [Ha0 Hrest].
  unfold InPlace.composeChainData. simpl.
  change (fold_left (composeOne cdeData) rest (composeOne cdeData h a0))
    with (InPlace.composeChainData rest cdeData (composeOne cdeData h a0)).
  assert (Hrec0 : forall l c, ownOf h a0 = Some l -> c ∈ cdeData ->
                              c_extensionDatums c <> Some l).
  { intros l c Hl Hc. apply (Hrecords a0 l c); [left|exact Hl|exact Hc]. }
  destruct (decide (a = a0)) as [->|Hne].
  - rewrite composeChainData_frame; auto.
    + now apply composeOne_self.
    + intros b l Hb Hl. rewrite composeOne_ownOf by (intros ->; contradiction).
      apply composeOne_ownOf_self in Hl as [Hl|(c & Hc & Hl)].
      * apply (Hblocks a0 b l); [left|now right|intros ->; contradiction|exact Hl].
      * intros Hbl. apply (Hrecords b l c); [now right|exact Hbl|exact Hc|exact Hl].
  - apply elem_of_cons in Ha as [Ha|Ha]; [contradiction|].
    rewrite IH; auto.
    + rewrite composeOne_records by exact Hrec0. f_equal.
      apply composeOne_other; [congruence|].
      intros l Hl. apply (Hblocks a a0 l); [now right|left|exact Hne|exact Hl].
    + split; [exact Hrest|]. split.
      * intros b1 b2 l Hb1 Hb2 Hb12 Hl.
        rewrite composeOne_ownOf in Hl by (intros ->; contradiction).
        rewrite composeOne_ownOf by (intros ->; contradiction).
        apply (Hblocks b1 b2 l); [now right|now right|exact Hb12|exact Hl].
      * intros b l c Hb Hl Hc.
        rewrite composeOne_ownOf in Hl by (intros ->; contradiction).
        apply (Hrecords b l c); [now right|exact Hl|exact Hc].
Qed.

End InPlaceCompose.

(** ** Runs of the machine *)

Lemma logged_nil s : logged [] s = s.
Proof. destruct s; unfold logged; simpl. now rewrite app_nil_r. Qed.

Lemma logged_logged e1 e2 s : logged e2 (logged e1 s) = logged (e1 ++ e2) s.
Proof. unfold logged; simpl. now rewrite app_assoc. Qed.

Lemma emit_logged e s : emit e s = (Return tt, logged [e] s).
Proof. reflexivity. Qed.

Lemma stateOf_logged e s : stateOf (logged e s) = stateOf s.
Proof. reflexivity. Qed.

Lemma bind_Return {A B} (m : M A) (k : A -> M B) s a s' :
  m s = (Return a, s') -> bind m k s = k a s'.
Proof. unfold bind. now intros ->. Qed.

(** ** Submitted data of a block range *)

Section SubmittedData.

Variable w : World.
Variable lc net : string.

Lemma getSubmittedData_loop_run (count : nat) : forall curr data s,
  getSubmittedData_loop w count lc curr net data s
  = (Return (data ++ concat (map (blockRecords w lc net) (seqZ curr (Z.of_nat count)))),
     logged (map (HttpGet lc) (seqZ curr (Z.of_nat count))) s).
Proof.
  induction count as [|count IH]; intros curr data s.
  - simpl. now rewrite app_nil_r, logged_nil.
  - rewrite seqZ_cons by lia.
    replace (Z.pred (Z.of_nat (S count))) with (Z.of_nat count) by lia.
    replace (Z.succ curr) with (curr + 1) by lia.
    cbn [getSubmittedData_loop map concat].
    unfold fetch. unfold bind at 1. unfold bind at 1.
    rewrite emit_logged. cbn [ret].
    unfold blockRecords at 1. cbn zeta.
    destruct (negb (status (http_blockData w lc curr) =? 200)).
    + rewrite IH, logged_logged. reflexivity.
    + destruct (0 <? Z.of_nat (length (data_transactions (http_blockData w lc curr)))).
      * rewrite IH, logged_logged. unfold recordOf. now rewrite <- app_assoc.
      * rewrite IH, logged_logged. reflexivity.
Qed.

(** The run of [getSubmittedData]: it always returns. *)
Lemma getSubmittedData_run (from to : Z) (s : Machine) :
  getSubmittedData w lc from to net s
  = (Return (concat (map (blockRecords w lc net) (seqZ from (to + 1 - from)))),
     logged (map (HttpGet lc) (seqZ from (to + 1 - from))) s).
Proof.
  unfold getSubmittedData. rewrite getSubmittedData_loop_run. simpl.
  destruct (Z_le_gt_dec (to + 1 - from) 0) as [Hle|Hgt].
  - replace (Z.to_nat (to + 1 - from)) with 0%nat by lia.
    now rewrite (seqZ_nil from (to + 1 - from)) by lia.
  - now rewrite Z2Nat.id by lia.
Qed.

(** C8. Over the inclusive range, one request per block in ascending
    order, and the records are the per-block results in that order: none
    for an answer that is not 200 (and no error either), none for a 200
    answer without transactions, and one record, wrapping every
    transaction as a generic datum of the network, for a 200 answer with
    transactions. *)
Theorem getSubmittedData_records (from to : Z) (s : Machine) :
  exists perBlock : Z -> list CdeData,
    getSubmittedData w lc from to net s
    = (Return (concat (map perBlock (seqZ from (to + 1 - from)))),
       logged (map (HttpGet lc) (seqZ from (to + 1 - from))) s)
    /\ forall curr,
         let response := http_blockData w lc curr in
         (status response <> 200 -> perBlock curr = []) /\
         (status response = 200 -> data_transactions response = [] ->
            perBlock curr = []) /\
         (status response = 200 -> data_transactions response <> [] ->
            perBlock curr
            = [ {| cdeBlockNumber := Some (block_number response);
                   cdeExtensionDatums :=
                     Some (map (fun d => {| cdeName := "availDefaultExtension";
                                            datumBlockNumber := block_number response;
                                            transactionHash := "hash";
                                            payload := d;
                                            cdeDatumType := Generic;
                                            scheduledPrefix := "avail";
                                            datumNetwork := net |})
                               (data_transactions response)) |} ]).
Proof.
  exists (blockRecords w lc net). split.
  - apply getSubmittedData_run.
  - intros curr response. unfold blockRecords. fold response. repeat split.
    + intros Hst. apply Z.eqb_neq in Hst. now rewrite Hst.
    + intros Hst Hnil. apply Z.eqb_eq in Hst. rewrite Hst, Hnil. reflexivity.
    + intros Hst Hne. apply Z.eqb_eq in Hst. rewrite Hst. cbn [negb].
      assert ((0 <? Z.of_nat (length (data_transactions response))) = true) as ->.
      { destruct (data_transactions response); [congruence|reflexivity]. }
      reflexivity.
Qed.

End SubmittedData.

(** ** Time correlator *)

Section TimeCorrelator.

Variable w : World.

Lemma rpc_getBlockHash_run n s : rpc_getBlockHash n s = (Return n, logged [RpcGetBlockHash n] s).
Proof. reflexivity. Qed.

Lemma rpc_getHeader_run n s :
  rpc_getHeader w n s = (Return (rpc_header w n), logged [RpcGetHeader n] s).
Proof. reflexivity. Qed.

(** One probe of block [mid]. *)
Lemma probe_run {A} (mid : Z) (k : Z -> M A) s sl :
  getSlotFromHeader (rpc_header w mid) = Ok sl ->
  (blockHash <- rpc_getBlockHash mid ;;
   header <- rpc_getHeader w blockHash ;;
   slot <- liftResult (getSlotFromHeader header) ;;
   k slot) s
  = k sl (logged [RpcGetBlockHash mid; RpcGetHeader mid] s).
Proof.
  intros Hsl.
  rewrite (bind_Return _ _ _ _ _ (rpc_getBlockHash_run mid s)).
  rewrite (bind_Return _ _ _ _ _ (rpc_getHeader_run mid _)).
  rewrite Hsl. unfold liftResult, bind, ret. now rewrite logged_logged.
Qed.

Section Search.

Variable slotAt : Z -> Z.
Variable H : Z.
Variable targetTimestamp : Z.

Hypothesis slots : forall n, 1 <= n <= H -> getSlotFromHeader (rpc_header w n) = Ok (slotAt n).
Hypothesis nondecreasing : forall n m, 1 <= n <= m -> m <= H -> slotAt n <= slotAt m.

Lemma findBlockByTimestamp_loop_run (fuel : nat) : forall low high s,
  1 <= low <= high -> high <= H + 1 ->
  (Z.to_nat (high - low) <= fuel)%nat ->
  (forall n, 1 <= n < low -> slotAt n * 20 <= targetTimestamp) ->
  (forall n, high <= n <= H -> targetTimestamp < slotAt n * 20) ->
  exists r events,
    findBlockByTimestamp_loop w fuel targetTimestamp low high s
    = (Return r, logged events s) /\
    low <= r <= high /\
    (forall n, 1 <= n < r -> slotAt n * 20 <= targetTimestamp) /\
    (forall n, r <= n <= H -> targetTimestamp < slotAt n * 20).
Proof.
  induction fuel as [|fuel IH]; intros low high s Hlow Hhigh Hfuel Hbelow Habove.
  - assert (low = high) as -> by lia.
    exists high, []. simpl. rewrite Z.ltb_irrefl, logged_nil. repeat split; auto; lia.
  - cbn [findBlockByTimestamp_loop].
    destruct (low <? high) eqn:Hlt.
    + apply Z.ltb_lt in Hlt.
      assert (Hmid : low <= (low + high) / 2 < high).
      { split; [apply Z.div_le_lower_bound | apply Z.div_lt_upper_bound]; lia. }
      rewrite (probe_run _ _ _ (slotAt ((low + high) / 2))) by (apply slots; lia).
      destruct (slotAt ((low + high) / 2) * 20 <=? targetTimestamp) eqn:Hcmp.
      * apply Z.leb_le in Hcmp.
        destruct (IH ((low + high) / 2 + 1) high
                    (logged [RpcGetBlockHash ((low + high) / 2);
                             RpcGetHeader ((low + high) / 2)] s))
          as (r & events & Hrun & Hr & Hb & Ha); try lia; auto.
        { intros n Hn.
          assert (slotAt n <= slotAt ((low + high) / 2)) by (apply nondecreasing; lia).
          lia. }
        exists r, ([RpcGetBlockHash ((low + high) / 2);
                    RpcGetHeader ((low + high) / 2)] ++ events).
        rewrite Hrun, logged_logged. repeat split; auto; lia.
      * apply Z.leb_gt in Hcmp.
        destruct (IH low ((low + high) / 2)
                    (logged [RpcGetBlockHash ((low + high) / 2);
                             RpcGetHeader ((low + high) / 2)] s))
          as (r & events & Hrun & Hr & Hb & Ha); try lia; auto.
        { intros n Hn.
          assert (slotAt ((low + high) / 2) <= slotAt n) by (apply nondecreasing; lia).
          lia. }
        exists r, ([RpcGetBlockHash ((low + high) / 2);
                    RpcGetHeader ((low + high) / 2)] ++ events).
        rewrite Hrun, logged_logged. repeat split; auto; lia.
    + apply Z.ltb_ge in Hlt. assert (low = high) as -> by lia.
      exists high, []. unfold ret. rewrite logged_nil. repeat split; auto; lia.
Qed.

End Search.

(** C1. On a chain whose finalized headers 1..H carry non-decreasing
    slots, the search returns the smallest block number of the range whose
    logical time ([slot * 20]) is strictly after the target: every block
    below the result is at or before the target (so with ties it is the
    first block after them), the result and every block above it are after
    it, and when no finalized header is after the target the result is
    [H + 1]. *)
Theorem findBlockByTimestamp_first_after (slotAt : Z -> Z) (targetTimestamp : Z)
  (s : Machine) :
  0 <= finalizedHeight w s ->
  (forall n, 1 <= n <= finalizedHeight w s ->
     getSlotFromHeader (rpc_header w n) = Ok (slotAt n)) ->
  (forall n m, 1 <= n <= m -> m <= finalizedHeight w s -> slotAt n <= slotAt m) ->
  exists r s',
    findBlockByTimestamp w targetTimestamp s = (Return r, s') /\
    1 <= r <= finalizedHeight w s + 1 /\
    (forall n, 1 <= n < r -> slotAt n * 20 <= targetTimestamp) /\
    (forall n, r <= n <= finalizedHeight w s -> targetTimestamp < slotAt n * 20) /\
    ((forall n, 1 <= n <= finalizedHeight w s -> slotAt n * 20 <= targetTimestamp) ->
     r = finalizedHeight w s + 1).
Proof.
  intros HH Hslots Hmono.
  unfold findBlockByTimestamp. unfold bind at 1. unfold rpc_getFinalizedHead at 1.
  unfold bind at 1. rewrite rpc_getHeader_run.
  fold (finalizedHeight w s).
  match goal with
  | |- context [findBlockByTimestamp_loop w ?f ?t ?l ?h ?s0] =>
      destruct (findBlockByTimestamp_loop_run slotAt (finalizedHeight w s) t
                  Hslots Hmono f l h s0)
        as (r & events & Hrun & Hr & Hb & Ha); try lia
  end.
  exists r. eexists. split; [exact Hrun|].
  repeat split; auto; try lia.
  intros Hall. destruct (Z_le_gt_dec r (finalizedHeight w s)) as [Hle|Hgt]; [|lia].
  specialize (Ha r ltac:(lia)). specialize (Hall r ltac:(lia)). lia.
Qed.

End TimeCorrelator.

(** ** Presync *)

Section Presync.

Variable w : World.
Variable config : AvailConfig.
Variable chainName : string.

Lemma getState_run s st :
  stateOf s = Some st -> getState s = (Return st, s).
Proof.
  unfold stateOf, getState. destruct (cacheEntries s) as [[[st'|]]|]; try discriminate.
  now intros [= ->].
Qed.

Lemma getState_logged events s st :
  stateOf s = Some st -> getState (logged events s) = (Return st, logged events s).
Proof. intros Hst. apply getState_run. now rewrite stateOf_logged. Qed.

(** C7. For the entry of this network in a presync request: when its
    lower bound has reached [startingBlockHeight], the answer is the base
    funnel's with this network marked finished, and nothing is requested
    from the light client.  Below it, the blocks requested are exactly
    those of [max(from, 0) .. min(to, startingBlockHeight - 1)], in order,
    and (the range not being empty) the answer carries their records for
    this network, each tagged with the network name. *)
Theorem readPresyncData_clamped (args : list PresyncArg) (arg : PresyncArg)
  (s : Machine) (st : AvailFunnelCacheEntryState) :
  List.find (fun a => String.eqb (arg_network a) chainName) args = Some arg ->
  stateOf s = Some st ->
  let fromBlock := Z.max (arg_from arg) 0 in
  let toBlock := Z.min (arg_to arg) (startingBlockHeight st - 1) in
  (startingBlockHeight st <= arg_from arg ->
     readPresyncData w config chainName args s
     = (Return (<[chainName := FUNNEL_PRESYNC_FINISHED]> (base_presync w args)),
        logged [BaseReadPresyncData args] s)) /\
  (arg_from arg < startingBlockHeight st ->
     exists data,
       getSubmittedData w (lightClient config) fromBlock toBlock chainName
         (logged [BaseReadPresyncData args] s)
       = (Return data,
          logged (BaseReadPresyncData args
                    :: map (HttpGet (lightClient config))
                           (seqZ fromBlock (toBlock + 1 - fromBlock))) s) /\
       readPresyncData w config chainName args s
       = (Return
            (if decide (fromBlock <= toBlock) then
               <[chainName :=
                   PresyncBlocks
                     (map (fun d => {| presyncExtensionDatums := cdeExtensionDatums d;
                                       networkType := AVAIL;
                                       network := chainName;
                                       presyncBlockNumber := cdeBlockNumber d |})
                          data)]> (base_presync w args)
             else base_presync w args),
          logged (BaseReadPresyncData args
                    :: map (HttpGet (lightClient config))
                           (seqZ fromBlock (toBlock + 1 - fromBlock))) s)).
Proof.
  intros Hfind Hst fromBlock toBlock.
  assert (Hbase : base_readPresyncData w args s
                  = (Return (base_presync w args), logged [BaseReadPresyncData args] s))
    by reflexivity.
  split.
  - intros Hge. unfold readPresyncData.
    rewrite (bind_Return _ _ _ _ _ Hbase), Hfind.
    rewrite (bind_Return _ _ _ _ _ (getState_logged _ s st Hst)).
    assert ((arg_from arg >=? startingBlockHeight st) = true) as -> by lia.
    reflexivity.
  - intros Hlt.
    pose proof (getSubmittedData_run w (lightClient config) chainName
                  fromBlock toBlock (logged [BaseReadPresyncData args] s)) as Hdata.
    rewrite logged_logged in Hdata. simpl in Hdata.
    eexists. split; [exact Hdata|].
    unfold readPresyncData.
    rewrite (bind_Return _ _ _ _ _ Hbase), Hfind.
    rewrite (bind_Return _ _ _ _ _ (getState_logged _ s st Hst)).
    assert ((arg_from arg >=? startingBlockHeight st) = false) as -> by lia.
    fold fromBlock toBlock.
    destruct (decide (fromBlock <= toBlock)) as [Hle|Hgt].
    + assert ((fromBlock >? toBlock) = false) as -> by lia.
      rewrite (bind_Return _ _ _ _ _ Hdata). reflexivity.
    + assert ((fromBlock >? toBlock) = true) as -> by lia.
      rewrite (seqZ_nil fromBlock (toBlock + 1 - fromBlock)) by lia.
      reflexivity.
Qed.

End Presync.

(** ** What a run leaves alone *)

Section Frames.

Variable w : World.
Variable config : AvailConfig.
Variable chainName : string.

Lemma quiet_keeps {X A} (f : AvailFunnelCacheEntryState -> X) (m : M A) :
  quiet m -> keeps f m.
Proof. intros Hq s r s' Hrun. unfold stateOf. now rewrite (Hq s r s' Hrun). Qed.

Lemma quiet_ret {A} (a : A) : quiet (ret a).
Proof. intros s r s' [= _ <-]. reflexivity. Qed.

Lemma quiet_throw {A} e : quiet (@throw A e).
Proof. intros s r s' [= _ <-]. reflexivity. Qed.

Lemma quiet_outOfFuel {A} : quiet (@outOfFuel A).
Proof. intros s r s' [= _ <-]. reflexivity. Qed.

Lemma quiet_emit e : quiet (emit e).
Proof. intros s r s' [= _ <-]. reflexivity. Qed.

Lemma quiet_bind {A B} (m : M A) (k : A -> M B) :
  quiet m -> (forall a, quiet (k a)) -> quiet (bind m k).
Proof.
  intros Hm Hk s r s' Hrun. unfold bind in Hrun.
  destruct (m s) as [[a| |] s1] eqn:Hms.
  - rewrite (Hk a s1 r s' Hrun). exact (Hm s _ s1 Hms).
  - injection Hrun as _ <-. exact (Hm s _ s1 Hms).
  - injection Hrun as _ <-. exact (Hm s _ s1 Hms).
Qed.

Lemma quiet_liftResult {A} (r : Result A) : quiet (liftResult r).
Proof. destruct r; [apply quiet_ret|apply quiet_throw]. Qed.

Lemma quiet_getState : quiet getState.
Proof.
  intros s r s' Hrun. assert (s' = s) as ->; [|reflexivity].
  unfold getState in Hrun.
  destruct (cacheEntries s) as [[[st|]]|]; now injection Hrun.
Qed.

Lemma quiet_latestBlock : quiet latestBlock.
Proof.
  intros s r s' Hrun. assert (s' = s) as ->; [|reflexivity].
  unfold latestBlock in Hrun.
  destruct (cacheEntries s) as [[[[[b|] ? ? ? ? ? ?]|]]|]; now injection Hrun.
Qed.

Lemma quiet_rpc_getFinalizedHead : quiet (rpc_getFinalizedHead w).
Proof. intros s r s' [= _ <-]. reflexivity. Qed.

Ltac quiet_step :=
  first
    [ apply quiet_ret | apply quiet_throw | apply quiet_outOfFuel
    | apply quiet_emit | apply quiet_liftResult | apply quiet_getState
    | apply quiet_latestBlock | apply quiet_rpc_getFinalizedHead
    | apply quiet_bind; [|intros ?] ].

Lemma quiet_rpc_getBlockHash n : quiet (rpc_getBlockHash n).
Proof. unfold rpc_getBlockHash. repeat quiet_step. Qed.

Lemma quiet_rpc_getHeader n : quiet (rpc_getHeader w n).
Proof. unfold rpc_getHeader. repeat quiet_step. Qed.

Lemma quiet_web3_getBlock n : quiet (web3_getBlock w n).
Proof. unfold web3_getBlock. repeat quiet_step. Qed.

Lemma quiet_db net : quiet (getLatestProcessedCdeBlockheight w net).
Proof. unfold getLatestProcessedCdeBlockheight. repeat quiet_step. Qed.

Lemma quiet_base_readData h : quiet (base_readData w h).
Proof. unfold base_readData. repeat quiet_step. Qed.

Lemma quiet_getMultipleHeaderData_loop count : forall bn results,
  quiet (getMultipleHeaderData_loop w count bn results).
Proof.
  induction count as [|count IH]; intros bn results; simpl.
  - apply quiet_ret.
  - apply quiet_bind; [apply quiet_rpc_getBlockHash|intros ?].
    apply quiet_bind; [apply quiet_rpc_getHeader|intros ?].
    apply quiet_bind; [apply quiet_liftResult|intros ?]. apply IH.
Qed.

Lemma quiet_getMultipleHeaderData from to : quiet (getMultipleHeaderData w from to).
Proof. apply quiet_getMultipleHeaderData_loop. Qed.

Lemma quiet_getSubmittedData lc from to net : quiet (getSubmittedData w lc from to net).
Proof.
  intros s r s' Hrun.
  rewrite (getSubmittedData_run w lc net from to s) in Hrun. injection Hrun as _ <-. reflexivity.
Qed.

Lemma quiet_findBlockByTimestamp_loop fuel : forall target low high,
  quiet (findBlockByTimestamp_loop w fuel target low high).
Proof.
  induction fuel as [|fuel IH]; intros target low high; simpl.
  - destruct (low <? high); [apply quiet_outOfFuel|apply quiet_ret].
  - destruct (low <? high); [|apply quiet_ret].
    apply quiet_bind; [apply quiet_rpc_getBlockHash|intros ?].
    apply quiet_bind; [apply quiet_rpc_getHeader|intros ?].
    apply quiet_bind; [apply quiet_liftResult|intros sl].
    destruct (sl * 20 <=? target); apply IH.
Qed.

Lemma quiet_findBlockByTimestamp target : quiet (findBlockByTimestamp w target).
Proof.
  unfold findBlockByTimestamp.
  apply quiet_bind; [apply quiet_rpc_getFinalizedHead|intros ?].
  apply quiet_bind; [apply quiet_rpc_getHeader|intros ?].
  apply quiet_findBlockByTimestamp_loop.
Qed.

(** The search never answers below block 1. *)
Lemma findBlockByTimestamp_loop_lower fuel : forall target low high s r s',
  findBlockByTimestamp_loop w fuel target low high s = (Return r, s') -> low <= r.
Proof.
  induction fuel as [|fuel IH]; intros target low high s r s' Hrun; simpl in Hrun.
  - destruct (low <? high); [discriminate|]. injection Hrun as -> _. lia.
  - destruct (low <? high) eqn:Hlt; [|injection Hrun as -> _; lia].
    apply Z.ltb_lt in Hlt.
    unfold bind, rpc_getBlockHash, rpc_getHeader, emit, ret in Hrun. simpl in Hrun.
    destruct (getSlotFromHeader (rpc_header w ((low + high) / 2))) as [sl|e];
      simpl in Hrun; [|discriminate].
    assert (low <= (low + high) / 2) by (apply Z.div_le_lower_bound; lia).
    destruct (sl * 20 <=? target); apply IH in Hrun; lia.
Qed.

Lemma findBlockByTimestamp_lower target s r s' :
  findBlockByTimestamp w target s = (Return r, s') -> 1 <= r.
Proof.
  unfold findBlockByTimestamp, bind, rpc_getFinalizedHead, rpc_getHeader, emit, ret.
  simpl. apply findBlockByTimestamp_loop_lower.
Qed.

(** *** Components of the state *)

Lemma keeps_bind {X A B} (f : AvailFunnelCacheEntryState -> X) (m : M A) (k : A -> M B) :
  keeps f m -> (forall a, keeps f (k a)) -> keeps f (bind m k).
Proof.
  intros Hm Hk s r s' Hrun. unfold bind in Hrun.
  destruct (m s) as [[a| |] s1] eqn:Hms.
  - rewrite (Hk a s1 r s' Hrun). exact (Hm s _ s1 Hms).
  - injection Hrun as _ <-. exact (Hm s _ s1 Hms).
  - injection Hrun as _ <-. exact (Hm s _ s1 Hms).
Qed.

Lemma keeps_modifyState {X} (f : AvailFunnelCacheEntryState -> X) g :
  (forall st, f (g st) = f st) -> keeps f (modifyState g).
Proof.
  intros Hg s r s' Hrun. unfold modifyState in Hrun.
  unfold stateOf.
  destruct (cacheEntries s) as [[[st|]]|] eqn:Hc; injection Hrun as _ <-; simpl;
    rewrite ?Hc; simpl; try reflexivity.
  now rewrite Hg.
Qed.

Section Keeps.

Context {X : Type} (f : AvailFunnelCacheEntryState -> X).

Hypothesis f_latestBlock : forall b st, f (set_latestBlock b st) = f st.

Lemma keeps_updateLatestBlock : keeps f (updateLatestBlock w config).
Proof.
  unfold updateLatestBlock.
  apply keeps_bind; [apply quiet_keeps, quiet_getState|intros ?].
  apply keeps_bind; [apply quiet_keeps, quiet_rpc_getFinalizedHead|intros ?].
  apply keeps_bind; [apply quiet_keeps, quiet_rpc_getHeader|intros ?].
  apply keeps_bind; [apply quiet_keeps, quiet_rpc_getBlockHash|intros ?].
  apply keeps_bind; [apply quiet_keeps, quiet_rpc_getHeader|intros ?].
  apply keeps_bind; [apply quiet_keeps, quiet_liftResult|intros ?].
  apply keeps_bind; [apply keeps_modifyState; intros; apply f_latestBlock|intros ?].
  apply quiet_keeps, quiet_ret.
Qed.

Lemma keeps_waitForBlocks fuel : forall n, keeps f (waitForBlocks w config fuel n).
Proof.
  induction fuel as [|fuel IH]; intros n; simpl.
  - apply quiet_keeps, quiet_outOfFuel.
  - apply keeps_bind; [apply keeps_updateLatestBlock|intros d].
    destruct (d =? n); [|apply quiet_keeps, quiet_ret].
    apply keeps_bind; [apply quiet_keeps, quiet_emit|intros ?]. apply IH.
Qed.

Hypothesis f_lastBlock : forall n st, f (set_lastBlock n st) = f st.

Lemma keeps_resolveLastBlock first : keeps f (resolveLastBlock w config chainName first).
Proof.
  unfold resolveLastBlock.
  apply keeps_bind; [apply quiet_keeps, quiet_getState|intros st].
  destruct (lastBlockUnset st); [|apply quiet_keeps, quiet_ret].
  apply keeps_bind; [apply quiet_keeps, quiet_db|intros [p|]].
  - apply keeps_modifyState; auto.
  - apply keeps_bind; [apply quiet_keeps, quiet_web3_getBlock|intros ?].
    apply keeps_bind; [apply quiet_keeps, quiet_findBlockByTimestamp|intros ?].
    apply keeps_modifyState; auto.
Qed.

Lemma keeps_fetchHeaders fuel : forall maxSlot headers,
  keeps f (fetchHeaders w config fuel maxSlot headers).
Proof.
  induction fuel as [|fuel IH]; intros maxSlot headers.
  - apply quiet_keeps, quiet_outOfFuel.
  - cbn [fetchHeaders].
    apply keeps_bind; [apply quiet_keeps, quiet_latestBlock|intros latest].
    apply keeps_bind; [apply quiet_keeps, quiet_getState|intros st].
    apply keeps_bind; [apply quiet_keeps, quiet_getMultipleHeaderData|intros hs].
    apply keeps_bind.
    { destruct (last (headers ++ hs)); [apply keeps_modifyState; auto|].
      apply quiet_keeps, quiet_ret. }
    intros _.
    destruct (reachesMaxSlot maxSlot (headers ++ hs)); [apply quiet_keeps, quiet_ret|].
    destruct (negb _); [apply IH|].
    apply keeps_bind; [apply keeps_waitForBlocks|intros _]. apply IH.
Qed.

Hypothesis f_index : forall l st, f (set_timestampToBlockNumber l st) = f st.
Hypothesis f_lastMaxSlot : forall q st, f (set_lastMaxSlot q st) = f st.

Lemma keeps_correlate fuel chainData first final :
  keeps f (correlate w config chainName fuel chainData first final).
Proof.
  unfold correlate.
  apply keeps_bind; [apply keeps_resolveLastBlock|intros _].
  apply keeps_bind; [apply keeps_fetchHeaders|intros headers].
  apply keeps_bind.
  { apply keeps_modifyState. intros st. unfold pushHeaders.
    now rewrite f_latestBlock, f_index. }
  intros _.
  apply keeps_bind; [apply quiet_keeps, quiet_getState|intros st].
  apply keeps_bind; [apply keeps_modifyState; auto|intros _].
  destruct (trimConsumed _ _) as [|[firstTs fromBlock] rest];
    [apply quiet_keeps, quiet_ret|].
  apply keeps_bind; [apply keeps_modifyState; auto|intros _].
  destruct (negb (Qle_bool _ _)); [apply quiet_keeps, quiet_ret|].
  match goal with |- context [if ?c then _ else _] => destruct c end;
    [apply quiet_keeps, quiet_ret|].
  apply keeps_bind; [apply quiet_keeps, quiet_getSubmittedData|intros ?].
  apply quiet_keeps, quiet_ret.
Qed.

End Keeps.

End Frames.

(** ** Bootstrap and the resume cursor *)

Section Bootstrap.

Variable w : World.
Variable config : AvailConfig.
Variable chainName : string.

Lemma stateOf_Some s st :
  stateOf s = Some st -> cacheEntries s = Some {| entry_state := Some st |}.
Proof.
  unfold stateOf. destruct (cacheEntries s) as [[o]|]; simpl; [|discriminate].
  now intros ->.
Qed.

Lemma modifyState_run g s st :
  stateOf s = Some st ->
  exists s', modifyState g s = (Return tt, s') /\
             stateOf s' = Some (g st) /\ polls s' = polls s /\ trace s' = trace s.
Proof.
  intros Hst. apply stateOf_Some in Hst. unfold modifyState. rewrite Hst.
  eexists. repeat split.
Qed.

(** C10. Once the correlation state exists, a further [recoverState]
    reuses it: the only requests are those of the one head refresh (no
    primary block is fetched, no client is created, the secondary chain is
    not searched), and the state keeps its starting height, cursor,
    buffer, index, slot boundary and client; only the latest head is
    refreshed. *)
Theorem recoverState_reuses_state (startingBlockHeight' : Z) (s : Machine)
  (st : AvailFunnelCacheEntryState) :
  stateOf s = Some st ->
  let head := rpc_finalized w (polls s) in
  let delayedBlock :=
    Z.max (hdr_number (rpc_header w head) - default 0 (confirmationDepth config)) 1 in
  exists r s' st',
    recoverState w config startingBlockHeight' s = (r, s') /\
    trace s' = trace s ++ [RpcGetFinalizedHead; RpcGetHeader head;
                           RpcGetBlockHash delayedBlock; RpcGetHeader delayedBlock] /\
    stateOf s' = Some st' /\
    startingBlockHeight st' = startingBlockHeight st /\
    lastBlock st' = lastBlock st /\
    bufferedChainData st' = bufferedChainData st /\
    timestampToBlockNumber st' = timestampToBlockNumber st /\
    lastMaxSlot st' = lastMaxSlot st /\
    api st' = api st.
Proof.
  intros Hst head delayedBlock. apply stateOf_Some in Hst.
  destruct s as [c p t]. simpl in Hst. subst c. cbn [polls] in head.
  unfold recoverState, updateLatestBlock, getOrCreateEntry, getState, bind,
    rpc_getFinalizedHead, rpc_getHeader, rpc_getBlockHash, emit, ret, modifyState,
    stateOf.
  simpl. fold head. fold delayedBlock.
  destruct (getSlotFromHeader (rpc_header w delayedBlock)) as [sl|e]; simpl.
  - do 3 eexists. split; [reflexivity|]. simpl. rewrite <- !app_assoc. simpl.
    repeat split.
  - do 3 eexists. split; [reflexivity|]. simpl. rewrite <- !app_assoc. simpl.
    repeat split.
Qed.

(** The first call bootstraps: from an empty cache, a [recoverState] that
    returns leaves a state whose starting height is a block number of the
    secondary chain found by the search, with no cursor, an empty buffer
    and an empty index. *)
Lemma recoverState_bootstraps (startingBlockHeight' : Z) (s s' : Machine) :
  cacheEntries s = None ->
  recoverState w config startingBlockHeight' s = (Return tt, s') ->
  exists st, stateOf s' = Some st /\
             1 <= startingBlockHeight st /\
             lastBlock st = None /\
             bufferedChainData st = [] /\
             timestampToBlockNumber st = [].
Proof.
  intros Hc Hrun. unfold recoverState in Hrun.
  unfold bind at 1 in Hrun. unfold getOrCreateEntry in Hrun. rewrite Hc in Hrun.
  cbn [initialized newEntry entry_state negb] in Hrun.
  unfold bind at 1 in Hrun. unfold bind at 1 in Hrun.
  unfold web3_getBlock at 1, bind at 1, emit, ret in Hrun. cbn beta iota in Hrun.
  unfold bind at 1 in Hrun.
  unfold createApi at 1, bind at 1, emit, ret in Hrun. cbn beta iota in Hrun.
  unfold bind at 1 in Hrun.
  match type of Hrun with
  | context [findBlockByTimestamp w ?t ?s0] =>
      destruct (findBlockByTimestamp w t s0) as [[mapped| |] s1] eqn:Hfind;
        try discriminate
  end.
  apply findBlockByTimestamp_lower in Hfind.
  unfold setEntry at 1 in Hrun. cbn beta iota in Hrun.
  unfold bind at 1 in Hrun.
  match type of Hrun with
  | context [updateLatestBlock w config ?s0] =>
      destruct (updateLatestBlock w config s0) as [[d| |] s2] eqn:Hupd;
        try discriminate;
      pose proof (fun X (f : _ -> X) H =>
                    keeps_updateLatestBlock w config f H _ _ _ Hupd) as Hkeep
  end.
  injection Hrun as <-.
  pose proof (Hkeep _ (fun st => st) ) as Hall.
  cbn in Hkeep.
  pose proof (Hkeep _ startingBlockHeight (fun _ _ => eq_refl)) as H1.
  pose proof (Hkeep _ lastBlock (fun _ _ => eq_refl)) as H2.
  pose proof (Hkeep _ bufferedChainData (fun _ _ => eq_refl)) as H3.
  pose proof (Hkeep _ timestampToBlockNumber (fun _ _ => eq_refl)) as H4.
  unfold stateOf in *. simpl in *.
  destruct (cacheEntries s2) as [[[st|]]|]; simpl in *; try discriminate.
  exists st. injection H1 as ->. injection H2 as ->. injection H3 as ->.
  injection H4 as ->. repeat split; auto.
Qed.

End Bootstrap.

Section Cursor.

Variable w : World.
Variable config : AvailConfig.
Variable chainName : string.

(** C3, as the code has it. When the cursor is unset (or zero) at the
    first batch: with a persisted height on record the cursor becomes the
    larger of that height and [startingBlockHeight - 1], hence the persisted
    height itself when it is at least [startingBlockHeight - 1]; with none
    on record the secondary chain is searched for the delayed timestamp of
    the primary block before the first block of the batch, and the cursor
    becomes the block before the one found. *)
Theorem resolveLastBlock_cursor (first : ChainData) (s : Machine)
  (st : AvailFunnelCacheEntryState) :
  stateOf s = Some st ->
  lastBlockUnset st = true ->
  (forall persisted,
     db_latestProcessedCde w chainName = Some persisted ->
     exists s',
       resolveLastBlock w config chainName first s = (Return tt, s') /\
       lastBlock <$> stateOf s'
       = Some (Some (Z.max persisted (startingBlockHeight st - 1))) /\
       (startingBlockHeight st - 1 <= persisted ->
        lastBlock <$> stateOf s' = Some (Some persisted))) /\
  (db_latestProcessedCde w chainName = None ->
   forall earliest s1,
     findBlockByTimestamp w
       (applyDelay config (web3_timestamp w (blockNumber first - 1)))
       (logged [DbLatestProcessedCde chainName; Web3GetBlock (blockNumber first - 1)] s)
     = (Return earliest, s1) ->
     exists s',
       resolveLastBlock w config chainName first s = (Return tt, s') /\
       lastBlock <$> stateOf s' = Some (Some (earliest - 1))).
Proof.
  intros Hst Hunset. split.
  - intros persisted Hdb. unfold resolveLastBlock.
    rewrite (bind_Return _ _ _ _ _ (getState_run s st Hst)), Hunset.
    unfold getLatestProcessedCdeBlockheight.
    unfold bind at 1. unfold bind at 1. rewrite emit_logged. cbn [ret]. rewrite Hdb.
    destruct (modifyState_run
                (set_lastBlock (Z.max persisted (startingBlockHeight st - 1)))
                (logged [DbLatestProcessedCde chainName] s) st)
      as (s' & Hrun & Hst' & _); [now rewrite stateOf_logged|].
    exists s'. split; [exact Hrun|]. rewrite Hst'. simpl. split; [reflexivity|].
    intros Hle. now rewrite Z.max_l by lia.
  - intros Hdb earliest s1 Hfind. unfold resolveLastBlock.
    rewrite (bind_Return _ _ _ _ _ (getState_run s st Hst)), Hunset.
    unfold getLatestProcessedCdeBlockheight.
    unfold bind at 1. unfold bind at 1. rewrite emit_logged. cbn [ret]. rewrite Hdb.
    unfold web3_getBlock.
    unfold bind at 1. unfold bind at 1. rewrite emit_logged. cbn [ret].
    rewrite logged_logged. cbn [app].
    rewrite (bind_Return _ _ _ _ _ Hfind).
    assert (Hst1 : stateOf s1 = Some st).
    { unfold stateOf. rewrite (quiet_findBlockByTimestamp w _ _ _ _ Hfind). exact Hst. }
    destruct (modifyState_run (set_lastBlock (earliest - 1)) s1 st Hst1)
      as (s' & Hrun & Hst' & _).
    exists s'. split; [exact Hrun|]. now rewrite Hst'.
Qed.

(** A cursor that is set (and not zero) is left as it is. *)
Lemma resolveLastBlock_set (first : ChainData) (s : Machine)
  (st : AvailFunnelCacheEntryState) :
  stateOf s = Some st ->
  lastBlockUnset st = false ->
  resolveLastBlock w config chainName first s = (Return tt, s).
Proof.
  intros Hst Hset. unfold resolveLastBlock.
  now rewrite (bind_Return _ _ _ _ _ (getState_run s st Hst)), Hset.
Qed.

End Cursor.

(** C3, as the specification words it, fails. The process bootstraps at
    primary block 5 (time 100), which maps to secondary block 6. Nothing is
    persisted. The first batch starts at primary block 21; the block
    before it has time 400, the first secondary block after that is 21, and
    the cursor becomes 20: neither the bootstrap value 6 nor the block
    before it. The [readData] call accordingly fetches headers from block
    21 on. *)
Lemma resolveLastBlock_not_bootstrap_value :
  let world := sampleWorld (fun _ => [sampleBlock 21 420 None]) (fun _ => 30) None in
  exists s1 st1 s2 st2 batch s3 st3,
    recoverState world sampleConfig 5 processStart = (Return tt, s1) /\
    stateOf s1 = Some st1 /\
    startingBlockHeight st1 = 6 /\
    lastBlock st1 = None /\
    db_latestProcessedCde world "avail" = None /\
    resolveLastBlock world sampleConfig "avail" (sampleBlock 21 420 None) s1
    = (Return tt, s2) /\
    stateOf s2 = Some st2 /\
    lastBlock st2 = Some 20 /\
    lastBlock st2
    <> Some (specCursor (db_latestProcessedCde world "avail")
               (startingBlockHeight st1) (startingBlockHeight st1)) /\
    lastBlock st2
    <> Some (specCursor (db_latestProcessedCde world "avail")
               (startingBlockHeight st1) (startingBlockHeight st1) - 1) /\
    readData world sampleConfig "avail" 5 21 s1 = (Return batch, s3) /\
    stateOf s3 = Some st3 /\
    head (timestampToBlockNumber st3) = Some (420, 21).
Proof.
  intros world. do 7 eexists.
  split; [vm_compute; reflexivity|].
  split; [reflexivity|].
  split; [reflexivity|].
  split; [reflexivity|].
  split; [reflexivity|].
  split; [vm_compute; reflexivity|].
  split; [reflexivity|].
  split; [reflexivity|].
  split; [vm_compute; discriminate|].
  split; [vm_compute; discriminate|].
  split; [vm_compute; reflexivity|].
  split; reflexivity.
Qed.

Lemma resolveLastBlock_cursor_witness :
  let world := sampleWorld (fun _ => []) (fun _ => 30) (Some 9) in
  exists s2,
    resolveLastBlock world sampleConfig "avail" (sampleBlock 21 420 None)
      (bootstrapped world) = (Return tt, s2) /\
    lastBlock <$> stateOf s2 = Some (Some 9).
Proof.
  intros world.
  eassert (Hst : stateOf (bootstrapped world) = Some _) by (vm_compute; reflexivity).
  destruct (resolveLastBlock_cursor world sampleConfig "avail"
              (sampleBlock 21 420 None) (bootstrapped world) _ Hst eq_refl)
    as [Hpersisted _].
  destruct (Hpersisted 9 eq_refl) as (s2 & Hrun & _ & Hcursor).
  exists s2. split; [exact Hrun|]. apply Hcursor. vm_compute. discriminate.
Defined.

(** ** Back-pressure in [readData] *)

Section BackPressure.

Variable w : World.
Variable config : AvailConfig.
Variable chainName : string.

Lemma modifyState_withState g s st :
  stateOf s = Some st -> modifyState g s = (Return tt, withState (g st) s).
Proof.
  intros Hst. apply stateOf_Some in Hst. unfold modifyState. now rewrite Hst.
Qed.

Lemma stateOf_withState st s : stateOf (withState st s) = Some st.
Proof. reflexivity. Qed.

Lemma latestBlock_run s st b :
  stateOf s = Some st -> latestBlock_ st = Some b -> latestBlock s = (Return b, s).
Proof.
  intros Hst Hb. apply stateOf_Some in Hst. unfold latestBlock. rewrite Hst.
  destruct st; simpl in *. now subst.
Qed.


Lemma refreshedHead_same_polls s s' :
  polls s' = polls s -> refreshedHead w config s' = refreshedHead w config s.
Proof. unfold refreshedHead. now intros ->. Qed.

Lemma set_bufferedChainData_id st :
  set_bufferedChainData (bufferedChainData st) st = st.
Proof. now destruct st. Qed.

(** The first step of [readData]: an empty buffer is filled from the base
    funnel. *)
Lemma fillBuffer_run blockHeight s st :
  stateOf s = Some st ->
  exists s1,
    (match bufferedChainData st with
     | [] =>
         baseData <- base_readData w blockHeight ;;
         modifyState (fun st0 =>
           set_bufferedChainData (bufferedChainData st0 ++ baseData) st0)
     | _ :: _ => ret tt
     end) s = (Return tt, s1) /\
    stateOf s1 = Some (set_bufferedChainData (pendingBlocks w blockHeight st) st) /\
    polls s1 = polls s.
Proof.
  intros Hst. unfold pendingBlocks.
  destruct (bufferedChainData st) as [|x l] eqn:Hbuf.
  - unfold base_readData. unfold bind at 1. unfold bind at 1.
    rewrite emit_logged. cbn [ret].
    erewrite modifyState_withState by (rewrite stateOf_logged; exact Hst).
    eexists. split; [reflexivity|]. rewrite Hbuf. simpl. split; reflexivity.
  - exists s. split; [reflexivity|]. rewrite <- Hbuf, set_bufferedChainData_id.
    split; [exact Hst|reflexivity].
Qed.


Lemma updateLatestBlock_throws s st e :
  stateOf s = Some st ->
  refreshedHead w config s = Err e ->
  exists s', updateLatestBlock w config s = (Throw e, s').
Proof.
  intros Hst Hhead. apply stateOf_Some in Hst.
  destruct s as [c p t]. simpl in Hst. subst c.
  unfold refreshedHead in Hhead. simpl in Hhead.
  unfold updateLatestBlock, getState, bind, rpc_getFinalizedHead, rpc_getHeader,
    rpc_getBlockHash, emit, ret, modifyState.
  simpl.
  destruct (getSlotFromHeader _) as [sl|e']; [discriminate|].
  injection Hhead as <-. simpl. eexists. reflexivity.
Qed.

(** A finalized head without a pre-runtime digest aborts the poll: the
    error of [getSlotFromHeader] leaves [readData] uncaught. *)
Lemma readData_aborts_on_malformed_head fuel blockHeight s st :
  stateOf s = Some st ->
  refreshedHead w config s = Err MalformedHeaderError ->
  exists s',
    readData w config chainName fuel blockHeight s = (Throw MalformedHeaderError, s').
Proof.
  intros Hst Hhead.
  destruct (fillBuffer_run blockHeight s st Hst) as (s1 & Hpush & Hst1 & Hpolls1).
  destruct (updateLatestBlock_throws s1 _ MalformedHeaderError Hst1) as (s2 & Hupd).
  { now rewrite (refreshedHead_same_polls s s1). }
  exists s2. unfold readData.
  rewrite (bind_Return _ _ _ _ _ (getState_run s st Hst)).
  rewrite (bind_Return _ _ _ _ _ Hpush).
  unfold bind at 1. now rewrite Hupd.
Qed.

Lemma returns_bind {A B} (m : M A) (k : A -> M B) (P : B -> Prop) :
  (forall a, returns (k a) P) -> returns (bind m k) P.
Proof.
  intros Hk s r s' Hrun. unfold bind in Hrun.
  destruct (m s) as [[a| |] s1]; try discriminate. exact (Hk a s1 r s' Hrun).
Qed.

Lemma returns_ret {A} (a : A) (P : A -> Prop) : P a -> returns (ret a) P.
Proof. intros Ha s r s' [= <- _]. exact Ha. Qed.

Lemma sameBlock_refl b : sameBlock b b.
Proof. repeat split. Qed.

Lemma sameBlock_composeBlock cdeData b : sameBlock (composeBlock cdeData b) b.
Proof.
  unfold composeBlock. destruct (List.find _ cdeData) as [r|]; [|apply sameBlock_refl].
  unfold mergeBlock.
  destruct (extensionDatums b), (cdeExtensionDatums r); repeat split.
Qed.

Lemma sameBlock_composeChainData chainData cdeData :
  Forall2 sameBlock (composeChainData chainData cdeData) chainData.
Proof.
  unfold composeChainData. induction chainData as [|b l IH]; simpl; constructor.
  - apply sameBlock_composeBlock.
  - exact IH.
Qed.

(** What [correlate] returns is the batch it was given, with extension
    datums added at most. *)
Lemma correlate_returns fuel chainData first final :
  returns (correlate w config chainName fuel chainData first final)
          (fun batch => Forall2 sameBlock batch chainData).
Proof.
  assert (Hsame : Forall2 sameBlock chainData chainData).
  { induction chainData; constructor; auto using sameBlock_refl. }
  unfold correlate.
  apply returns_bind; intros _.
  apply returns_bind; intros headers.
  apply returns_bind; intros _.
  apply returns_bind; intros st.
  apply returns_bind; intros _.
  destruct (trimConsumed _ _) as [|[firstTs fromBlock] rest];
    [now apply returns_ret|].
  apply returns_bind; intros _.
  destruct (negb (Qle_bool _ _)); [now apply returns_ret|].
  match goal with |- context [if ?c then _ else _] => destruct c end;
    [now apply returns_ret|].
  apply returns_bind; intros availData.
  apply returns_ret, sameBlock_composeChainData.
Qed.




End BackPressure.



(** ** The index stays sorted *)

Lemma bind_inv {A B} (m : M A) (k : A -> M B) s r s' :
  bind m k s = (r, s') ->
  (exists a s1, m s = (Return a, s1) /\ k a s1 = (r, s')) \/
  (exists e, m s = (Throw e, s') /\ r = Throw e) \/
  (m s = (OutOfFuel, s') /\ r = OutOfFuel).
Proof.
  unfold bind. destruct (m s) as [[a| |] s1]; intros Hrun.
  - left. eauto.
  - right. left. injection Hrun as <- <-. eauto.
  - right. right. injection Hrun as <- <-. eauto.
Qed.

Section Index.

Variable w : World.
Variable config : AvailConfig.
Variable chainName : string.

Hypothesis numbered : forall n, hdr_number (rpc_header w n) = n.
Hypothesis nondecreasing : forall n m sn sm,
  1 <= n <= m ->
  getSlotFromHeader (rpc_header w n) = Ok sn ->
  getSlotFromHeader (rpc_header w m) = Ok sm ->
  sn <= sm.

Lemma indexInv_fields st st' :
  indexFields st' = indexFields st -> indexInv w st -> indexInv w st'.
Proof.
  unfold indexFields, indexInv, cursor. intros [= -> -> -> _]. auto.
Qed.

Lemma indexEntryOk_mono upTo upTo' e :
  upTo <= upTo' -> indexEntryOk w upTo e -> indexEntryOk w upTo' e.
Proof. intros Hle [Hn Hsl]. split; [lia|exact Hsl]. Qed.

Lemma consecutive_nil c : consecutive w c [].
Proof. split; [reflexivity|constructor]. Qed.

Lemma consecutive_snoc c headers h :
  consecutive w c headers ->
  number h = c + 1 + Z.of_nat (length headers) ->
  getSlotFromHeader (rpc_header w (number h)) = Ok (slot h) ->
  consecutive w c (headers ++ [h]).
Proof.
  intros [Hnum Hslot] Hh Hsl. split.
  - rewrite map_app, length_app, Hnum. simpl.
    replace (Z.of_nat (length headers + 1)) with (Z.of_nat (S (length headers))) by lia.
    rewrite seqZ_S. now rewrite Hh.
  - apply Forall_app. split; [exact Hslot|]. now constructor.
Qed.

Lemma getMultipleHeaderData_loop_consecutive count : forall c bn results s r s',
  consecutive w c results ->
  bn = c + 1 + Z.of_nat (length results) ->
  getMultipleHeaderData_loop w count bn results s = (r, s') ->
  match r with
  | Return headers =>
      consecutive w c headers /\ length headers = (length results + count)%nat
  | _ => True
  end.
Proof.
  induction count as [|count IH]; intros c bn results s r s' Hcons Hbn Hrun.
  - simpl in Hrun. injection Hrun as <- _. split; [exact Hcons|lia].
  - cbn [getMultipleHeaderData_loop] in Hrun.
    rewrite (bind_Return _ _ _ _ _ (rpc_getBlockHash_run bn s)) in Hrun.
    rewrite (bind_Return _ _ _ _ _ (rpc_getHeader_run w bn _)) in Hrun.
    destruct (getSlotFromHeader (rpc_header w bn)) as [sl|e] eqn:Hsl.
    + unfold liftResult in Hrun. unfold bind at 1, ret at 1 in Hrun.
      apply IH with (c := c) in Hrun.
      * destruct r; auto. destruct Hrun as [Hc Hlen]. split; [exact Hc|].
        rewrite length_app in Hlen. simpl in Hlen. lia.
      * apply consecutive_snoc; auto; simpl; rewrite numbered; auto.
      * rewrite length_app. simpl. lia.
    + unfold liftResult, bind, throw in Hrun. injection Hrun as <- _. exact I.
Qed.

Lemma getMultipleHeaderData_consecutive c to s r s' :
  getMultipleHeaderData w (c + 1) to s = (r, s') ->
  match r with
  | Return headers =>
      consecutive w c headers /\ length headers = Z.to_nat (to - (c + 1))
  | _ => True
  end.
Proof.
  intros Hrun. unfold getMultipleHeaderData in Hrun.
  apply getMultipleHeaderData_loop_consecutive with (c := c) in Hrun.
  - destruct r; auto.
  - apply consecutive_nil.
  - simpl. lia.
Qed.

Lemma consecutive_app c headers more :
  consecutive w c headers ->
  consecutive w (c + Z.of_nat (length headers)) more ->
  consecutive w c (headers ++ more).
Proof.
  intros [Hnum Hslot] [Hnum' Hslot']. split.
  - rewrite map_app, length_app, Hnum, Hnum', Nat2Z.inj_add.
    rewrite (seqZ_app (c + 1)) by lia. f_equal. f_equal. lia.
  - apply Forall_app. auto.
Qed.

Lemma consecutive_last c headers h :
  consecutive w c headers -> last headers = Some h ->
  number h = c + Z.of_nat (length headers).
Proof.
  intros [Hnum _] Hlast. apply last_Some in Hlast as [l' ->].
  rewrite map_app, length_app in Hnum. simpl in Hnum.
  replace (Z.of_nat (length l' + 1)) with (Z.of_nat (S (length l'))) in Hnum by lia.
  rewrite seqZ_S in Hnum. apply app_inj_tail in Hnum as [_ ->].
  rewrite length_app. simpl. lia.
Qed.

Lemma kept_state {X} (f : AvailFunnelCacheEntryState -> X) s s' st :
  f <$> stateOf s' = f <$> stateOf s ->
  stateOf s = Some st ->
  exists st', stateOf s' = Some st' /\ f st' = f st.
Proof.
  intros Hkeep Hst. rewrite Hst in Hkeep. simpl in Hkeep.
  destruct (stateOf s') as [st'|]; [|discriminate].
  exists st'. split; [reflexivity|]. now injection Hkeep.
Qed.

Lemma quiet_state {A} (m : M A) s r s' st :
  quiet m -> m s = (r, s') -> stateOf s = Some st -> stateOf s' = Some st.
Proof. intros Hq Hrun Hst. unfold stateOf. now rewrite (Hq s r s' Hrun). Qed.

(** The header loop moves the cursor over the consecutive blocks it
    fetches, and touches nothing else of the index. *)
Lemma fetchHeaders_cursor fuel : forall maxSlot headers s r s' st c,
  stateOf s = Some st ->
  lastBlock st = Some (c + Z.of_nat (length headers)) ->
  consecutive w c headers ->
  fetchHeaders w config fuel maxSlot headers s = (r, s') ->
  exists st' headers',
    stateOf s' = Some st' /\
    restFields st' = restFields st /\
    lastBlock st' = Some (c + Z.of_nat (length headers')) /\
    consecutive w c headers' /\
    match r with Return result => result = headers' | _ => True end.
Proof.
  induction fuel as [|fuel IH]; intros maxSlot headers s r s' st c Hst Hlast Hcons Hrun.
  { injection Hrun as <- <-. exists st, headers. auto. }
  cbn [fetchHeaders] in Hrun.
  apply bind_inv in Hrun as [(latest & s1 & Hlatest & Hrun)|[(e & Hlatest & ->)|[Hlatest ->]]];
    try (exists st, headers;
         split; [exact (quiet_state _ _ _ _ _ quiet_latestBlock Hlatest Hst)|];
         split; [reflexivity|]; split; [exact Hlast|]; split; [exact Hcons|exact I]).
  pose proof (quiet_state _ _ _ _ _ quiet_latestBlock Hlatest Hst) as Hst1.
  rewrite (bind_Return _ _ _ _ _ (getState_run s1 st Hst1)) in Hrun.
  assert (Hcursor : cursor st = c + Z.of_nat (length headers))
    by (unfold cursor; now rewrite Hlast).
  rewrite Hcursor in Hrun.
  apply bind_inv in Hrun as [(avail & s2 & Havail & Hrun)|[(e & Havail & ->)|[Havail ->]]];
    try (exists st, headers;
         split; [exact (quiet_state _ _ _ _ _ (quiet_getMultipleHeaderData w _ _)
                          Havail Hst1)|];
         split; [reflexivity|]; split; [exact Hlast|]; split; [exact Hcons|exact I]).
  pose proof (quiet_state _ _ _ _ _ (quiet_getMultipleHeaderData w _ _) Havail Hst1) as Hst2.
  apply getMultipleHeaderData_consecutive in Havail as [Havail _].
  pose proof (consecutive_app c headers avail Hcons Havail) as Hall.
  assert (Hset : exists s3 st3,
    (match last (headers ++ avail) with
     | Some h => modifyState (set_lastBlock (number h))
     | None => ret tt
     end) s2 = (Return tt, s3) /\
    stateOf s3 = Some st3 /\ restFields st3 = restFields st /\
    lastBlock st3 = Some (c + Z.of_nat (length (headers ++ avail)))).
  { destruct (last (headers ++ avail)) as [h|] eqn:Hl.
    - rewrite (modifyState_withState _ _ _ Hst2).
      do 2 eexists. split; [reflexivity|]. split; [apply stateOf_withState|].
      split; [reflexivity|]. simpl. now rewrite (consecutive_last c _ h Hall Hl).
    - apply last_None in Hl. exists s2, st. split; [reflexivity|].
      split; [exact Hst2|]. split; [reflexivity|].
      rewrite Hl. apply app_eq_nil in Hl as [-> _]. exact Hlast. }
  destruct Hset as (s3 & st3 & Hset & Hst3 & Hrest3 & Hlast3).
  rewrite (bind_Return _ _ _ _ _ Hset) in Hrun.
  destruct (reachesMaxSlot maxSlot (headers ++ avail)).
  { injection Hrun as <- <-. exists st3, (headers ++ avail). auto. }
  destruct (negb _).
  { destruct (IH _ _ _ _ _ _ _ Hst3 Hlast3 Hall Hrun)
      as (st' & headers' & Hst' & Hrest' & Hlast' & Hcons' & Hr).
    exists st', headers'. split; [exact Hst'|]. split; [congruence|]. auto. }
  assert (Hwait : forall r4 s4, waitForBlocks w config (S fuel) (number latest) s3 = (r4, s4) ->
    exists st4, stateOf s4 = Some st4 /\ restFields st4 = restFields st /\
                lastBlock st4 = Some (c + Z.of_nat (length (headers ++ avail)))).
  { intros r4 s4 Hw.
    pose proof (keeps_waitForBlocks w config
                  (fun x => (restFields x, lastBlock x)) (fun _ _ => eq_refl)
                  _ _ _ _ _ Hw) as Hk.
    destruct (kept_state _ _ _ _ Hk Hst3) as (st4 & Hst4 & Hf).
    pose proof (f_equal fst Hf) as Hf1. pose proof (f_equal snd Hf) as Hf2.
    simpl in Hf1, Hf2. exists st4. split; [exact Hst4|]. split; congruence. }
  apply bind_inv in Hrun as [(u & s4 & Hw & Hrun)|[(e & Hw & ->)|[Hw ->]]].
  - destruct (Hwait _ _ Hw) as (st4 & Hst4 & Hrest4 & Hlast4).
    destruct (IH _ _ _ _ _ _ _ Hst4 Hlast4 Hall Hrun)
      as (st' & headers' & Hst' & Hrest' & Hlast' & Hcons' & Hr).
    exists st', headers'. split; [exact Hst'|]. split; [congruence|]. auto.
  - destruct (Hwait _ _ Hw) as (st4 & Hst4 & Hrest4 & Hlast4).
    exists st4, (headers ++ avail). auto.
  - destruct (Hwait _ _ Hw) as (st4 & Hst4 & Hrest4 & Hlast4).
    exists st4, (headers ++ avail). auto.
Qed.

Lemma consecutive_cons_inv c h headers :
  consecutive w c (h :: headers) ->
  number h = c + 1 /\
  getSlotFromHeader (rpc_header w (number h)) = Ok (slot h) /\
  consecutive w (c + 1) headers.
Proof.
  intros [Hnum Hslot]. simpl in Hnum.
  rewrite seqZ_cons in Hnum by lia. injection Hnum as Hh Ht.
  inversion Hslot as [|? ? Hsl Hrest]; subst.
  split; [exact Hh|]. split; [exact Hsl|]. split; [|exact Hrest].
  rewrite Ht. f_equal; lia.
Qed.

Lemma consecutive_range c headers :
  consecutive w c headers ->
  Forall (fun h => c + 1 <= number h <= c + Z.of_nat (length headers) /\
                   getSlotFromHeader (rpc_header w (number h)) = Ok (slot h)) headers.
Proof.
  revert c. induction headers as [|h t IH]; intros c Hcons; [constructor|].
  apply consecutive_cons_inv in Hcons as (Hh & Hsl & Ht). constructor.
  - simpl. split; [lia|exact Hsl].
  - specialize (IH _ Ht). eapply Forall_impl; [exact IH|].
    intros h' [Hr Hs]. simpl in *. split; [lia|exact Hs].
Qed.

Lemma consecutive_sorted c headers :
  0 <= c -> consecutive w c headers -> sortedByTime (map indexEntry headers).
Proof.
  revert c. induction headers as [|h t IH]; intros c Hc Hcons; [constructor|].
  apply consecutive_cons_inv in Hcons as (Hh & Hsl & Ht). simpl. constructor.
  - apply (IH (c + 1)); [lia|exact Ht].
  - apply Forall_map. pose proof (consecutive_range _ _ Ht) as Hr.
    eapply Forall_impl; [exact Hr|]. intros h' [Hn Hs]. simpl.
    assert (slot h <= slot h') by (apply (nondecreasing (number h) (number h')); auto; lia).
    lia.
Qed.

(** Pushing the headers of the blocks after the cursor keeps the
    invariant. *)
Lemma push_indexInv st3 index c headers :
  1 <= startingBlockHeight st3 ->
  0 <= c ->
  sortedByTime index ->
  Forall (indexEntryOk w c) index ->
  consecutive w c headers ->
  lastBlock st3 = Some (c + Z.of_nat (length headers)) ->
  timestampToBlockNumber st3 = index ++ map indexEntry headers ->
  indexInv w st3.
Proof.
  intros Hstart Hc Hsorted Hok Hcons Hlast Hindex.
  pose proof (consecutive_range _ _ Hcons) as Hrange.
  unfold indexInv, cursor. rewrite Hlast, Hindex. simpl.
  split; [exact Hstart|]. split; [lia|]. split.
  - apply StronglySorted_app_2; [|exact Hsorted|exact (consecutive_sorted c _ Hc Hcons)].
    intros x1 x2 Hx1 Hx2. apply list_elem_of_In in Hx1, Hx2.
    rewrite List.Forall_forall in Hok. destruct (Hok x1 Hx1) as [Hn1 (sl1 & Hs1 & ->)].
    apply in_map_iff in Hx2 as (h & <- & Hh).
    rewrite List.Forall_forall in Hrange. destruct (Hrange h Hh) as [Hn2 Hs2]. simpl.
    assert (sl1 <= slot h) by (apply (nondecreasing (snd x1) (number h)); auto; lia).
    lia.
  - apply Forall_app. split.
    + eapply Forall_impl; [exact Hok|]. intros e. apply indexEntryOk_mono. lia.
    + apply Forall_map. eapply Forall_impl; [exact Hrange|].
      intros h [Hn Hs]. split; simpl; [lia|]. eauto.
Qed.

Lemma trimConsumed_drop boundary index :
  exists k, trimConsumed boundary index = drop k index /\
            Forall (fun e => (inject_Z (fst e) <= boundary)%Q) (take k index).
Proof.
  induction index as [|[ts bn] rest IH].
  - exists 0%nat. split; [reflexivity|constructor].
  - simpl. destruct (Qle_bool (inject_Z ts) boundary) eqn:Hle.
    + destruct IH as (k & Hdrop & Htake). exists (S k). split; [exact Hdrop|].
      simpl. constructor; [|exact Htake]. simpl. now apply Qle_bool_iff.
    + exists 0%nat. split; [reflexivity|constructor].
Qed.

Lemma indexInv_drop st st' k :
  startingBlockHeight st' = startingBlockHeight st ->
  lastBlock st' = lastBlock st ->
  timestampToBlockNumber st' = drop k (timestampToBlockNumber st) ->
  indexInv w st -> indexInv w st'.
Proof.
  unfold indexInv, cursor. intros -> -> -> (H1 & H2 & H3 & H4).
  split; [exact H1|]. split; [exact H2|].
  rewrite <- (take_drop k (timestampToBlockNumber st)) in H3, H4.
  split.
  - exact (StronglySorted_app_1_r _ _ _ H3).
  - apply Forall_app in H4. tauto.
Qed.

Lemma trimmedAndExtended_same consumed index :
  trimmedAndExtended w consumed index index.
Proof.
  exists [], 0%nat, 0. simpl. rewrite app_nil_r. repeat split; constructor.
Qed.

Lemma indexStep_kept s s' :
  indexFields <$> stateOf s' = indexFields <$> stateOf s -> indexStep w s s'.
Proof.
  intros Hkeep st Hst Hinv.
  destruct (kept_state _ _ _ _ Hkeep Hst) as (st' & Hst' & Hf).
  exists st'. split; [exact Hst'|]. split; [exact (indexInv_fields _ _ Hf Hinv)|].
  unfold indexFields in Hf. injection Hf as _ _ -> _.
  apply trimmedAndExtended_same.
Qed.

Lemma indexStep_after_kept s s1 s' :
  indexFields <$> stateOf s1 = indexFields <$> stateOf s ->
  indexStep w s1 s' -> indexStep w s s'.
Proof.
  intros Hkeep Hstep st Hst Hinv.
  destruct (kept_state _ _ _ _ Hkeep Hst) as (st1 & Hst1 & Hf).
  destruct (Hstep st1 Hst1 (indexInv_fields _ _ Hf Hinv)) as (st' & Hst' & Hinv' & Hshape).
  exists st'. split; [exact Hst'|]. split; [exact Hinv'|].
  unfold indexFields in Hf. injection Hf as _ _ Hi Hq. now rewrite <- Hi, <- Hq.
Qed.

Lemma indexSteps_keeps {A} (m : M A) : keeps indexFields m -> indexSteps w m.
Proof. intros Hk s r s' Hrun. apply indexStep_kept. exact (Hk s r s' Hrun). Qed.

Lemma indexSteps_bind {A B} (m : M A) (k : A -> M B) :
  keeps indexFields m -> (forall a, indexSteps w (k a)) -> indexSteps w (bind m k).
Proof.
  intros Hm Hk s r s' Hrun.
  apply bind_inv in Hrun as [(a & s1 & Hrun1 & Hrun2)|[(e & Hrun1 & _)|[Hrun1 _]]].
  - apply (indexStep_after_kept s s1 s' (Hm _ _ _ Hrun1)). exact (Hk a _ _ _ Hrun2).
  - apply indexStep_kept. exact (Hm _ _ _ Hrun1).
  - apply indexStep_kept. exact (Hm _ _ _ Hrun1).
Qed.

Lemma unset_cursor st : lastBlockUnset st = true -> cursor st = 0.
Proof.
  unfold lastBlockUnset, cursor, truthy.
  destruct (lastBlock st) as [n|]; simpl; [|reflexivity].
  destruct (n =? 0) eqn:Hn; [|discriminate]. intros _. lia.
Qed.

Lemma unset_index_empty st :
  lastBlockUnset st = true -> indexInv w st -> timestampToBlockNumber st = [].
Proof.
  intros Hunset (_ & _ & _ & Hok). rewrite (unset_cursor st Hunset) in Hok.
  destruct (timestampToBlockNumber st) as [|e l]; [reflexivity|].
  inversion Hok as [|? ? [Hn _] _]. lia.
Qed.

Lemma set_lastBlock_indexInv st c :
  timestampToBlockNumber st = [] -> 1 <= startingBlockHeight st -> 0 <= c ->
  indexInv w (set_lastBlock c st).
Proof.
  intros Hempty Hstart Hc. unfold indexInv, cursor. simpl. rewrite Hempty.
  repeat split; auto; constructor.
Qed.

(** Resolving the cursor keeps the invariant: the cursor is only assigned
    while the index is empty, and never below zero. *)
Lemma resolveLastBlock_index first s r s' st :
  stateOf s = Some st ->
  indexInv w st ->
  resolveLastBlock w config chainName first s = (r, s') ->
  exists st',
    stateOf s' = Some st' /\
    restFields st' = restFields st /\
    indexInv w st' /\
    match r with Return _ => exists c, lastBlock st' = Some c | _ => True end.
Proof.
  intros Hst Hinv Hrun. unfold resolveLastBlock in Hrun.
  rewrite (bind_Return _ _ _ _ _ (getState_run s st Hst)) in Hrun.
  destruct (lastBlockUnset st) eqn:Hunset.
  - pose proof (unset_index_empty st Hunset Hinv) as Hempty.
    pose proof Hinv as (Hstart & _).
    apply bind_inv in Hrun as [(q & s1 & Hdb & Hrun)|[(e & Hdb & ->)|[Hdb ->]]];
      pose proof (quiet_state _ _ _ _ _ (quiet_db w chainName) Hdb Hst) as Hst1;
      try (exists st; split; [assumption|]; split; [reflexivity|];
           split; [exact Hinv|exact I]).
    destruct q as [persisted|].
    + rewrite (modifyState_withState _ _ _ Hst1) in Hrun. injection Hrun as <- <-.
      eexists. split; [apply stateOf_withState|]. split; [reflexivity|].
      split; [apply set_lastBlock_indexInv; auto; lia|]. simpl. eauto.
    + apply bind_inv in Hrun as [(ts & s2 & Hweb & Hrun)|[(e & Hweb & ->)|[Hweb ->]]];
        pose proof (quiet_state _ _ _ _ _ (quiet_web3_getBlock w _) Hweb Hst1) as Hst2;
        try (exists st; split; [assumption|]; split; [reflexivity|];
           split; [exact Hinv|exact I]).
      apply bind_inv in Hrun as [(found & s3 & Hfind & Hrun)|[(e & Hfind & ->)|[Hfind ->]]];
        pose proof (quiet_state _ _ _ _ _ (quiet_findBlockByTimestamp w _) Hfind Hst2)
          as Hst3;
        try (exists st; split; [assumption|]; split; [reflexivity|];
           split; [exact Hinv|exact I]).
      apply findBlockByTimestamp_lower in Hfind.
      rewrite (modifyState_withState _ _ _ Hst3) in Hrun. injection Hrun as <- <-.
      eexists. split; [apply stateOf_withState|]. split; [reflexivity|].
      split; [apply set_lastBlock_indexInv; auto; lia|]. simpl. eauto.
  - injection Hrun as <- <-. exists st.
    split; [exact Hst|]. split; [reflexivity|]. split; [exact Hinv|].
    unfold lastBlockUnset in Hunset. destruct (lastBlock st) as [c|]; [eauto|discriminate].
Qed.

Lemma indexInv_cursor_up st st' c' :
  restFields st' = restFields st ->
  lastBlock st' = Some c' ->
  cursor st <= c' ->
  indexInv w st -> indexInv w st'.
Proof.
  unfold restFields. intros [= Hs Hi _] Hlast Hle (H1 & H2 & H3 & H4).
  unfold indexInv, cursor. rewrite Hs, Hi, Hlast. simpl.
  split; [exact H1|]. split; [lia|]. split; [exact H3|].
  eapply Forall_impl; [exact H4|]. intros e. now apply indexEntryOk_mono.
Qed.

Lemma pushHeaders_index headers st :
  timestampToBlockNumber (pushHeaders headers st)
  = timestampToBlockNumber st ++ map indexEntry headers.
Proof. reflexivity. Qed.

(** From the cursor on, [correlate] extends the index by the headers it
    fetched and trims it at the front. *)
Lemma correlate_indexSteps fuel chainData first final :
  indexSteps w (correlate w config chainName fuel chainData first final).
Proof.
  intros s r s' Hrun st Hst Hinv. unfold correlate in Hrun.
  (* the cursor *)
  assert (Hresolved : forall r1 s1,
    resolveLastBlock w config chainName first s = (r1, s1) ->
    exists st1, stateOf s1 = Some st1 /\ restFields st1 = restFields st /\
                indexInv w st1 /\
                trimmedAndExtended w (lastMaxSlot st * 20)%Q
                  (timestampToBlockNumber st) (timestampToBlockNumber st1) /\
                match r1 with Return _ => exists c, lastBlock st1 = Some c | _ => True end).
  { intros r1 s1 Hres.
    destruct (resolveLastBlock_index _ _ _ _ _ Hst Hinv Hres) as (st1 & H1 & H2 & H3 & H4).
    exists st1. repeat (split; [assumption|]). split; [|exact H4].
    unfold restFields in H2. injection H2 as _ -> _. apply trimmedAndExtended_same. }
  apply bind_inv in Hrun as [(u & s1 & Hres & Hrun)|[(e & Hres & ->)|[Hres ->]]];
    destruct (Hresolved _ _ Hres) as (st1 & Hst1 & Hrest1 & Hinv1 & Hshape1 & Hc);
    try (exists st1; auto; fail).
  destruct Hc as [c Hc].
  assert (Hcur1 : cursor st1 = c) by (unfold cursor; now rewrite Hc).
  (* the headers *)
  apply bind_inv in Hrun as [(headers & s2 & Hfetch & Hrun)|[(e & Hfetch & ->)|[Hfetch ->]]];
    (apply (fetchHeaders_cursor _ _ _ _ _ _ st1 c Hst1) in Hfetch;
       [|simpl; rewrite Hc; f_equal; lia|apply consecutive_nil]);
    destruct Hfetch as (st2 & headers' & Hst2 & Hrest2 & Hlast2 & Hcons2 & Hr);
    try (exists st2; split; [exact Hst2|]; split;
         [apply (indexInv_cursor_up st1 st2 _ Hrest2 Hlast2); [lia|exact Hinv1]|];
         unfold restFields in Hrest1, Hrest2;
         injection Hrest1 as _ Hi1 _; injection Hrest2 as _ Hi2 _;
         rewrite Hi2, Hi1; apply trimmedAndExtended_same).
  subst headers'.
  rewrite (bind_Return _ _ _ _ _ (modifyState_withState _ _ _ Hst2)) in Hrun.
  rewrite (bind_Return _ _ _ _ _ (getState_run _ _ (stateOf_withState _ _))) in Hrun.
  rewrite (bind_Return _ _ _ _ _
             (modifyState_withState _ _ _ (stateOf_withState _ _))) in Hrun.
  set (st3 := pushHeaders headers st2) in *.
  set (trimmed := trimConsumed (lastMaxSlot st3 * 20)%Q (timestampToBlockNumber st3)) in *.
  set (st4 := set_timestampToBlockNumber trimmed st3) in *.
  assert (Hinv3 : indexInv w st3).
  { unfold restFields in Hrest1, Hrest2.
    injection Hrest1 as Hs1 Hi1 _. injection Hrest2 as Hs2 Hi2 _.
    destruct Hinv1 as (Hstart1 & Hcursor1 & Hsorted1 & Hok1).
    apply (push_indexInv st3 (timestampToBlockNumber st1) c headers); auto.
    - subst st3. simpl. lia.
    - lia.
    - now rewrite <- Hcur1.
    - subst st3. rewrite pushHeaders_index. now rewrite Hi2. }
  destruct (trimConsumed_drop (lastMaxSlot st3 * 20)%Q (timestampToBlockNumber st3))
    as (k & Hdrop & Htake).
  fold trimmed in Hdrop.
  assert (Hinv4 : indexInv w st4)
    by (apply (indexInv_drop st3 st4 k); auto).
  assert (Hshape4 : trimmedAndExtended w (lastMaxSlot st * 20)%Q
                      (timestampToBlockNumber st) (timestampToBlockNumber st4)).
  { unfold restFields in Hrest1, Hrest2.
    injection Hrest1 as _ Hi1 Hq1. injection Hrest2 as _ Hi2 Hq2.
    exists (map indexEntry headers), k, c.
    assert (Hidx : timestampToBlockNumber st3
                   = timestampToBlockNumber st ++ map indexEntry headers).
    { subst st3. rewrite pushHeaders_index. now rewrite Hi2, Hi1. }
    assert (Hq : lastMaxSlot st3 = lastMaxSlot st).
    { subst st3. simpl. now rewrite Hq2, Hq1. }
    rewrite <- Hidx, <- Hq. split; [exact Hdrop|]. split; [exact Htake|].
    split.
    - rewrite length_map, map_map. simpl. exact (proj1 Hcons2).
    - apply Forall_map. eapply Forall_impl; [exact (proj2 Hcons2)|].
      intros h Hh. exists (slot h). split; [exact Hh|reflexivity]. }
  (* the rest reads the index and leaves it *)
  match type of Hrun with
  | ?tail _ = _ =>
      assert (Htail : keeps cursorFields tail)
  end.
  { destruct trimmed as [|[firstTs fromBlock] rest];
      [apply quiet_keeps, quiet_ret|].
    apply keeps_bind; [apply keeps_modifyState; reflexivity|intros _].
    destruct (negb (Qle_bool _ _)); [apply quiet_keeps, quiet_ret|].
    match goal with |- context [if ?b then _ else _] => destruct b end;
      [apply quiet_keeps, quiet_ret|].
    apply keeps_bind; [apply quiet_keeps, quiet_getSubmittedData|intros ?].
    apply quiet_keeps, quiet_ret. }
  destruct (kept_state _ _ _ _ (Htail _ _ _ Hrun) (stateOf_withState st4 _))
    as (st' & Hst' & Hf).
  unfold cursorFields in Hf. injection Hf as Hfs Hfl Hfi.
  exists st'. split; [exact Hst'|]. split.
  - apply (indexInv_drop st4 st' 0); auto.
  - now rewrite Hfi.
Qed.

Lemma readData_indexSteps fuel blockHeight :
  indexSteps w (readData w config chainName fuel blockHeight).
Proof.
  unfold readData.
  apply indexSteps_bind; [apply quiet_keeps, quiet_getState|intros st0].
  apply indexSteps_bind.
  { destruct (bufferedChainData st0); [|apply quiet_keeps, quiet_ret].
    apply keeps_bind; [apply quiet_keeps, quiet_base_readData|intros ?].
    apply keeps_modifyState. reflexivity. }
  intros _.
  apply indexSteps_bind; [apply keeps_updateLatestBlock; reflexivity|intros _].
  apply indexSteps_bind; [apply quiet_keeps, quiet_latestBlock|intros latest].
  apply indexSteps_bind; [apply quiet_keeps, quiet_getState|intros st1].
  apply indexSteps_bind; [apply keeps_modifyState; reflexivity|intros _].
  destruct (List.filter _ _) as [|first rest].
  - apply indexSteps_keeps, quiet_keeps, quiet_ret.
  - apply correlate_indexSteps.
Qed.

Lemma quiet_readPresyncData args : quiet (readPresyncData w config chainName args).
Proof.
  unfold readPresyncData, base_readPresyncData.
  apply quiet_bind; [apply quiet_bind; [apply quiet_emit|intros ?; apply quiet_ret]|].
  intros baseData. destruct (List.find _ args) as [arg|]; [|apply quiet_ret].
  apply quiet_bind; [apply quiet_getState|intros st].
  destruct (_ >=? _); [apply quiet_ret|].
  destruct (_ >? _); [apply quiet_ret|].
  apply quiet_bind; [apply quiet_getSubmittedData|intros ?]. apply quiet_ret.
Qed.

Lemma preserves_bind {A B} (m : M A) (k : A -> M B) (P : A -> Prop) (Q : B -> Prop) :
  preserves w m P -> (forall a, P a -> preserves w (k a) Q) -> preserves w (bind m k) Q.
Proof.
  intros Hm Hk s r s' Hrun Hinv.
  apply bind_inv in Hrun as [(a & s1 & Hrun1 & Hrun2)|[(e & Hrun1 & ->)|[Hrun1 ->]]];
    destruct (Hm _ _ _ Hrun1 Hinv) as [Hinv1 Ha].
  - exact (Hk a Ha _ _ _ Hrun2 Hinv1).
  - auto.
  - auto.
Qed.

Lemma preserves_quiet {A} (m : M A) : quiet m -> preserves w m (fun _ => True).
Proof.
  intros Hq s r s' Hrun Hinv. split; [|destruct r; exact I].
  intros st Hst. apply Hinv. unfold stateOf in *. now rewrite <- (Hq s r s' Hrun).
Qed.

Lemma preserves_keeps {A} (m : M A) :
  keeps indexFields m -> preserves w m (fun _ => True).
Proof.
  intros Hk s r s' Hrun Hinv. split; [|destruct r; exact I].
  intros st' Hst'. specialize (Hk s r s' Hrun). rewrite Hst' in Hk. simpl in Hk.
  destruct (stateOf s) as [st|] eqn:Hst; [|discriminate].
  simpl in Hk. apply (indexInv_fields st st'); [congruence|]. exact (Hinv st Hst).
Qed.

Lemma recoverState_preserves startingBlockHeight' :
  preserves w (recoverState w config startingBlockHeight') (fun _ => True).
Proof.
  unfold recoverState.
  apply preserves_bind with (P := fun _ => True).
  { intros s r s' Hrun Hinv. unfold getOrCreateEntry in Hrun.
    destruct (cacheEntries s) as [entry|] eqn:Hc; injection Hrun as <- <-;
      split; auto.
    intros st Hst. discriminate Hst. }
  intros entry _.
  apply preserves_bind with (P := fun _ => True).
  { destruct (negb (initialized entry)); [|apply preserves_quiet, quiet_ret].
    apply preserves_bind with (P := fun _ => True);
      [apply preserves_quiet, quiet_web3_getBlock|intros ts _].
    apply preserves_bind with (P := fun _ => True).
    { apply preserves_quiet. unfold createApi.
      apply quiet_bind; [apply quiet_emit|intros ?; apply quiet_ret]. }
    intros api_handle _.
    apply preserves_bind with (P := fun mapped => 1 <= mapped).
    { intros s r s' Hrun Hinv.
      destruct (preserves_quiet _ (quiet_findBlockByTimestamp w _) _ _ _ Hrun Hinv)
        as [Hinv' _].
      split; [exact Hinv'|]. destruct r; auto.
      exact (findBlockByTimestamp_lower w _ _ _ _ Hrun). }
    intros mapped Hmapped s r s' Hrun _. injection Hrun as <- <-.
    split; [|exact I]. intros st [= <-].
    unfold indexInv, cursor. simpl. repeat split; auto; try lia; constructor. }
  intros _ _.
  apply preserves_bind with (P := fun _ => True).
  - apply preserves_keeps, keeps_updateLatestBlock. reflexivity.
  - intros ? _. apply preserves_quiet, quiet_ret.
Qed.

Lemma perform_machineInv call s :
  machineInv w s -> machineInv w (perform w config chainName call s).
Proof.
  intros Hinv. destruct call as [h|fuel blockHeight|args]; simpl.
  - destruct (recoverState w config h s) as [r s'] eqn:Hrun.
    exact (proj1 (recoverState_preserves h _ _ _ Hrun Hinv)).
  - destruct (readData w config chainName fuel blockHeight s) as [r s'] eqn:Hrun.
    intros st' Hst'. simpl in Hst'.
    destruct (stateOf s) as [st|] eqn:Hst.
    + destruct (readData_indexSteps _ _ _ _ _ Hrun st Hst (Hinv st Hst))
        as (st'' & Hst'' & Hinv'' & _).
      simpl in Hst'. congruence.
    + (* without a state the call throws at once *)
      assert (Hs' : s' = s).
      { unfold readData, bind, getState in Hrun. unfold stateOf in Hst.
        destruct (cacheEntries s) as [[[st|]]|]; try discriminate; now injection Hrun. }
      subst s'. congruence.
  - destruct (readPresyncData w config chainName args s) as [r s'] eqn:Hrun.
    exact (proj1 (preserves_quiet _ (quiet_readPresyncData args) _ _ _ Hrun Hinv)).
Qed.

Lemma performAll_machineInv calls s0 :
  cacheEntries s0 = None ->
  machineInv w (performAll w config chainName calls s0).
Proof.
  intros Hstart. induction calls as [|call calls IH] using rev_ind.
  - intros st Hst. unfold stateOf in Hst. simpl in Hst. rewrite Hstart in Hst.
    discriminate Hst.
  - unfold performAll. rewrite fold_left_app. simpl. apply perform_machineInv, IH.
Qed.

End Index.

(** C9. On a secondary chain that serves for every number the header of
    that number and whose slots do not decrease with the block number, the
    index is sorted by logical time after any sequence of calls from the
    start of the process (nothing cached yet); and every [readData] call,
    whatever its outcome, changes it only by appending entries of blocks
    fetched in ascending order at the tail and by dropping from the head
    entries whose time is at or before the slot boundary consumed before. *)
Theorem timestampToBlockNumber_stays_sorted (w : World) (config : AvailConfig)
  (chainName : string) :
  (forall n, hdr_number (rpc_header w n) = n) ->
  (forall n m sn sm,
     1 <= n <= m ->
     getSlotFromHeader (rpc_header w n) = Ok sn ->
     getSlotFromHeader (rpc_header w m) = Ok sm ->
     sn <= sm) ->
  forall (s0 : Machine) (calls : list Call) (st : AvailFunnelCacheEntryState),
    cacheEntries s0 = None ->
    stateOf (performAll w config chainName calls s0) = Some st ->
    sortedByTime (timestampToBlockNumber st) /\
    forall fuel blockHeight,
      exists st',
        stateOf (perform w config chainName (ReadData fuel blockHeight)
                   (performAll w config chainName calls s0)) = Some st' /\
        trimmedAndExtended w (lastMaxSlot st * 20)%Q
          (timestampToBlockNumber st) (timestampToBlockNumber st').
Proof.
  intros Hnumbered Hmono s0 calls st Hstart Hst.
  pose proof (performAll_machineInv w config chainName Hnumbered Hmono calls s0
                Hstart st Hst) as Hinv.
  split; [exact (proj1 (proj2 (proj2 Hinv)))|].
  intros fuel blockHeight. simpl.
  destruct (readData w config chainName fuel blockHeight _) as [r s'] eqn:Hrun.
  destruct (readData_indexSteps w config chainName Hnumbered Hmono _ _ _ _ _ Hrun
              st Hst Hinv) as (st' & Hst' & _ & Hshape).
  exists st'. split; [exact Hst'|exact Hshape].
Qed.

(** ** Runs on sample chains *)

Lemma sampleWorld_numbered baseBlocks finalized persisted n :
  hdr_number (rpc_header (sampleWorld baseBlocks finalized persisted) n) = n.
Proof. reflexivity. Qed.

Lemma sampleWorld_slot baseBlocks finalized persisted n :
  getSlotFromHeader (rpc_header (sampleWorld baseBlocks finalized persisted) n) = Ok n.
Proof. reflexivity. Qed.

Lemma findBlockByTimestamp_first_after_witness :
  exists s',
    findBlockByTimestamp (sampleWorld (fun _ => []) (fun _ => 30) None) 100 processStart
    = (Return 6, s').
Proof.
  destruct (findBlockByTimestamp_first_after
              (sampleWorld (fun _ => []) (fun _ => 30) None) (fun n => n) 100 processStart)
    as (r & s' & Hrun & Hr & Hbelow & Habove & _).
  - vm_compute. discriminate.
  - intros n _. apply sampleWorld_slot.
  - intros n m Hnm _. lia.
  - change (finalizedHeight (sampleWorld (fun _ => []) (fun _ => 30) None) processStart)
      with 30 in *.
    assert (r = 6) as ->.
    { destruct (Z_lt_le_dec r 6) as [Hlt|Hge].
      - specialize (Habove 5 ltac:(lia)). lia.
      - destruct (Z_lt_le_dec 6 r) as [Hgt|Hle]; [|lia].
        specialize (Hbelow 6 ltac:(lia)). lia. }
    exists s'. exact Hrun.
Defined.

Lemma readPresyncData_clamped_witness :
  let world := sampleWorld (fun _ => []) (fun _ => 30) None in
  readPresyncData world sampleConfig "avail" [sampleArg 6 100] (bootstrapped world)
  = (Return (<["avail"%string := FUNNEL_PRESYNC_FINISHED]> ∅),
     logged [BaseReadPresyncData [sampleArg 6 100]] (bootstrapped world))
  /\
  exists data,
    readPresyncData world sampleConfig "avail" [sampleArg 0 100] (bootstrapped world)
    = (Return (<["avail"%string := PresyncBlocks (map (toPresync "avail") data)]> ∅),
       logged (BaseReadPresyncData [sampleArg 0 100]
                 :: map (HttpGet "http://lc") [0; 1; 2; 3; 4; 5])
              (bootstrapped world)).
Proof.
  intros world.
  eassert (Hst : stateOf (bootstrapped world) = Some _) by (vm_compute; reflexivity).
  split.
  - destruct (readPresyncData_clamped world sampleConfig "avail"
                [sampleArg 6 100] (sampleArg 6 100) (bootstrapped world) _ eq_refl Hst)
      as [Hfinished _].
    apply Hfinished. vm_compute. discriminate.
  - destruct (readPresyncData_clamped world sampleConfig "avail"
                [sampleArg 0 100] (sampleArg 0 100) (bootstrapped world) _ eq_refl Hst)
      as [_ Hrange].
    destruct Hrange as (data & _ & Hrun); [vm_compute; reflexivity|].
    exists data. exact Hrun.
Defined.

Lemma getSubmittedData_records_witness :
  exists perBlock,
    getSubmittedData (sampleWorld (fun _ => []) (fun _ => 30) None)
      "http://lc" 5 8 "avail" processStart
    = (Return (perBlock 5 ++ perBlock 6 ++ perBlock 7 ++ perBlock 8 ++ []),
       logged (map (HttpGet "http://lc") [5; 6; 7; 8]) processStart)
    /\ perBlock 5 = [] /\ perBlock 7 = [] /\
    perBlock 6 = [sampleRecord 6 [sampleDatum "tx"]].
Proof.
  destruct (getSubmittedData_records (sampleWorld (fun _ => []) (fun _ => 30) None)
              "http://lc" "avail" 5 8 processStart) as (perBlock & Hrun & Hper).
  exists perBlock. split; [exact Hrun|].
  split; [|split].
  - destruct (Hper 5) as (_ & Hempty & _). now apply Hempty.
  - destruct (Hper 7) as (Hnot200 & _). apply Hnot200. vm_compute. discriminate.
  - destruct (Hper 6) as (_ & _ & Hsome). apply Hsome; [reflexivity|discriminate].
Defined.

Lemma recoverState_reuses_state_witness :
  let world := sampleWorld (fun _ => []) (fun _ => 30) None in
  exists r s' st',
    recoverState world sampleConfig 99 (bootstrapped world) = (r, s') /\
    trace s' = trace (bootstrapped world)
               ++ [RpcGetFinalizedHead; RpcGetHeader 30; RpcGetBlockHash 30;
                   RpcGetHeader 30] /\
    stateOf s' = Some st' /\
    startingBlockHeight st' = 6 /\
    lastBlock st' = None.
Proof.
  intros world.
  eassert (Hst : stateOf (bootstrapped world) = Some _) by (vm_compute; reflexivity).
  destruct (recoverState_reuses_state world sampleConfig 99 (bootstrapped world) _ Hst)
    as (r & s' & st' & Hrun & Htrace & Hst' & Hstart & Hlast & _).
  exists r, s', st'. repeat split; assumption.
Defined.

Lemma timestampToBlockNumber_stays_sorted_witness :
  let world := sampleWorld (fun _ => [sampleBlock 10 200 None; sampleBlock 11 220 None;
                                      sampleBlock 12 400 None])
                           (fun k => 10 + Z.of_nat k) (Some 3) in
  exists st,
    stateOf (performAll world sampleConfig "avail"
               [RecoverState 5; ReadData 5 10; ReadPresyncData [sampleArg 0 3];
                RecoverState 5; ReadData 5 11] processStart) = Some st /\
    sortedByTime (timestampToBlockNumber st).
Proof.
  intros world.
  eassert (Hst : stateOf (performAll world sampleConfig "avail"
               [RecoverState 5; ReadData 5 10; ReadPresyncData [sampleArg 0 3];
                RecoverState 5; ReadData 5 11] processStart) = Some _)
    by (vm_compute; reflexivity).
  destruct (timestampToBlockNumber_stays_sorted world sampleConfig "avail"
              (sampleWorld_numbered _ _ _)
              ltac:(intros n m sn sm Hnm [= <-] [= <-]; lia)
              processStart _ _ eq_refl Hst) as [Hsorted _].
  eexists. split; [exact Hst|exact Hsorted].
Defined.

(** Several secondary blocks remapped to one primary block: blocks 6 and
    8 both carry data and both fall in the window of primary block 10; the
    block receives the datum of block 6 only. *)
Lemma readData_drops_later_records :
  let world := busyWorld (fun _ => [sampleBlock 10 200 (Some [])]) (fun _ => 12) (Some 3) in
  let s := snd (recoverState world sampleConfig 5 processStart) in
  exists s',
    readData world sampleConfig "avail" 5 10 s
    = (Return [sampleBlock 10 200
                 (Some [genericDatum "avail"
                          (http_blockData world "http://lc" 6) "six"])], s') /\
    In (HttpGet "http://lc" 8) (trace s').
Proof.
  intros world s. eexists. split; [vm_compute; reflexivity|].
  vm_compute. tauto.
Qed.

(** * Further properties of the funnel's functions *)

(** ** The upper bound of a time range *)

Section UpperBound.

Variable maxTimestamp : Q.

Lemma getUpperBoundBlock_down_skip later rest :
  Forall (fun e => (maxTimestamp < inject_Z (fst e))%Q) later ->
  getUpperBoundBlock_down (later ++ rest) maxTimestamp
  = getUpperBoundBlock_down rest maxTimestamp.
Proof.
  induction 1 as [|[ts bn] later Hlate _ IH]; [reflexivity|].
  simpl. destruct (Qle_bool (inject_Z ts) maxTimestamp) eqn:Hle; [|exact IH].
  apply Qle_bool_iff in Hle. simpl in Hlate.
  exfalso. exact (Qlt_not_le _ _ Hlate Hle).
Qed.

Lemma getUpperBoundBlock_down_found rev_entries b :
  getUpperBoundBlock_down rev_entries maxTimestamp = Some b ->
  exists later ts earlier,
    rev_entries = later ++ (ts, b) :: earlier /\
    (inject_Z ts <= maxTimestamp)%Q /\
    Forall (fun e => (maxTimestamp < inject_Z (fst e))%Q) later.
Proof.
  induction rev_entries as [|[ts bn] rest IH]; [discriminate|].
  simpl. destruct (Qle_bool (inject_Z ts) maxTimestamp) eqn:Hle.
  - intros [= ->]. exists [], ts, rest.
    split; [reflexivity|]. split; [now apply Qle_bool_iff|constructor].
  - intros Hrest. destruct (IH Hrest) as (later & ts' & earlier & -> & Hts & Hlater).
    exists ((ts, bn) :: later), ts', earlier.
    split; [reflexivity|]. split; [exact Hts|].
    constructor; [|exact Hlater]. simpl. apply Qnot_le_lt.
    intros H. apply Qle_bool_iff in H. congruence.
Qed.

Lemma getUpperBoundBlock_down_none rev_entries :
  getUpperBoundBlock_down rev_entries maxTimestamp = None <->
  Forall (fun e => (maxTimestamp < inject_Z (fst e))%Q) rev_entries.
Proof.
  split.
  - induction rev_entries as [|[ts bn] rest IH]; [constructor|].
    simpl. destruct (Qle_bool (inject_Z ts) maxTimestamp) eqn:Hle; [discriminate|].
    intros Hrest. constructor; [|exact (IH Hrest)]. simpl. apply Qnot_le_lt.
    intros H. apply Qle_bool_iff in H. congruence.
  - intros Hall. rewrite <- (app_nil_r rev_entries).
    now rewrite getUpperBoundBlock_down_skip.
Qed.

(** X2. [getUpperBoundBlock] answers with the block of the last entry of the
    index that is at or before [maxTimestamp], whatever the order of the
    index; it answers [undefined] exactly when every entry (none, for an
    empty index) is after [maxTimestamp]. *)
Theorem getUpperBoundBlock_last_in_range (index : list (Z * Z)) :
  (forall b,
     getUpperBoundBlock index maxTimestamp = Some b <->
     exists earlier ts later,
       index = earlier ++ (ts, b) :: later /\
       (inject_Z ts <= maxTimestamp)%Q /\
       Forall (fun e => (maxTimestamp < inject_Z (fst e))%Q) later) /\
  (getUpperBoundBlock index maxTimestamp = None <->
   Forall (fun e => (maxTimestamp < inject_Z (fst e))%Q) index).
Proof.
  unfold getUpperBoundBlock. split.
  - intros b. split.
    + intros Hfound.
      destruct (getUpperBoundBlock_down_found _ _ Hfound)
        as (later & ts & earlier & Hrev & Hts & Hlater).
      exists (rev earlier), ts, (rev later).
      split; [|split; [exact Hts|now apply Forall_rev]].
      rewrite <- (rev_involutive index), Hrev, rev_app_distr. simpl.
      now rewrite <- app_assoc.
    + intros (earlier & ts & later & -> & Hts & Hlater).
      rewrite rev_app_distr. simpl. rewrite <- app_assoc.
      rewrite getUpperBoundBlock_down_skip by now apply Forall_rev.
      simpl. apply Qle_bool_iff in Hts. now rewrite Hts.
  - rewrite getUpperBoundBlock_down_none. split; intros Hall.
    + rewrite <- (rev_involutive index). now apply Forall_rev.
    + now apply Forall_rev.
Qed.

(** X3. On an index sorted by time, which is the precondition the source
    states, the entries at or before [maxTimestamp] are a prefix of the
    index and the answer is the block of the last of them. *)
Theorem getUpperBoundBlock_sorted (index : list (Z * Z)) (b : Z) :
  sortedByTime index ->
  getUpperBoundBlock index maxTimestamp = Some b ->
  exists earlier ts later,
    index = earlier ++ (ts, b) :: later /\
    Forall (fun e => (inject_Z (fst e) <= maxTimestamp)%Q) (earlier ++ [(ts, b)]) /\
    Forall (fun e => (maxTimestamp < inject_Z (fst e))%Q) later.
Proof.
  intros Hsorted Hfound. unfold getUpperBoundBlock in Hfound.
  destruct (getUpperBoundBlock_down_found _ _ Hfound)
    as (later & ts & earlier & Hrev & Hts & Hlater).
  assert (Hindex : index = rev earlier ++ (ts, b) :: rev later).
  { rewrite <- (rev_involutive index), Hrev, rev_app_distr. simpl.
    now rewrite <- app_assoc. }
  exists (rev earlier), ts, (rev later).
  split; [exact Hindex|]. split; [|now apply Forall_rev].
  apply Forall_app. split; [|constructor; [exact Hts|constructor]].
  unfold sortedByTime in Hsorted. rewrite Hindex in Hsorted.
  apply List.Forall_forall. intros e He.
  apply Qle_trans with (inject_Z ts); [|exact Hts].
  rewrite <- Zle_Qle.
  apply (StronglySorted_app_1_elem_of _ _ _ e (ts, b) Hsorted).
  - now apply list_elem_of_In.
  - left.
Qed.

End UpperBound.

Lemma getUpperBoundBlock_sorted_witness :
  getUpperBoundBlock [(100, 5); (120, 6); (140, 7)] (inject_Z 130) = Some 6 /\
  exists earlier ts later,
    [(100, 5); (120, 6); (140, 7)] = earlier ++ (ts, 6) :: later /\
    Forall (fun e => (inject_Z (fst e) <= inject_Z 130)%Q) (earlier ++ [(ts, 6)]) /\
    Forall (fun e => (inject_Z 130 < inject_Z (fst e))%Q) later.
Proof.
  split; [reflexivity|].
  apply (getUpperBoundBlock_sorted (inject_Z 130) [(100, 5); (120, 6); (140, 7)] 6).
  - unfold sortedByTime. repeat constructor; simpl; lia.
  - reflexivity.
Defined.

(** ** Trimming the index *)

Lemma trimConsumed_split boundary index :
  exists consumed,
    index = consumed ++ trimConsumed boundary index /\
    Forall (fun e => (inject_Z (fst e) <= boundary)%Q) consumed /\
    forall e, head (trimConsumed boundary index) = Some e ->
              (boundary < inject_Z (fst e))%Q.
Proof.
  induction index as [|[ts bn] rest IH].
  - exists []. split; [reflexivity|]. split; [constructor|discriminate].
  - simpl. destruct (Qle_bool (inject_Z ts) boundary) eqn:Hle.
    + destruct IH as (consumed & Hsplit & Hconsumed & Hhead).
      exists ((ts, bn) :: consumed). split; [simpl; now rewrite <- Hsplit|].
      split; [|exact Hhead]. constructor; [|exact Hconsumed].
      simpl. now apply Qle_bool_iff.
    + exists []. split; [reflexivity|]. split; [constructor|].
      intros e [= <-]. simpl. apply Qnot_le_lt.
      intros H. apply Qle_bool_iff in H. congruence.
Qed.

(** X4. The [while] loop that shifts consumed entries off the index stops at
    the first entry after the boundary.  On an index sorted by time it
    therefore removes exactly the entries at or before the boundary: what
    it removes is at or before it, and everything it leaves is after
    it. *)
Theorem trimConsumed_sorted (boundary : Q) (index : list (Z * Z)) :
  sortedByTime index ->
  exists consumed,
    index = consumed ++ trimConsumed boundary index /\
    Forall (fun e => (inject_Z (fst e) <= boundary)%Q) consumed /\
    Forall (fun e => (boundary < inject_Z (fst e))%Q) (trimConsumed boundary index).
Proof.
  intros Hsorted.
  destruct (trimConsumed_split boundary index) as (consumed & Hsplit & Hconsumed & Hhead).
  exists consumed. split; [exact Hsplit|]. split; [exact Hconsumed|].
  unfold sortedByTime in Hsorted. rewrite Hsplit in Hsorted.
  apply StronglySorted_app_1_r in Hsorted.
  destruct (trimConsumed boundary index) as [|e rest]; [constructor|].
  specialize (Hhead e eq_refl).
  inversion Hsorted as [|? ? _ Hrest]; subst.
  constructor; [exact Hhead|].
  eapply Forall_impl; [exact Hrest|]. intros e' He'. simpl in He'.
  apply Qlt_le_trans with (inject_Z (fst e)); [exact Hhead|].
  now rewrite <- Zle_Qle.
Qed.

Lemma trimConsumed_sorted_witness :
  trimConsumed (inject_Z 120) [(100, 5); (120, 6); (140, 7); (160, 8)]
  = [(140, 7); (160, 8)] /\
  exists consumed,
    [(100, 5); (120, 6); (140, 7); (160, 8)]
    = consumed ++ trimConsumed (inject_Z 120) [(100, 5); (120, 6); (140, 7); (160, 8)] /\
    Forall (fun e => (inject_Z (fst e) <= inject_Z 120)%Q) consumed /\
    Forall (fun e => (inject_Z 120 < inject_Z (fst e))%Q)
           (trimConsumed (inject_Z 120) [(100, 5); (120, 6); (140, 7); (160, 8)]).
Proof.
  split; [reflexivity|].
  apply (trimConsumed_sorted (inject_Z 120) [(100, 5); (120, 6); (140, 7); (160, 8)]).
  unfold sortedByTime. repeat constructor; simpl; lia.
Defined.

(** ** The mapping from secondary to primary blocks *)

Section Mapping.

Variable config : AvailConfig.

Lemma advance_firstReady ts blocks :
  head (advance config ts blocks) = firstReady config ts blocks.
Proof.
  unfold firstReady. induction blocks as [|block rest IH]; [reflexivity|].
  simpl. destruct (applyDelay config (timestamp block) >=? ts); [reflexivity|exact IH].
Qed.

Lemma advance_advance ts ts' blocks :
  ts <= ts' ->
  advance config ts' (advance config ts blocks) = advance config ts' blocks.
Proof.
  intros Hle. induction blocks as [|block rest IH]; [reflexivity|].
  simpl. destruct (applyDelay config (timestamp block) >=? ts) eqn:Hready.
  - reflexivity.
  - rewrite IH.
    assert ((applyDelay config (timestamp block) >=? ts') = false) as -> by lia.
    reflexivity.
Qed.

Lemma firstReady_advance ts ts' blocks :
  ts <= ts' ->
  firstReady config ts' (advance config ts blocks) = firstReady config ts' blocks.
Proof.
  intros Hle. now rewrite <- !advance_firstReady, advance_advance.
Qed.

(** The loop over the index, from any position in the batch and any
    mapping built so far. *)
Lemma buildMapping_lookup entries : forall blocks mapping,
  sortedByTime entries ->
  NoDup (map snd entries) ->
  (forall ts n, In (ts, n) entries ->
     buildMapping config entries blocks mapping !! n
     = match firstReady config ts blocks with
       | Some block => Some (blockNumber block)
       | None => mapping !! n
       end) /\
  (forall n, ~ In n (map snd entries) ->
     buildMapping config entries blocks mapping !! n = mapping !! n).
Proof.
  induction entries as [|[ts0 n0] rest IH]; intros blocks mapping Hsorted Hnodup.
  { split; [intros ts n []|reflexivity]. }
  inversion Hsorted as [|? ? Hrest Hfirst]; subst.
  simpl in Hnodup. apply NoDup_cons in Hnodup as [Hn0 Hnodup].
  rewrite list_elem_of_In in Hn0.
  assert (Hlater : forall ts n, In (ts, n) rest -> ts0 <= ts /\ n <> n0).
  { intros ts n Hin. split.
    - rewrite List.Forall_forall in Hfirst. exact (Hfirst _ Hin).
    - intros ->. apply Hn0. apply in_map_iff. exists (ts, n0). auto. }
  cbn [buildMapping].
  pose proof (advance_firstReady ts0 blocks) as Hhead.
  destruct (advance config ts0 blocks) as [|block later] eqn:Hadv; simpl in Hhead.
  - destruct (IH [] mapping Hrest Hnodup) as [Hin Hout]. split.
    + intros ts n [[= <- <-]|Hrestin].
      * rewrite <- Hhead. apply Hout. exact Hn0.
      * destruct (Hlater ts n Hrestin) as [Hts _].
        rewrite (Hin ts n Hrestin).
        rewrite <- (firstReady_advance ts0 ts blocks Hts), Hadv. reflexivity.
    + intros n Hn. apply Hout. intros Hin'. apply Hn. now right.
  - destruct (IH (block :: later) (<[n0 := blockNumber block]> mapping) Hrest Hnodup)
      as [Hin Hout].
    split.
    + intros ts n [[= <- <-]|Hrestin].
      * rewrite <- Hhead. rewrite (Hout n0 Hn0). apply lookup_insert_eq.
      * destruct (Hlater ts n Hrestin) as [Hts Hne].
        rewrite (Hin ts n Hrestin).
        rewrite <- (firstReady_advance ts0 ts blocks Hts), Hadv.
        destruct (firstReady config ts (block :: later)); [reflexivity|].
        now apply lookup_insert_ne.
    + intros n Hn. rewrite Hout by (intros Hin'; apply Hn; now right).
      apply lookup_insert_ne. intros ->. apply Hn. now left.
Qed.

(** X5. The mapping built by the loop of lines 167-180, for an index sorted
    by time in which no block number occurs twice: a secondary block of
    the index is mapped to the first primary block of the batch whose
    delayed timestamp is not before the secondary block's time, and it has
    no entry when the batch has no such block; block numbers that are not
    in the index have no entry. *)
Theorem buildMapping_first_ready (entries : list (Z * Z)) (blocks : list ChainData) :
  sortedByTime entries ->
  NoDup (map snd entries) ->
  (forall ts n, In (ts, n) entries ->
     buildMapping config entries blocks ∅ !! n
     = blockNumber <$> firstReady config ts blocks) /\
  (forall n, ~ In n (map snd entries) ->
     buildMapping config entries blocks ∅ !! n = None).
Proof.
  intros Hsorted Hnodup.
  destruct (buildMapping_lookup entries blocks ∅ Hsorted Hnodup) as [Hin Hout].
  split.
  - intros ts n Hentry. rewrite (Hin ts n Hentry).
    destruct (firstReady config ts blocks); reflexivity.
  - intros n Hn. now rewrite (Hout n Hn).
Qed.

(** What the first ready block is: its delayed timestamp is not before
    [ts], and every block before it in the batch is too early. *)
Lemma firstReady_Some ts blocks block :
  firstReady config ts blocks = Some block ->
  exists before later,
    blocks = before ++ block :: later /\
    ts <= applyDelay config (timestamp block) /\
    Forall (fun b => applyDelay config (timestamp b) < ts) before.
Proof.
  unfold firstReady. induction blocks as [|b rest IH]; [discriminate|].
  simpl. destruct (applyDelay config (timestamp b) >=? ts) eqn:Hready.
  - intros [= <-]. exists [], rest. split; [reflexivity|]. split; [lia|constructor].
  - intros Hfound. destruct (IH Hfound) as (before & later & -> & Hts & Hbefore).
    exists (b :: before), later. split; [reflexivity|]. split; [exact Hts|].
    constructor; [lia|exact Hbefore].
Qed.

End Mapping.

Lemma buildMapping_first_ready_witness :
  buildMapping sampleConfig [(100, 5); (120, 6); (500, 7)]
    [sampleBlock 10 110 None; sampleBlock 11 130 None] ∅ !! 6
  = Some 11 /\
  buildMapping sampleConfig [(100, 5); (120, 6); (500, 7)]
    [sampleBlock 10 110 None; sampleBlock 11 130 None] ∅ !! 7
  = None.
Proof.
  destruct (buildMapping_first_ready sampleConfig [(100, 5); (120, 6); (500, 7)]
              [sampleBlock 10 110 None; sampleBlock 11 130 None]) as [Hin _].
  - unfold sortedByTime. repeat constructor; simpl; lia.
  - apply (bool_decide_unpack _). vm_compute. reflexivity.
  - split.
    + exact (Hin 120 6 ltac:(simpl; tauto)).
    + exact (Hin 500 7 ltac:(simpl; tauto)).
Defined.

(** ** Records of the light client *)

Lemma seqZ_sorted (len : nat) : forall m, StronglySorted Z.lt (seqZ m (Z.of_nat len)).
Proof.
  induction len as [|len IH]; intros m; [constructor|].
  rewrite seqZ_cons by lia.
  replace (Z.pred (Z.of_nat (S len))) with (Z.of_nat len) by lia.
  constructor; [apply IH|].
  apply Forall_seqZ. intros n Hn. lia.
Qed.

Section SubmittedRecords.

Variable w : World.
Variable lc net : string.

Lemma blockRecords_cases curr :
  blockRecords w lc net curr = [] \/
  (blockRecords w lc net curr = [recordOf net (http_blockData w lc curr)] /\
   data_transactions (http_blockData w lc curr) <> []).
Proof.
  unfold blockRecords. cbv zeta.
  destruct (negb (status (http_blockData w lc curr) =? 200)); [now left|].
  destruct (data_transactions (http_blockData w lc curr)) as [|d l]; [now left|].
  right. split; [reflexivity|discriminate].
Qed.

Lemma recordOf_wellFormed response :
  data_transactions response <> [] -> wellFormedRecord net (recordOf net response).
Proof.
  intros Hne. exists (block_number response), (map (genericDatum net response)
                                               (data_transactions response)).
  split; [reflexivity|]. split; [reflexivity|]. split.
  - destruct (data_transactions response); [congruence|discriminate].
  - apply Forall_map. apply List.Forall_forall. intros d _. repeat split.
Qed.

Lemma records_of_blocks (blocks : list Z) :
  (forall n, In n blocks -> block_number (http_blockData w lc n) = n) ->
  StronglySorted Z.lt blocks ->
  exists numbers,
    map cdeBlockNumber (concat (map (blockRecords w lc net) blocks)) = map Some numbers /\
    StronglySorted Z.lt numbers /\
    (forall n, In n numbers -> In n blocks) /\
    Forall (wellFormedRecord net) (concat (map (blockRecords w lc net) blocks)).
Proof.
  induction blocks as [|n0 rest IH]; intros Hhonest Hsorted.
  { exists []. split; [reflexivity|]. split; [constructor|].
    split; [intros n []|constructor]. }
  inversion Hsorted as [|? ? Hrest Hfirst]; subst.
  destruct (IH (fun n Hn => Hhonest n (or_intror Hn)) Hrest)
    as (numbers & Hnum & Hsort & Hsub & Hshape).
  simpl. destruct (blockRecords_cases n0) as [->|[-> Hne]].
  - exists numbers. simpl. split; [exact Hnum|]. split; [exact Hsort|].
    split; [|exact Hshape]. intros n Hn. right. now apply Hsub.
  - exists (n0 :: numbers). simpl. rewrite Hnum, (Hhonest n0 (or_introl eq_refl)).
    split; [reflexivity|]. split; [|split].
    + constructor; [exact Hsort|]. apply List.Forall_forall. intros n Hn.
      rewrite List.Forall_forall in Hfirst. exact (Hfirst n (Hsub n Hn)).
    + intros n [<-|Hn]; [now left|right; now apply Hsub].
    + constructor; [now apply recordOf_wellFormed|exact Hshape].
Qed.

(** X6. With a light client that answers a request for block [n] with the
    data of block [n], the records of [getSubmittedData] carry strictly
    ascending block numbers of the requested range, so no two records have
    the same number; and every record has at least one datum, each a
    generic datum of the network with the record's number. *)
Theorem getSubmittedData_ascending (from to : Z) (s : Machine) :
  (forall n, from <= n <= to -> block_number (http_blockData w lc n) = n) ->
  exists data numbers,
    getSubmittedData w lc from to net s
    = (Return data, logged (map (HttpGet lc) (seqZ from (to + 1 - from))) s) /\
    map cdeBlockNumber data = map Some numbers /\
    StronglySorted Z.lt numbers /\
    Forall (fun n => from <= n <= to) numbers /\
    Forall (wellFormedRecord net) data.
Proof.
  intros Hhonest.
  destruct (records_of_blocks (seqZ from (to + 1 - from)))
    as (numbers & Hnum & Hsort & Hsub & Hshape).
  - intros n Hn. apply list_elem_of_In, elem_of_seqZ in Hn. apply Hhonest. lia.
  - destruct (Z_le_gt_dec (to + 1 - from) 0) as [Hle|Hgt].
    + rewrite seqZ_nil by lia. constructor.
    + rewrite <- (Z2Nat.id (to + 1 - from)) by lia. apply seqZ_sorted.
  - eexists _, numbers. split; [apply getSubmittedData_run|].
    split; [exact Hnum|]. split; [exact Hsort|]. split; [|exact Hshape].
    apply List.Forall_forall. intros n Hn.
    apply Hsub, list_elem_of_In, elem_of_seqZ in Hn. lia.
Qed.

End SubmittedRecords.

Lemma getSubmittedData_ascending_witness :
  exists data,
    getSubmittedData (busyWorld (fun _ => []) (fun _ => 30) None)
      "http://lc" 5 9 "avail" processStart
    = (Return data, logged (map (HttpGet "http://lc") [5; 6; 7; 8; 9]) processStart) /\
    map cdeBlockNumber data = [Some 6; Some 8].
Proof.
  destruct (getSubmittedData_ascending (busyWorld (fun _ => []) (fun _ => 30) None)
              "http://lc" "avail" 5 9 processStart)
    as (data & numbers & Hrun & Hnum & _).
  - intros n _. reflexivity.
  - exists data. split; [exact Hrun|].
    rewrite (getSubmittedData_run _ "http://lc" "avail" 5 9 processStart) in Hrun.
    injection Hrun as <-. reflexivity.
Defined.

(** ** Headers of a block range *)

Section HeaderRange.

Variable w : World.

Lemma getMultipleHeaderData_loop_run (slotAt : Z -> Z) (count : nat) :
  forall bn results s,
    (forall n, bn <= n < bn + Z.of_nat count ->
               getSlotFromHeader (rpc_header w n) = Ok (slotAt n)) ->
    getMultipleHeaderData_loop w count bn results s
    = (Return (results ++ map (fun n => headerDataAt w n (slotAt n))
                              (seqZ bn (Z.of_nat count))),
       logged (concat (map headerRequests (seqZ bn (Z.of_nat count)))) s).
Proof.
  induction count as [|count IH]; intros bn results s Hslots.
  - simpl. now rewrite app_nil_r, logged_nil.
  - rewrite seqZ_cons by lia.
    replace (Z.pred (Z.of_nat (S count))) with (Z.of_nat count) by lia.
    replace (Z.succ bn) with (bn + 1) by lia.
    cbn [getMultipleHeaderData_loop map concat].
    rewrite (bind_Return _ _ _ _ _ (rpc_getBlockHash_run bn s)).
    rewrite (bind_Return _ _ _ _ _ (rpc_getHeader_run w bn _)).
    rewrite (Hslots bn) by lia. unfold liftResult. unfold bind at 1, ret at 1.
    rewrite IH by (intros n Hn; apply Hslots; lia).
    rewrite !logged_logged, <- app_assoc. reflexivity.
Qed.

Lemma getMultipleHeaderData_loop_throws (slotAt : Z -> Z) (good : nat) (e : FunnelError) :
  forall count bn results s,
    (good < count)%nat ->
    (forall n, bn <= n < bn + Z.of_nat good ->
               getSlotFromHeader (rpc_header w n) = Ok (slotAt n)) ->
    getSlotFromHeader (rpc_header w (bn + Z.of_nat good)) = Err e ->
    getMultipleHeaderData_loop w count bn results s
    = (Throw e,
       logged (concat (map headerRequests (seqZ bn (Z.of_nat (S good))))) s).
Proof.
  induction good as [|good IH]; intros count bn results s Hcount Hslots Hbad.
  - destruct count as [|count]; [lia|].
    cbn [getMultipleHeaderData_loop].
    rewrite (bind_Return _ _ _ _ _ (rpc_getBlockHash_run bn s)).
    rewrite (bind_Return _ _ _ _ _ (rpc_getHeader_run w bn _)).
    replace (bn + Z.of_nat 0) with bn in Hbad by lia. rewrite Hbad.
    rewrite logged_logged. reflexivity.
  - destruct count as [|count]; [lia|].
    rewrite seqZ_cons by lia.
    replace (Z.pred (Z.of_nat (S (S good)))) with (Z.of_nat (S good)) by lia.
    replace (Z.succ bn) with (bn + 1) by lia.
    cbn [getMultipleHeaderData_loop map concat].
    rewrite (bind_Return _ _ _ _ _ (rpc_getBlockHash_run bn s)).
    rewrite (bind_Return _ _ _ _ _ (rpc_getHeader_run w bn _)).
    rewrite (Hslots bn) by lia. unfold liftResult. unfold bind at 1, ret at 1.
    rewrite (IH count (bn + 1)); [| lia | intros n Hn; apply Hslots; lia |].
    + rewrite !logged_logged. reflexivity.
    + rewrite <- Hbad. f_equal. f_equal. lia.
Qed.

(** The run of [getMultipleHeaderData] over headers that carry a slot. *)
Lemma getMultipleHeaderData_run (slotAt : Z -> Z) (from to : Z) (s : Machine) :
  (forall n, from <= n < to -> getSlotFromHeader (rpc_header w n) = Ok (slotAt n)) ->
  getMultipleHeaderData w from to s
  = (Return (map (fun n => headerDataAt w n (slotAt n)) (seqZ from (to - from))),
     logged (concat (map headerRequests (seqZ from (to - from)))) s).
Proof.
  intros Hslots. unfold getMultipleHeaderData.
  rewrite (getMultipleHeaderData_loop_run slotAt)
    by (intros n Hn; apply Hslots; lia).
  simpl. destruct (Z_le_gt_dec (to - from) 0) as [Hle|Hgt].
  - replace (Z.to_nat (to - from)) with 0%nat by lia.
    now rewrite (seqZ_nil from (to - from)) by lia.
  - now rewrite Z2Nat.id by lia.
Qed.

(** X7. [getMultipleHeaderData(api, from, to)] reads the headers of the
    blocks [from .. to - 1]: the upper bound is exclusive.  When these
    headers carry a slot, it returns their data in ascending order after
    asking, block by block, for the hash and then the header; for
    [to <= from] it returns the empty list and asks for nothing. *)
Theorem getMultipleHeaderData_range (slotAt : Z -> Z) (from to : Z) (s : Machine) :
  (forall n, from <= n < to -> getSlotFromHeader (rpc_header w n) = Ok (slotAt n)) ->
  getMultipleHeaderData w from to s
  = (Return (map (fun n => headerDataAt w n (slotAt n)) (seqZ from (to - from))),
     logged (concat (map headerRequests (seqZ from (to - from)))) s) /\
  (to <= from -> getMultipleHeaderData w from to s = (Return [], s)).
Proof.
  intros Hslots.
  pose proof (getMultipleHeaderData_run slotAt from to s Hslots) as Hrun.
  split; [exact Hrun|].
  intros Hle. rewrite Hrun, seqZ_nil by lia. simpl. now rewrite logged_nil.
Qed.

(** X8. A header without a pre-runtime digest stops the loop: the error of
    [getSlotFromHeader] leaves [getMultipleHeaderData] at the first such
    block, after the requests for the blocks up to and including it, and
    the headers read before it are not returned. *)
Theorem getMultipleHeaderData_malformed (slotAt : Z -> Z) (from to bad : Z)
  (e : FunnelError) (s : Machine) :
  from <= bad < to ->
  (forall n, from <= n < bad -> getSlotFromHeader (rpc_header w n) = Ok (slotAt n)) ->
  getSlotFromHeader (rpc_header w bad) = Err e ->
  getMultipleHeaderData w from to s
  = (Throw e, logged (concat (map headerRequests (seqZ from (bad + 1 - from)))) s).
Proof.
  intros Hbad Hslots Herr. unfold getMultipleHeaderData.
  rewrite (getMultipleHeaderData_loop_throws slotAt (Z.to_nat (bad - from)) e).
  - replace (Z.of_nat (S (Z.to_nat (bad - from)))) with (bad + 1 - from) by lia.
    reflexivity.
  - lia.
  - intros n Hn. apply Hslots. lia.
  - replace (from + Z.of_nat (Z.to_nat (bad - from))) with bad by lia. exact Herr.
Qed.

End HeaderRange.

Lemma getMultipleHeaderData_range_witness :
  getMultipleHeaderData (sampleWorld (fun _ => []) (fun _ => 30) None) 7 10 processStart
  = (Return [ {| number := 7; hash := "0xhead"; slot := 7 |};
              {| number := 8; hash := "0xhead"; slot := 8 |};
              {| number := 9; hash := "0xhead"; slot := 9 |} ],
     logged [RpcGetBlockHash 7; RpcGetHeader 7; RpcGetBlockHash 8; RpcGetHeader 8;
             RpcGetBlockHash 9; RpcGetHeader 9] processStart).
Proof.
  destruct (getMultipleHeaderData_range (sampleWorld (fun _ => []) (fun _ => 30) None)
              (fun n => n) 7 10 processStart) as [Hrun _].
  - intros n _. apply sampleWorld_slot.
  - exact Hrun.
Defined.

Lemma getMultipleHeaderData_malformed_witness :
  getMultipleHeaderData (brokenWorld 8 (fun _ => []) (fun _ => 30) None) 7 10 processStart
  = (Throw MalformedHeaderError,
     logged [RpcGetBlockHash 7; RpcGetHeader 7; RpcGetBlockHash 8; RpcGetHeader 8]
            processStart).
Proof.
  apply (getMultipleHeaderData_malformed (brokenWorld 8 (fun _ => []) (fun _ => 30) None)
           (fun n => n)
           7 10 8 MalformedHeaderError processStart).
  - lia.
  - intros n Hn. assert (n = 7) as -> by lia. reflexivity.
  - reflexivity.
Defined.

(** ** The binary search, on any chain *)

Lemma getSlotFromHeader_error (header : Header) (e : FunnelError) :
  getSlotFromHeader header = Err e -> e = MalformedHeaderError.
Proof.
  unfold getSlotFromHeader.
  destruct (List.find isPreRuntime (hdr_logs header)) as [[]|]; congruence.
Qed.

Section SearchOnAnyChain.

Variable w : World.

(** One turn of the loop halves the interval. *)
Lemma halves (low high : Z) (k : nat) :
  low < high -> high - low < 2 ^ Z.of_nat (S k) ->
  low <= (low + high) / 2 < high /\
  high - ((low + high) / 2 + 1) < 2 ^ Z.of_nat k /\
  (low + high) / 2 - low < 2 ^ Z.of_nat k.
Proof.
  intros Hlt Hsize.
  rewrite Nat2Z.inj_succ, Z.pow_succ_r in Hsize by lia.
  pose proof (Z.div_mod (low + high) 2 ltac:(lia)) as Hdiv.
  pose proof (Z.mod_pos_bound (low + high) 2 ltac:(lia)) as Hmod.
  lia.
Qed.

Lemma findBlockByTimestamp_loop_any (fuel : nat) : forall target low high s r s',
  (Z.to_nat (high - low) <= fuel)%nat ->
  findBlockByTimestamp_loop w fuel target low high s = (r, s') ->
  exists probes,
    s' = logged (concat (map headerRequests probes)) s /\
    Forall (fun n => low <= n < high) probes /\
    (forall k : nat, high - low < 2 ^ Z.of_nat k -> (length probes <= k)%nat) /\
    match r with
    | Return found => low <= found /\ (low <= high -> found <= high)
    | Throw e =>
        e = MalformedHeaderError /\
        exists n, last probes = Some n /\ getSlotFromHeader (rpc_header w n) = Err e
    | OutOfFuel => False
    end.
Proof.
  induction fuel as [|fuel IH]; intros target low high s r s' Hfuel Hrun.
  - simpl in Hrun. assert ((low <? high) = false) as Hge by lia.
    rewrite Hge in Hrun. injection Hrun as <- <-.
    exists []. simpl. rewrite logged_nil.
    split; [reflexivity|]. split; [constructor|]. split; [intros; lia|lia].
  - cbn [findBlockByTimestamp_loop] in Hrun.
    destruct (low <? high) eqn:Hlt.
    2:{ injection Hrun as <- <-. exists []. simpl. rewrite logged_nil.
        split; [reflexivity|]. split; [constructor|]. split; [intros; lia|lia]. }
    apply Z.ltb_lt in Hlt.
    set (mid := (low + high) / 2) in *.
    assert (Hmid : low <= mid < high).
    { split; [apply Z.div_le_lower_bound | apply Z.div_lt_upper_bound]; lia. }
    rewrite (bind_Return _ _ _ _ _ (rpc_getBlockHash_run mid s)) in Hrun.
    rewrite (bind_Return _ _ _ _ _ (rpc_getHeader_run w mid _)) in Hrun.
    rewrite logged_logged in Hrun. cbn [app] in Hrun.
    destruct (getSlotFromHeader (rpc_header w mid)) as [sl|e] eqn:Hsl.
    + unfold liftResult in Hrun. unfold bind at 1, ret at 1 in Hrun.
      assert (Hstep : exists low' high',
        findBlockByTimestamp_loop w fuel target low' high'
          (logged [RpcGetBlockHash mid; RpcGetHeader mid] s) = (r, s') /\
        low <= low' /\ high' <= high /\ low' <= high' /\
        (Z.to_nat (high' - low') <= fuel)%nat /\
        (forall k : nat, high - low < 2 ^ Z.of_nat (S k) -> high' - low' < 2 ^ Z.of_nat k)).
      { destruct (sl * 20 <=? target).
        - exists (mid + 1), high. split; [exact Hrun|].
          repeat (split; [lia|]).
          intros k Hk. destruct (halves low high k Hlt Hk) as (_ & H1 & _). exact H1.
        - exists low, mid. split; [exact Hrun|].
          repeat (split; [lia|]).
          intros k Hk. destruct (halves low high k Hlt Hk) as (_ & _ & H2). exact H2. }
      destruct Hstep as (low' & high' & Hrun' & Hlow' & Hhigh' & Horder & Hfuel' & Hsize).
      destruct (IH _ _ _ _ _ _ Hfuel' Hrun') as (probes & Hs' & Hrange & Hcount & Hr).
      exists (mid :: probes). split; [|split; [|split]].
      * rewrite Hs', logged_logged. reflexivity.
      * constructor; [exact Hmid|].
        eapply Forall_impl; [exact Hrange|]. intros n Hn. simpl in Hn. lia.
      * intros k Hk. destruct k as [|k].
        { simpl in Hk. lia. }
        simpl. apply le_n_S. apply Hcount. now apply Hsize.
      * destruct r as [found|e|]; [destruct Hr as [Hf1 Hf2]; specialize (Hf2 Horder); lia| |exact Hr].
        destruct Hr as (He & n & Hlast & Hn). split; [exact He|].
        exists n. split; [|exact Hn].
        destruct probes as [|p probes']; [discriminate Hlast|exact Hlast].
    + unfold liftResult, bind, throw in Hrun. injection Hrun as <- <-.
      exists [mid]. split; [reflexivity|]. split; [constructor; [exact Hmid|constructor]|].
      split.
      * intros k Hk. destruct k as [|k]; [simpl in Hk; lia|simpl; lia].
      * split; [exact (getSlotFromHeader_error _ _ Hsl)|].
        exists mid. split; [reflexivity|exact Hsl].
Qed.

Lemma findBlockByTimestamp_any (target : Z) (s : Machine) :
  exists r s' probes,
    findBlockByTimestamp w target s = (r, s') /\
    cacheEntries s' = cacheEntries s /\
    polls s' = S (polls s) /\
    trace s' = trace s ++ [RpcGetFinalizedHead; RpcGetHeader (rpc_finalized w (polls s))]
                       ++ concat (map headerRequests probes) /\
    Forall (fun n => 1 <= n <= finalizedHeight w s) probes /\
    (forall k : nat, finalizedHeight w s < 2 ^ Z.of_nat k -> (length probes <= k)%nat) /\
    match r with
    | Return found => 1 <= found /\ (0 <= finalizedHeight w s -> found <= finalizedHeight w s + 1)
    | Throw e =>
        e = MalformedHeaderError /\
        exists n, last probes = Some n /\ getSlotFromHeader (rpc_header w n) = Err e
    | OutOfFuel => False
    end.
Proof.
  unfold findBlockByTimestamp. unfold bind at 1. unfold rpc_getFinalizedHead at 1.
  unfold bind at 1. rewrite rpc_getHeader_run.
  fold (finalizedHeight w s).
  match goal with
  | |- context [findBlockByTimestamp_loop w ?f ?t ?l ?h ?s0] =>
      destruct (findBlockByTimestamp_loop w f t l h s0) as [r s'] eqn:Hrun;
      destruct (findBlockByTimestamp_loop_any f t l h s0 r s' ltac:(lia) Hrun)
        as (probes & Hs' & Hrange & Hcount & Hr)
  end.
  exists r, s', probes. split; [reflexivity|]. rewrite Hs'. simpl.
  split; [reflexivity|]. split; [reflexivity|]. split.
  { rewrite <- !app_assoc. reflexivity. }
  split.
  { eapply Forall_impl; [exact Hrange|]. intros n Hn. simpl in Hn. lia. }
  split.
  { intros k Hk. apply Hcount. lia. }
  destruct r as [found|e|]; [lia|exact Hr|exact Hr].
Qed.

(** X9. Whatever the secondary chain answers, [findBlockByTimestamp] ends:
    the interval of the search shrinks at every probe.  It asks only for
    headers of blocks [1 .. H], [H] the number of the finalized head; it
    either returns a block number between 1 and [H + 1], or throws the
    error of [getSlotFromHeader] at a probed header without pre-runtime
    digest, which is the last header it asked for. *)
Theorem findBlockByTimestamp_terminates (target : Z) (s : Machine) :
  exists r s' probes,
    findBlockByTimestamp w target s = (r, s') /\
    trace s' = trace s ++ [RpcGetFinalizedHead; RpcGetHeader (rpc_finalized w (polls s))]
                       ++ concat (map headerRequests probes) /\
    Forall (fun n => 1 <= n <= finalizedHeight w s) probes /\
    match r with
    | Return found => 1 <= found /\ (0 <= finalizedHeight w s -> found <= finalizedHeight w s + 1)
    | Throw e =>
        e = MalformedHeaderError /\
        exists n, last probes = Some n /\ getSlotFromHeader (rpc_header w n) = Err e
    | OutOfFuel => False
    end.
Proof.
  destruct (findBlockByTimestamp_any target s)
    as (r & s' & probes & Hrun & _ & _ & Htrace & Hrange & _ & Hr).
  exists r, s', probes. auto.
Qed.

(** X10. The search is logarithmic: on a chain whose finalized head is below
    [2 ^ k] it probes at most [k] headers, whatever it finds in them. *)
Theorem findBlockByTimestamp_logarithmic (target : Z) (s : Machine) (k : nat) :
  finalizedHeight w s < 2 ^ Z.of_nat k ->
  exists r s' probes,
    findBlockByTimestamp w target s = (r, s') /\
    trace s' = trace s ++ [RpcGetFinalizedHead; RpcGetHeader (rpc_finalized w (polls s))]
                       ++ concat (map headerRequests probes) /\
    (length probes <= k)%nat.
Proof.
  intros Hk.
  destruct (findBlockByTimestamp_any target s)
    as (r & s' & probes & Hrun & _ & _ & Htrace & _ & Hcount & _).
  exists r, s', probes. auto.
Qed.

(** The loop keeps a crossing of the target between [low] and [high]. *)
Lemma findBlockByTimestamp_loop_crossing (slotAt : Z -> Z) (H target : Z) (fuel : nat) :
  (forall n, 1 <= n <= H -> getSlotFromHeader (rpc_header w n) = Ok (slotAt n)) ->
  forall low high s,
    1 <= low <= high -> high <= H + 1 ->
    (Z.to_nat (high - low) <= fuel)%nat ->
    (low = 1 \/ slotAt (low - 1) * 20 <= target) ->
    (high = H + 1 \/ target < slotAt high * 20) ->
    exists found s',
      findBlockByTimestamp_loop w fuel target low high s = (Return found, s') /\
      1 <= found <= H + 1 /\
      (found = 1 \/ slotAt (found - 1) * 20 <= target) /\
      (found = H + 1 \/ target < slotAt found * 20).
Proof.
  intros Hslots.
  induction fuel as [|fuel IH]; intros low high s Hlow Hhigh Hfuel Hbelow Habove.
  - assert (low = high) as -> by lia.
    exists high, s. simpl. rewrite Z.ltb_irrefl. split; [reflexivity|]. auto with zarith.
  - cbn [findBlockByTimestamp_loop].
    destruct (low <? high) eqn:Hlt.
    2:{ apply Z.ltb_ge in Hlt. assert (low = high) as -> by lia.
        exists high, s. split; [reflexivity|]. auto with zarith. }
    apply Z.ltb_lt in Hlt.
    assert (Hmid : low <= (low + high) / 2 < high).
    { split; [apply Z.div_le_lower_bound | apply Z.div_lt_upper_bound]; lia. }
    rewrite (probe_run w _ _ _ (slotAt ((low + high) / 2))) by (apply Hslots; lia).
    destruct (slotAt ((low + high) / 2) * 20 <=? target) eqn:Hcmp.
    + apply Z.leb_le in Hcmp. apply IH; try lia.
      right. now replace ((low + high) / 2 + 1 - 1) with ((low + high) / 2) by lia.
    + apply Z.leb_gt in Hcmp. apply IH; lia.
Qed.

(** X11. A search that needs no order of the slots: when the headers [1 .. H]
    carry slots, the search returns, and what it returns is a place where
    the chain crosses the target: the block below the result (if there is
    one in the range) is at or before the target, and the result itself
    (if it is in the range) is after it. *)
Theorem findBlockByTimestamp_crossing (slotAt : Z -> Z) (target : Z) (s : Machine) :
  0 <= finalizedHeight w s ->
  (forall n, 1 <= n <= finalizedHeight w s ->
     getSlotFromHeader (rpc_header w n) = Ok (slotAt n)) ->
  exists found s',
    findBlockByTimestamp w target s = (Return found, s') /\
    1 <= found <= finalizedHeight w s + 1 /\
    (found = 1 \/ slotAt (found - 1) * 20 <= target) /\
    (found = finalizedHeight w s + 1 \/ target < slotAt found * 20).
Proof.
  intros HH Hslots.
  unfold findBlockByTimestamp. unfold bind at 1. unfold rpc_getFinalizedHead at 1.
  unfold bind at 1. rewrite rpc_getHeader_run.
  fold (finalizedHeight w s).
  apply (findBlockByTimestamp_loop_crossing slotAt (finalizedHeight w s) target);
    auto; lia.
Qed.

End SearchOnAnyChain.

Lemma findBlockByTimestamp_logarithmic_witness :
  exists r s' probes,
    findBlockByTimestamp (sampleWorld (fun _ => []) (fun _ => 30) None) 100 processStart
    = (r, s') /\
    trace s' = [RpcGetFinalizedHead; RpcGetHeader 30] ++ concat (map headerRequests probes) /\
    (length probes <= 5)%nat.
Proof.
  apply (findBlockByTimestamp_logarithmic
           (sampleWorld (fun _ => []) (fun _ => 30) None) 100 processStart 5).
  vm_compute. reflexivity.
Defined.

Lemma findBlockByTimestamp_crossing_witness :
  exists found s',
    findBlockByTimestamp (sampleWorld (fun _ => []) (fun _ => 30) None) 100 processStart
    = (Return found, s') /\
    1 <= found <= 31 /\
    (found = 1 \/ (found - 1) * 20 <= 100) /\
    (found = 31 \/ 100 < found * 20).
Proof.
  apply (findBlockByTimestamp_crossing
           (sampleWorld (fun _ => []) (fun _ => 30) None) (fun n => n) 100 processStart).
  - vm_compute. discriminate.
  - intros n _. apply sampleWorld_slot.
Defined.

(** ** The head refresh *)

Lemma bind_assoc {A B C} (m : M A) (f : A -> M B) (g : B -> M C) s :
  bind (bind m f) g s = bind m (fun a => bind (f a) g) s.
Proof. unfold bind. destruct (m s) as [[a| |] s1]; reflexivity. Qed.

Section HeadRefresh.

Variable w : World.
Variable config : AvailConfig.

Lemma refreshedHead_heldBack s :
  refreshedHead w config s
  = match getSlotFromHeader (rpc_header w (heldBackBlock w config s)) with
    | Ok sl => Ok (headerDataAt w (heldBackBlock w config s) sl)
    | Err e => Err e
    end.
Proof. reflexivity. Qed.

(** The run of [updateLatestBlock] from a machine with state. *)
Lemma updateLatestBlock_cases s st :
  stateOf s = Some st ->
  exists s',
    trace s' = trace s ++ refreshRequests w config s /\
    polls s' = S (polls s) /\
    match refreshedHead w config s with
    | Ok b =>
        updateLatestBlock w config s = (Return (heldBackBlock w config s), s') /\
        stateOf s' = Some (set_latestBlock (Some b) st)
    | Err e =>
        updateLatestBlock w config s = (Throw e, s') /\ stateOf s' = Some st
    end.
Proof.
  intros Hst. apply stateOf_Some in Hst.
  destruct s as [c p t]. simpl in Hst. subst c.
  unfold refreshedHead, refreshRequests, heldBackBlock.
  unfold updateLatestBlock, getState, bind, rpc_getFinalizedHead, rpc_getHeader,
    rpc_getBlockHash, emit, ret, modifyState.
  simpl.
  destruct (getSlotFromHeader _) as [sl|e]; simpl.
  - eexists. split; [|split; [|split; reflexivity]]; simpl.
    + now rewrite <- !app_assoc.
    + reflexivity.
  - eexists. split; [|split; [|split; reflexivity]]; simpl.
    + now rewrite <- !app_assoc.
    + reflexivity.
Qed.

(** X12. [updateLatestBlock] holds the finalized head back by the confirmation
    depth, but never reads below block 1.  Without correlation state it
    throws before any request.  With state it makes its four requests; it
    then returns the number it asked for and caches the header it got, or,
    when that header has no pre-runtime digest, throws and leaves the
    cached head as it was. *)
Theorem updateLatestBlock_outcomes (s : Machine) :
  1 <= heldBackBlock w config s /\
  match stateOf s with
  | None => updateLatestBlock w config s = (Throw UninitializedStateError, s)
  | Some st =>
      exists s',
        trace s' = trace s ++ refreshRequests w config s /\
        polls s' = S (polls s) /\
        match getSlotFromHeader (rpc_header w (heldBackBlock w config s)) with
        | Ok sl =>
            updateLatestBlock w config s = (Return (heldBackBlock w config s), s') /\
            stateOf s' = Some (set_latestBlock
                                 (Some (headerDataAt w (heldBackBlock w config s) sl)) st)
        | Err e =>
            updateLatestBlock w config s = (Throw e, s') /\
            e = MalformedHeaderError /\
            stateOf s' = Some st
        end
  end.
Proof.
  split; [unfold heldBackBlock; lia|].
  destruct (stateOf s) as [st|] eqn:Hst.
  - destruct (updateLatestBlock_cases s st Hst) as (s' & Htrace & Hpolls & Hrun).
    exists s'. split; [exact Htrace|]. split; [exact Hpolls|].
    rewrite refreshedHead_heldBack in Hrun.
    destruct (getSlotFromHeader _) as [sl|e] eqn:Hsl; [exact Hrun|].
    destruct Hrun as [Hrun Hst']. split; [exact Hrun|].
    split; [exact (getSlotFromHeader_error _ _ Hsl)|exact Hst'].
  - unfold updateLatestBlock, bind, getState. unfold stateOf in Hst.
    destruct (cacheEntries s) as [[[st|]]|]; [discriminate|reflexivity|reflexivity].
Qed.

(** *** Bootstrap *)

Lemma refreshedHead_error s e : refreshedHead w config s = Err e -> e = MalformedHeaderError.
Proof.
  rewrite refreshedHead_heldBack.
  destruct (getSlotFromHeader _) as [sl|e'] eqn:Hsl; [discriminate|].
  intros [= <-]. exact (getSlotFromHeader_error _ _ Hsl).
Qed.

(** The end of [recoverState]: the head refresh, from a machine with
    state. *)
Lemma recoverState_tail s st :
  stateOf s = Some st ->
  exists s',
    trace s' = trace s ++ refreshRequests w config s /\
    match refreshedHead w config s with
    | Ok b =>
        (_ <- updateLatestBlock w config ;; ret tt) s = (Return tt, s') /\
        stateOf s' = Some (set_latestBlock (Some b) st)
    | Err e =>
        (_ <- updateLatestBlock w config ;; ret tt) s = (Throw MalformedHeaderError, s') /\
        stateOf s' = Some st
    end.
Proof.
  intros Hst.
  destruct (updateLatestBlock_cases s st Hst) as (s' & Htrace & _ & Hrun).
  exists s'. split; [exact Htrace|].
  destruct (refreshedHead w config s) as [b|e] eqn:Hhead.
  - destruct Hrun as [Hrun Hst']. split; [|exact Hst'].
    now rewrite (bind_Return _ _ _ _ _ Hrun).
  - destruct Hrun as [Hrun Hst']. split; [|exact Hst'].
    unfold bind. rewrite Hrun. now rewrite (refreshedHead_error s e Hhead).
Qed.

(** The machine on which the bootstrap runs its search: the cache holds a
    fresh entry, and the starting block and the client have been asked
    for. *)
Lemma recoverState_unfold_first h s :
  stateOf s = None ->
  recoverState w config h s
  = (mapped <- findBlockByTimestamp w (applyDelay config (web3_timestamp w h)) ;;
     setEntry (initialize (rpc config) mapped) ;;;
     _ <- updateLatestBlock w config ;;
     ret tt)
      (logged [Web3GetBlock h; CreateApi (rpc config)] (withEntry newEntry s)).
Proof.
  intros Hst. unfold recoverState.
  assert (Hentry : getOrCreateEntry s = (Return newEntry, withEntry newEntry s)).
  { unfold getOrCreateEntry, stateOf in *.
    destruct s as [[[[st|]]|] p t]; simpl in *; [discriminate|reflexivity|reflexivity]. }
  rewrite (bind_Return _ _ _ _ _ Hentry).
  cbn [initialized newEntry entry_state negb].
  rewrite bind_assoc.
  assert (Hweb : web3_getBlock w h (withEntry newEntry s)
                 = (Return (web3_timestamp w h),
                    logged [Web3GetBlock h] (withEntry newEntry s))) by reflexivity.
  rewrite (bind_Return _ _ _ _ _ Hweb). rewrite bind_assoc.
  assert (Hapi : createApi (rpc config) (logged [Web3GetBlock h] (withEntry newEntry s))
                 = (Return (rpc config),
                    logged [CreateApi (rpc config)]
                      (logged [Web3GetBlock h] (withEntry newEntry s)))) by reflexivity.
  rewrite (bind_Return _ _ _ _ _ Hapi). rewrite bind_assoc, logged_logged.
  reflexivity.
Qed.

(** X13. The first call: with no correlation state in the cache,
    [recoverState] asks the primary node for the starting block, creates
    the client, searches the secondary chain for the delayed timestamp of
    the starting block, initializes the entry with the client and the
    block found, and refreshes the head. *)
Theorem recoverState_first_call (h : Z) (s : Machine) (mapped : Z) (s1 : Machine)
  (b : HeaderData) :
  stateOf s = None ->
  findBlockByTimestamp w (applyDelay config (web3_timestamp w h))
    (logged [Web3GetBlock h; CreateApi (rpc config)] (withEntry newEntry s))
  = (Return mapped, s1) ->
  refreshedHead w config s1 = Ok b ->
  exists s',
    recoverState w config h s = (Return tt, s') /\
    stateOf s' = entry_updateLatestBlock b <$> entry_state (initialize (rpc config) mapped) /\
    trace s' = trace s1 ++ refreshRequests w config s1.
Proof.
  intros Hst Hfind Hhead.
  rewrite (recoverState_unfold_first h s Hst).
  rewrite (bind_Return _ _ _ _ _ Hfind).
  unfold bind at 1. unfold setEntry at 1.
  set (s2 := {| cacheEntries := Some (initialize (rpc config) mapped);
                polls := polls s1; trace := trace s1 |}).
  destruct (recoverState_tail s2 _ eq_refl) as (s' & Htrace & Hrun).
  change (refreshedHead w config s2) with (refreshedHead w config s1) in Hrun.
  rewrite Hhead in Hrun. destruct Hrun as [Hrun Hst'].
  exists s'. split; [exact Hrun|]. split; [exact Hst'|exact Htrace].
Qed.



End HeadRefresh.

Lemma recoverState_first_call_witness :
  let world := sampleWorld (fun _ => []) (fun _ => 30) None in
  exists s',
    recoverState world sampleConfig 5 processStart = (Return tt, s') /\
    stateOf s'
    = Some {| latestBlock_ := Some {| number := 30; hash := "0xhead"; slot := 30 |};
              startingBlockHeight := 6;
              lastBlock := None;
              bufferedChainData := [];
              timestampToBlockNumber := [];
              lastMaxSlot := 0%Q;
              api := "ws://avail" |}.
Proof.
  intros world.
  eassert (Hfind : findBlockByTimestamp world
                     (applyDelay sampleConfig (web3_timestamp world 5))
                     (logged [Web3GetBlock 5; CreateApi (rpc sampleConfig)]
                             (withEntry newEntry processStart))
                   = (Return 6, _)) by (vm_compute; reflexivity).
  destruct (recoverState_first_call world sampleConfig 5 processStart 6 _
              {| number := 30; hash := "0xhead"; slot := 30 |} eq_refl Hfind eq_refl)
    as (s' & Hrun & Hst & _).
  exists s'. split; [exact Hrun|exact Hst].
Defined.

(** ** Presync without an entry or without state *)

Section PresyncEdges.

Variable w : World.
Variable config : AvailConfig.
Variable chainName : string.

(** X15. The edges of [readPresyncData].  A request with no entry for this
    network is answered with the base funnel's answer, and the cache is not
    even read, so this works before any state exists.  With an entry but
    no state, the call throws after it has delegated to the base funnel.
    And no call, whatever its outcome, changes the cache or asks anything
    but the base funnel once and then the light client. *)
Theorem readPresyncData_edges (args : list PresyncArg) (s : Machine) :
  (List.find (fun arg => String.eqb (arg_network arg) chainName) args = None ->
   readPresyncData w config chainName args s
   = (Return (base_presync w args), logged [BaseReadPresyncData args] s)) /\
  (is_Some (List.find (fun arg => String.eqb (arg_network arg) chainName) args) ->
   stateOf s = None ->
   readPresyncData w config chainName args s
   = (Throw UninitializedStateError, logged [BaseReadPresyncData args] s)) /\
  (forall r s',
     readPresyncData w config chainName args s = (r, s') ->
     cacheEntries s' = cacheEntries s /\
     exists blocks,
       trace s' = trace s ++ BaseReadPresyncData args
                               :: map (HttpGet (lightClient config)) blocks).
Proof.
  assert (Hbase : base_readPresyncData w args s
                  = (Return (base_presync w args), logged [BaseReadPresyncData args] s))
    by reflexivity.
  split; [|split].
  - intros Hfind. unfold readPresyncData.
    now rewrite (bind_Return _ _ _ _ _ Hbase), Hfind.
  - intros [arg Hfind] Hst. unfold readPresyncData.
    rewrite (bind_Return _ _ _ _ _ Hbase), Hfind.
    unfold bind, getState. unfold stateOf in Hst. simpl.
    destruct (cacheEntries s) as [[[st|]]|]; [discriminate|reflexivity|reflexivity].
  - intros r s' Hrun.
    split; [exact (quiet_readPresyncData w config chainName args _ _ _ Hrun)|].
    unfold readPresyncData in Hrun.
    rewrite (bind_Return _ _ _ _ _ Hbase) in Hrun.
    destruct (List.find _ args) as [arg|].
    2:{ injection Hrun as _ <-. exists []. reflexivity. }
    apply bind_inv in Hrun as [(st & s1 & Hget & Hrun)|[(e & Hget & _)|[Hget _]]].
    + assert (s1 = logged [BaseReadPresyncData args] s) as ->.
      { unfold getState in Hget.
        destruct (cacheEntries _) as [[[st'|]]|]; now injection Hget. }
      destruct (_ >=? _).
      { injection Hrun as _ <-. exists []. reflexivity. }
      destruct (_ >? _).
      { injection Hrun as _ <-. exists []. reflexivity. }
      rewrite (bind_Return _ _ _ _ _ (getSubmittedData_run w _ _ _ _ _)) in Hrun.
      injection Hrun as _ <-. eexists. simpl. rewrite <- app_assoc. reflexivity.
    + assert (s' = logged [BaseReadPresyncData args] s) as ->.
      { unfold getState in Hget.
        destruct (cacheEntries _) as [[[st'|]]|]; now injection Hget. }
      exists []. reflexivity.
    + unfold getState in Hget.
      destruct (cacheEntries _) as [[[st'|]]|]; discriminate Hget.
Qed.

End PresyncEdges.

(** ** The first part of [readData] *)

Section ReadDataPrefix.

Variable w : World.
Variable config : AvailConfig.
Variable chainName : string.

Lemma refreshRequests_same_polls s s' :
  polls s' = polls s -> refreshRequests w config s' = refreshRequests w config s.
Proof. unfold refreshRequests, heldBackBlock. now intros ->. Qed.

Lemma fillBuffer_full blockHeight s st :
  stateOf s = Some st ->
  exists s1,
    (match bufferedChainData st with
     | [] =>
         baseData <- base_readData w blockHeight ;;
         modifyState (fun st0 =>
           set_bufferedChainData (bufferedChainData st0 ++ baseData) st0)
     | _ :: _ => ret tt
     end) s = (Return tt, s1) /\
    stateOf s1 = Some (set_bufferedChainData (pendingBlocks w blockHeight st) st) /\
    polls s1 = polls s /\
    trace s1 = trace s ++ match bufferedChainData st with
                          | [] => [BaseReadData blockHeight]
                          | _ :: _ => []
                          end.
Proof.
  intros Hst. unfold pendingBlocks.
  destruct (bufferedChainData st) as [|x l] eqn:Hbuf.
  - unfold base_readData. unfold bind at 1. unfold bind at 1.
    rewrite emit_logged. cbn [ret].
    erewrite modifyState_withState by (rewrite stateOf_logged; exact Hst).
    eexists. split; [reflexivity|]. rewrite Hbuf. simpl. repeat split.
  - exists s. split; [reflexivity|]. rewrite <- Hbuf, set_bufferedChainData_id.
    split; [exact Hst|]. split; [reflexivity|]. now rewrite app_nil_r.
Qed.

(** Up to the test for an empty batch: the state, the trace and what is
    left to run. *)
Lemma readData_prefix_full fuel blockHeight s st b :
  stateOf s = Some st ->
  refreshedHead w config s = Ok b ->
  let pending := pendingBlocks w blockHeight st in
  let chainData := List.filter (passesFilter config (slot b * 20)) pending in
  exists s3,
    stateOf s3
    = Some (set_bufferedChainData (drop (length chainData) pending)
              (set_latestBlock (Some b) (set_bufferedChainData pending st))) /\
    trace s3 = trace s ++ prefixRequests w config blockHeight st s /\
    polls s3 = S (polls s) /\
    readData w config chainName fuel blockHeight s
    = match chainData with
      | [] => (Return [], s3)
      | first :: _ =>
          correlate w config chainName fuel chainData first (List.last chainData first) s3
      end.
Proof.
  intros Hst Hhead pending chainData.
  destruct (fillBuffer_full blockHeight s st Hst) as (s1 & Hpush & Hst1 & Hpolls1 & Htrace1).
  destruct (updateLatestBlock_cases w config s1 _ Hst1) as (s2 & Htrace2 & Hpolls2 & Hupd).
  rewrite (refreshedHead_same_polls w config s s1 Hpolls1), Hhead in Hupd.
  destruct Hupd as [Hupd Hst2].
  unfold readData.
  rewrite (bind_Return _ _ _ _ _ (getState_run s st Hst)).
  rewrite (bind_Return _ _ _ _ _ Hpush).
  rewrite (bind_Return _ _ _ _ _ Hupd).
  rewrite (bind_Return _ _ _ _ _ (latestBlock_run s2 _ b Hst2 eq_refl)).
  rewrite (bind_Return _ _ _ _ _ (getState_run s2 _ Hst2)).
  cbv zeta. cbn [bufferedChainData set_latestBlock set_bufferedChainData].
  fold pending. fold chainData.
  rewrite (bind_Return _ _ _ _ _ (modifyState_withState _ s2 _ Hst2)).
  eexists. split; [apply stateOf_withState|].
  split; [|split].
  - simpl. rewrite Htrace2, Htrace1, (refreshRequests_same_polls s s1 Hpolls1).
    unfold prefixRequests. rewrite <- app_assoc.
    destruct (bufferedChainData st); reflexivity.
  - simpl. lia.
  - destruct chainData; reflexivity.
Qed.

(** [readData] when the head refresh fails. *)
Lemma readData_refresh_fails fuel blockHeight s st e :
  stateOf s = Some st ->
  refreshedHead w config s = Err e ->
  exists s',
    readData w config chainName fuel blockHeight s = (Throw MalformedHeaderError, s') /\
    stateOf s' = Some (set_bufferedChainData (pendingBlocks w blockHeight st) st) /\
    trace s' = trace s ++ prefixRequests w config blockHeight st s.
Proof.
  intros Hst Hhead.
  destruct (fillBuffer_full blockHeight s st Hst) as (s1 & Hpush & Hst1 & Hpolls1 & Htrace1).
  destruct (updateLatestBlock_cases w config s1 _ Hst1) as (s2 & Htrace2 & Hpolls2 & Hupd).
  rewrite (refreshedHead_same_polls w config s s1 Hpolls1), Hhead in Hupd.
  destruct Hupd as [Hupd Hst2].
  exists s2. split; [|split].
  - unfold readData.
    rewrite (bind_Return _ _ _ _ _ (getState_run s st Hst)).
    rewrite (bind_Return _ _ _ _ _ Hpush).
    unfold bind at 1. rewrite Hupd. now rewrite (refreshedHead_error w config s e Hhead).
  - exact Hst2.
  - rewrite Htrace2, Htrace1, (refreshRequests_same_polls s s1 Hpolls1).
    unfold prefixRequests. rewrite <- app_assoc.
    destruct (bufferedChainData st); reflexivity.
Qed.

(** X16. When the head refresh fails, [readData] throws, and the blocks it
    has taken from the base funnel stay in the buffer, with everything else
    of the state as it was.  A later call therefore works on the same
    pending blocks, whatever block height it is given, and (the blocks
    being there) starts with the head refresh, without asking the base
    funnel again. *)
Theorem readData_failed_refresh (fuel : nat) (blockHeight : Z) (s : Machine)
  (st : AvailFunnelCacheEntryState) (e : FunnelError) :
  stateOf s = Some st ->
  refreshedHead w config s = Err e ->
  let pending := pendingBlocks w blockHeight st in
  exists s',
    readData w config chainName fuel blockHeight s = (Throw MalformedHeaderError, s') /\
    stateOf s' = Some (set_bufferedChainData pending st) /\
    trace s' = trace s ++ prefixRequests w config blockHeight st s /\
    (pending <> [] ->
     forall blockHeight' s'',
       pendingBlocks w blockHeight' (set_bufferedChainData pending st) = pending /\
       prefixRequests w config blockHeight' (set_bufferedChainData pending st) s''
       = refreshRequests w config s'').
Proof.
  intros Hst Hhead pending.
  destruct (readData_refresh_fails fuel blockHeight s st e Hst Hhead)
    as (s' & Hrun & Hst' & Htrace).
  exists s'. split; [exact Hrun|]. split; [exact Hst'|]. split; [exact Htrace|].
  intros Hne blockHeight' s''.
  unfold pendingBlocks at 1, prefixRequests. cbn [bufferedChainData set_bufferedChainData].
  destruct pending as [|x l]; [congruence|]. split; reflexivity.
Qed.

(** In a buffer ordered by timestamp the blocks that pass the filter are
    a prefix. *)
Lemma filter_take_sorted (T : Z) (pending : list ChainData) :
  Sorted (fun a b => timestamp a <= timestamp b) pending ->
  List.filter (passesFilter config T) pending
  = take (length (List.filter (passesFilter config T) pending)) pending.
Proof.
  intros Hsorted. apply Sorted_StronglySorted in Hsorted; [|intros x y z; lia].
  induction Hsorted as [|a l Hl IH Ha]; [reflexivity|].
  simpl. destruct (passesFilter config T a) eqn:Hpass.
  - simpl. now rewrite <- IH.
  - replace (List.filter (passesFilter config T) l) with (@nil ChainData); [reflexivity|].
    symmetry. clear IH. induction l as [|x l IHl]; [reflexivity|].
    simpl. inversion Ha as [|? ? Hax Hal]; subst. inversion Hl; subst.
    replace (passesFilter config T x) with false; [auto|].
    unfold passesFilter, applyDelay in *. lia.
Qed.

Lemma Forall2_sameBlock_refl l : Forall2 sameBlock l l.
Proof. induction l; constructor; auto using sameBlock_refl. Qed.

(** X17. No primary block is lost, repeated or reordered between the buffer
    and the batches when the pending blocks come in timestamp order: after
    a call that returns, the batch followed by the new buffer is the list
    of pending blocks (the buffer carried over, or else the fresh blocks of
    the base funnel), with extension datums added at most. *)
Theorem readData_conserves_blocks (fuel : nat) (blockHeight : Z) (s : Machine)
  (st : AvailFunnelCacheEntryState) (batch : list ChainData) (s' : Machine) :
  stateOf s = Some st ->
  Sorted (fun a b => timestamp a <= timestamp b) (pendingBlocks w blockHeight st) ->
  readData w config chainName fuel blockHeight s = (Return batch, s') ->
  exists st',
    stateOf s' = Some st' /\
    Forall2 sameBlock (batch ++ bufferedChainData st') (pendingBlocks w blockHeight st).
Proof.
  intros Hst Hsorted Hrun.
  destruct (refreshedHead w config s) as [b|e] eqn:Hhead.
  2:{ destruct (readData_refresh_fails fuel blockHeight s st e Hst Hhead)
        as (s2 & Hthrow & _).
      rewrite Hthrow in Hrun. discriminate Hrun. }
  destruct (readData_prefix_full fuel blockHeight s st b Hst Hhead)
    as (s3 & Hst3 & _ & _ & Hread).
  cbv zeta in Hread, Hst3.
  set (pending := pendingBlocks w blockHeight st) in *.
  set (chainData := List.filter (passesFilter config (slot b * 20)) pending) in *.
  rewrite Hread in Hrun.
  assert (Hsplit : chainData ++ drop (length chainData) pending = pending).
  { unfold chainData at 1. rewrite (filter_take_sorted (slot b * 20) pending Hsorted).
    fold chainData. apply take_drop. }
  destruct chainData as [|first rest] eqn:Hcd.
  - injection Hrun as <- <-. eexists. split; [exact Hst3|].
    simpl in *. rewrite Hsplit. apply Forall2_sameBlock_refl.
  - pose proof (correlate_returns _ _ _ _ _ _ _ _ _ _ Hrun) as Hsame.
    pose proof (keeps_correlate w config chainName bufferedChainData
                  (fun _ _ => eq_refl) (fun _ _ => eq_refl)
                  (fun _ _ => eq_refl) (fun _ _ => eq_refl)
                  fuel _ _ _ _ _ _ Hrun) as Hkeep.
    destruct (kept_state _ _ _ _ Hkeep Hst3) as (st' & Hst' & Hbuf).
    exists st'. split; [exact Hst'|].
    rewrite Hbuf. cbn [bufferedChainData set_bufferedChainData].
    rewrite <- Hsplit at 2.
    apply Forall2_app; [exact Hsame|apply Forall2_sameBlock_refl].
Qed.

(** X18. A failure after the filter costs the batch.  When the head refresh
    has succeeded and [readData] still throws, the throw comes from the
    correlation of a batch that is not empty, and the blocks of that batch
    have already been shifted off the buffer: they are neither returned
    nor kept. *)
Theorem readData_failure_drops_batch (fuel : nat) (blockHeight : Z) (s : Machine)
  (st : AvailFunnelCacheEntryState) (b : HeaderData) (e : FunnelError) (s' : Machine) :
  stateOf s = Some st ->
  refreshedHead w config s = Ok b ->
  readData w config chainName fuel blockHeight s = (Throw e, s') ->
  let pending := pendingBlocks w blockHeight st in
  let chainData := List.filter (passesFilter config (slot b * 20)) pending in
  chainData <> [] /\
  exists st',
    stateOf s' = Some st' /\
    bufferedChainData st' = drop (length chainData) pending.
Proof.
  intros Hst Hhead Hrun pending chainData.
  destruct (readData_prefix_full fuel blockHeight s st b Hst Hhead)
    as (s3 & Hst3 & _ & _ & Hread).
  cbv zeta in Hread, Hst3. fold pending in Hread, Hst3. fold chainData in Hread, Hst3.
  rewrite Hread in Hrun.
  destruct chainData as [|first rest] eqn:Hcd; [discriminate Hrun|].
  split; [discriminate|].
  pose proof (keeps_correlate w config chainName bufferedChainData
                (fun _ _ => eq_refl) (fun _ _ => eq_refl)
                (fun _ _ => eq_refl) (fun _ _ => eq_refl)
                fuel _ _ _ _ _ _ Hrun) as Hkeep.
  destruct (kept_state _ _ _ _ Hkeep Hst3) as (st' & Hst' & Hbuf).
  exists st'. split; [exact Hst'|]. rewrite Hbuf. reflexivity.
Qed.

End ReadDataPrefix.

(** ** The errors of [readData] *)

Section Steady.

Variable w : World.
Variable config : AvailConfig.
Variable chainName : string.




























End Steady.

(** ** The requests of [readData] *)

Section Emits.

Variable w : World.
Variable config : AvailConfig.
Variable chainName : string.
Variable P : Event -> Prop.

Lemma emits_bind {A B} (m : M A) (k : A -> M B) :
  emits P m -> (forall a, emits P (k a)) -> emits P (bind m k).
Proof.
  intros Hm Hk s r s' Hrun.
  apply bind_inv in Hrun as [(a & s1 & Hrun1 & Hrun2)|[(e & Hrun1 & _)|[Hrun1 _]]].
  - destruct (Hm _ _ _ Hrun1) as (events1 & Ht1 & HP1).
    destruct (Hk a _ _ _ Hrun2) as (events2 & Ht2 & HP2).
    exists (events1 ++ events2). split; [now rewrite Ht2, Ht1, app_assoc|].
    apply Forall_app. auto.
  - exact (Hm _ _ _ Hrun1).
  - exact (Hm _ _ _ Hrun1).
Qed.

(** A run that leaves the trace alone. *)
Lemma emits_silent {A} (m : M A) :
  (forall s r s', m s = (r, s') -> trace s' = trace s) -> emits P m.
Proof.
  intros Hm s r s' Hrun. exists []. rewrite app_nil_r.
  split; [exact (Hm _ _ _ Hrun)|constructor].
Qed.

Lemma emits_ret {A} (a : A) : emits P (ret a).
Proof. apply emits_silent. now intros s r s' [= _ <-]. Qed.

Lemma emits_outOfFuel {A} : emits P (@outOfFuel A).
Proof. apply emits_silent. now intros s r s' [= _ <-]. Qed.

Lemma emits_liftResult {A} (r : Result A) : emits P (liftResult r).
Proof. apply emits_silent. destruct r; now intros s r' s' [= _ <-]. Qed.

Lemma emits_getState : emits P getState.
Proof.
  apply emits_silent. intros s r s' Hrun. unfold getState in Hrun.
  destruct (cacheEntries s) as [[[st|]]|]; now injection Hrun as _ <-.
Qed.

Lemma emits_latestBlock : emits P latestBlock.
Proof.
  apply emits_silent. intros s r s' Hrun. unfold latestBlock in Hrun.
  destruct (cacheEntries s) as [[[[[b|] ? ? ? ? ? ?]|]]|]; now injection Hrun as _ <-.
Qed.

Lemma emits_modifyState g : emits P (modifyState g).
Proof.
  apply emits_silent. intros s r s' Hrun. unfold modifyState in Hrun.
  destruct (cacheEntries s) as [[[st|]]|]; now injection Hrun as _ <-.
Qed.

Lemma emits_emit e : P e -> emits P (emit e).
Proof.
  intros He s r s' [= _ <-]. exists [e]. split; [reflexivity|]. now constructor.
Qed.

Ltac emits_step :=
  first
    [ apply emits_ret | apply emits_outOfFuel | apply emits_liftResult
    | apply emits_getState | apply emits_latestBlock | apply emits_modifyState
    | apply emits_bind; [|intros ?] ].

Hypothesis P_head : P RpcGetFinalizedHead.
Hypothesis P_hash : forall n, P (RpcGetBlockHash n).
Hypothesis P_header : forall n, P (RpcGetHeader n).

Lemma emits_rpc_getFinalizedHead : emits P (rpc_getFinalizedHead w).
Proof.
  intros s r s' [= _ <-]. exists [RpcGetFinalizedHead].
  split; [reflexivity|]. now constructor.
Qed.

Lemma emits_rpc_getBlockHash n : emits P (rpc_getBlockHash n).
Proof. unfold rpc_getBlockHash. apply emits_bind; [now apply emits_emit|intros ?; emits_step]. Qed.

Lemma emits_rpc_getHeader n : emits P (rpc_getHeader w n).
Proof. unfold rpc_getHeader. apply emits_bind; [now apply emits_emit|intros ?; emits_step]. Qed.

Lemma emits_updateLatestBlock : emits P (updateLatestBlock w config).
Proof.
  unfold updateLatestBlock.
  apply emits_bind; [apply emits_getState|intros ?].
  apply emits_bind; [apply emits_rpc_getFinalizedHead|intros ?].
  apply emits_bind; [apply emits_rpc_getHeader|intros ?].
  apply emits_bind; [apply emits_rpc_getBlockHash|intros ?].
  apply emits_bind; [apply emits_rpc_getHeader|intros ?].
  repeat emits_step.
Qed.

Lemma emits_getMultipleHeaderData_loop count : forall bn results,
  emits P (getMultipleHeaderData_loop w count bn results).
Proof.
  induction count as [|count IH]; intros bn results; simpl.
  - apply emits_ret.
  - apply emits_bind; [apply emits_rpc_getBlockHash|intros ?].
    apply emits_bind; [apply emits_rpc_getHeader|intros ?].
    apply emits_bind; [apply emits_liftResult|intros ?]. apply IH.
Qed.

Lemma emits_findBlockByTimestamp target : emits P (findBlockByTimestamp w target).
Proof.
  unfold findBlockByTimestamp.
  apply emits_bind; [apply emits_rpc_getFinalizedHead|intros ?].
  apply emits_bind; [apply emits_rpc_getHeader|intros hd].
  generalize (Z.to_nat (hdr_number hd + 1 - 1)) as fuel.
  generalize 1 at 1 as low. generalize (hdr_number hd + 1) as high.
  intros high low fuel. revert low high.
  induction fuel as [|fuel IH]; intros low high; simpl.
  - destruct (low <? high); [apply emits_outOfFuel|apply emits_ret].
  - destruct (low <? high); [|apply emits_ret].
    apply emits_bind; [apply emits_rpc_getBlockHash|intros ?].
    apply emits_bind; [apply emits_rpc_getHeader|intros ?].
    apply emits_bind; [apply emits_liftResult|intros sl].
    destruct (sl * 20 <=? target); apply IH.
Qed.

Hypothesis P_delay : forall ms, P (Delay ms).

Lemma emits_waitForBlocks fuel : forall n, emits P (waitForBlocks w config fuel n).
Proof.
  induction fuel as [|fuel IH]; intros n; simpl.
  - apply emits_outOfFuel.
  - apply emits_bind; [apply emits_updateLatestBlock|intros d].
    destruct (d =? n); [|apply emits_ret].
    apply emits_bind; [now apply emits_emit|intros ?]. apply IH.
Qed.

Lemma emits_fetchHeaders fuel : forall maxSlot headers,
  emits P (fetchHeaders w config fuel maxSlot headers).
Proof.
  induction fuel as [|fuel IH]; intros maxSlot headers.
  - apply emits_outOfFuel.
  - cbn [fetchHeaders].
    apply emits_bind; [apply emits_latestBlock|intros latest].
    apply emits_bind; [apply emits_getState|intros st].
    apply emits_bind; [apply emits_getMultipleHeaderData_loop|intros hs].
    apply emits_bind.
    { destruct (last (headers ++ hs)); [apply emits_modifyState|apply emits_ret]. }
    intros _.
    destruct (reachesMaxSlot maxSlot (headers ++ hs)); [apply emits_ret|].
    destruct (negb _); [apply IH|].
    apply emits_bind; [apply emits_waitForBlocks|intros _]. apply IH.
Qed.

Hypothesis P_http : forall lc n, P (HttpGet lc n).

Lemma emits_getSubmittedData lc from to net : emits P (getSubmittedData w lc from to net).
Proof.
  intros s r s' Hrun. rewrite (getSubmittedData_run w lc net from to s) in Hrun.
  injection Hrun as _ <-. eexists. split; [reflexivity|].
  apply Forall_map. apply List.Forall_forall. intros n _. apply P_http.
Qed.

(** [correlate] after the cursor has been resolved. *)
Ltac emits_correlate_tail :=
  apply emits_bind; [apply emits_fetchHeaders|intros ?];
  apply emits_bind; [apply emits_modifyState|intros ?];
  apply emits_bind; [apply emits_getState|intros ?];
  apply emits_bind; [apply emits_modifyState|intros ?];
  (destruct (trimConsumed _ _) as [|[? ?] ?]; [apply emits_ret|]);
  apply emits_bind; [apply emits_modifyState|intros ?];
  (destruct (negb (Qle_bool _ _)); [apply emits_ret|]);
  match goal with |- context [if ?c then _ else _] => destruct c end;
    [apply emits_ret|];
  apply emits_bind; [apply emits_getSubmittedData|intros ?];
  apply emits_ret.

Lemma emits_correlate_set fuel chainData first final s st r s' :
  stateOf s = Some st ->
  lastBlockUnset st = false ->
  correlate w config chainName fuel chainData first final s = (r, s') ->
  exists events, trace s' = trace s ++ events /\ Forall P events.
Proof.
  intros Hst Hset Hrun. unfold correlate in Hrun.
  rewrite (bind_Return _ _ _ _ _ (resolveLastBlock_set w config chainName first s st Hst Hset))
    in Hrun.
  match type of Hrun with
  | ?tail _ = _ => assert (Htail : emits P tail)
  end.
  { emits_correlate_tail. }
  exact (Htail _ _ _ Hrun).
Qed.

Hypothesis P_db : forall net, P (DbLatestProcessedCde net).
Hypothesis P_web3 : forall n, P (Web3GetBlock n).

Lemma emits_resolveLastBlock first : emits P (resolveLastBlock w config chainName first).
Proof.
  unfold resolveLastBlock.
  apply emits_bind; [apply emits_getState|intros st].
  destruct (lastBlockUnset st); [|apply emits_ret].
  apply emits_bind.
  { unfold getLatestProcessedCdeBlockheight.
    apply emits_bind; [now apply emits_emit|intros ?; apply emits_ret]. }
  intros [p|]; [apply emits_modifyState|].
  apply emits_bind.
  { unfold web3_getBlock. apply emits_bind; [now apply emits_emit|intros ?; apply emits_ret]. }
  intros ?.
  apply emits_bind; [apply emits_findBlockByTimestamp|intros ?].
  apply emits_modifyState.
Qed.

Lemma emits_correlate fuel chainData first final :
  emits P (correlate w config chainName fuel chainData first final).
Proof.
  unfold correlate.
  apply emits_bind; [apply emits_resolveLastBlock|intros ?].
  emits_correlate_tail.
Qed.

End Emits.

Section Requests.

Variable w : World.
Variable config : AvailConfig.
Variable chainName : string.

(** X20. What [readData] asks, and whom.  The base funnel is asked exactly
    when the buffer is empty, once, before anything else; the head refresh
    follows.  Nothing that comes after is a request to the base funnel.
    And when the resume cursor is already set (and not zero), nothing that
    comes after asks the database for the persisted height or the primary
    node for a block: the cursor is resolved once. *)
Theorem readData_requests (fuel : nat) (blockHeight : Z) (s : Machine)
  (st : AvailFunnelCacheEntryState) (r : Outcome (list ChainData)) (s' : Machine) :
  stateOf s = Some st ->
  readData w config chainName fuel blockHeight s = (r, s') ->
  exists rest,
    trace s' = trace s ++ prefixRequests w config blockHeight st s ++ rest /\
    Forall (fun e => isBaseRequest e = false) rest /\
    (lastBlockUnset st = false -> Forall (fun e => isCursorRequest e = false) rest).
Proof.
  intros Hst Hrun.
  destruct (refreshedHead w config s) as [b|e] eqn:Hhead.
  2:{ destruct (readData_refresh_fails w config chainName fuel blockHeight s st e
                  Hst Hhead) as (s2 & Hthrow & _ & Htrace).
      rewrite Hthrow in Hrun. injection Hrun as <- <-.
      exists []. rewrite app_nil_r. split; [exact Htrace|]. split; constructor. }
  destruct (readData_prefix_full w config chainName fuel blockHeight s st b Hst Hhead)
    as (s3 & Hst3 & Htrace3 & _ & Hread).
  cbv zeta in Hread, Hst3. rewrite Hread in Hrun.
  destruct (List.filter _ _) as [|first rest0].
  { injection Hrun as <- <-.
    exists []. rewrite app_nil_r. split; [exact Htrace3|]. split; constructor. }
  destruct (emits_correlate w config chainName (fun e => isBaseRequest e = false)
              ltac:(reflexivity) ltac:(reflexivity) ltac:(reflexivity)
              ltac:(reflexivity) ltac:(reflexivity) ltac:(reflexivity)
              ltac:(reflexivity) fuel _ _ _ _ _ _ Hrun)
    as (rest & Htrace & Hbase).
  exists rest. split; [now rewrite Htrace, Htrace3, app_assoc|].
  split; [exact Hbase|].
  intros Hset.
  destruct (emits_correlate_set w config chainName (fun e => isCursorRequest e = false)
              ltac:(reflexivity) ltac:(reflexivity) ltac:(reflexivity)
              ltac:(reflexivity) ltac:(reflexivity)
              fuel _ _ _ _ _ _ _ Hst3 Hset Hrun)
    as (rest' & Htrace' & Hcursor).
  rewrite Htrace in Htrace'. apply app_inv_head in Htrace'. now subst rest'.
Qed.

End Requests.

(** ** The header loop *)

Section HeaderLoop.

Variable w : World.
Variable config : AvailConfig.

Lemma reachesMaxSlot_last maxSlot headers :
  reachesMaxSlot maxSlot headers = true ->
  exists h, last headers = Some h /\ (maxSlot <= inject_Z (slot h))%Q.
Proof.
  unfold reachesMaxSlot. destruct (last headers) as [h|]; [|discriminate].
  intros Hle. exists h. split; [reflexivity|]. now apply Qle_bool_iff.
Qed.

(** X21. The header loop ends only at a header that has reached [maxSlot]:
    what it returns extends the headers it started with, is not empty, and
    its last header has a slot at or past [maxSlot].  So the index covers
    the time range of the batch before any data is fetched for it. *)
Theorem fetchHeaders_reaches_maxSlot (fuel : nat) : forall maxSlot headers s result s',
  fetchHeaders w config fuel maxSlot headers s = (Return result, s') ->
  exists more h,
    result = headers ++ more /\
    last result = Some h /\
    (maxSlot <= inject_Z (slot h))%Q.
Proof.
  induction fuel as [|fuel IH]; intros maxSlot headers s result s' Hrun.
  { discriminate Hrun. }
  cbn [fetchHeaders] in Hrun.
  apply bind_inv in Hrun as [(latest & s1 & _ & Hrun)|[(e & _ & He)|[_ He]]];
    [|discriminate He..].
  apply bind_inv in Hrun as [(st & s2 & _ & Hrun)|[(e & _ & He)|[_ He]]];
    [|discriminate He..].
  apply bind_inv in Hrun as [(hs & s3 & _ & Hrun)|[(e & _ & He)|[_ He]]];
    [|discriminate He..].
  apply bind_inv in Hrun as [(u & s4 & _ & Hrun)|[(e & _ & He)|[_ He]]];
    [|discriminate He..].
  assert (Hnext : forall s0,
    fetchHeaders w config fuel maxSlot (headers ++ hs) s0 = (Return result, s') ->
    exists more h, result = headers ++ more /\ last result = Some h /\
                   (maxSlot <= inject_Z (slot h))%Q).
  { intros s0 Hrun0. destruct (IH _ _ _ _ _ Hrun0) as (more & h & -> & Hlast & Hle).
    exists (hs ++ more), h. split; [now rewrite app_assoc|]. auto. }
  destruct (reachesMaxSlot maxSlot (headers ++ hs)) eqn:Hreach.
  - injection Hrun as <- <-.
    destruct (reachesMaxSlot_last _ _ Hreach) as (h & Hlast & Hle).
    exists hs, h. auto.
  - destruct (negb _); [exact (Hnext _ Hrun)|].
    apply bind_inv in Hrun as [(u' & s5 & _ & Hrun)|[(e & _ & He)|[_ He]]];
      [|discriminate He..].
    exact (Hnext _ Hrun).
Qed.

(** X22. A group size of one (or less) stalls the loop.  The range of a turn
    is [lastBlock + 1 .. min(latest, lastBlock + funnelBlockGroupSize) - 1],
    the upper bound of [getMultipleHeaderData] being exclusive; with a
    group size of at most one and the head more than that ahead of the
    cursor, the range is empty, no header is read, nothing is requested,
    the state is as before, and the loop goes round again: it uses up any
    number of turns. *)
Theorem fetchHeaders_group_of_one (fuel : nat) (maxSlot : Q) (s : Machine)
  (st : AvailFunnelCacheEntryState) (latest : HeaderData) (c : Z) :
  stateOf s = Some st ->
  latestBlock_ st = Some latest ->
  lastBlock st = Some c ->
  funnelBlockGroupSize config <= 1 ->
  c + funnelBlockGroupSize config < number latest ->
  fetchHeaders w config fuel maxSlot [] s = (OutOfFuel, s).
Proof.
  intros Hst Hlatest Hcursor Hgroup Hahead.
  assert (Hc : cursor st = c) by (unfold cursor; now rewrite Hcursor).
  rewrite <- Hc in Hahead. clear Hc Hcursor.
  induction fuel as [|fuel IH]; [reflexivity|].
  cbn [fetchHeaders].
  rewrite (bind_Return _ _ _ _ _ (latestBlock_run s st latest Hst Hlatest)).
  rewrite (bind_Return _ _ _ _ _ (getState_run s st Hst)).
  cbv zeta.
  rewrite Z.min_r by lia.
  assert (Hnone : getMultipleHeaderData w (cursor st + 1)
                    (cursor st + funnelBlockGroupSize config) s = (Return [], s)).
  { unfold getMultipleHeaderData.
    replace (Z.to_nat (cursor st + funnelBlockGroupSize config - (cursor st + 1)))
      with 0%nat by lia.
    reflexivity. }
  rewrite (bind_Return _ _ _ _ _ Hnone). cbn [app last].
  unfold bind at 1, ret at 1.
  cbn [reachesMaxSlot last].
  assert ((cursor st + funnelBlockGroupSize config =? number latest) = false) as -> by lia.
  cbn [negb]. exact IH.
Qed.

End HeaderLoop.

Lemma fetchHeaders_reaches_maxSlot_witness :
  let st := {| latestBlock_ := Some {| number := 30; hash := "0xhead"; slot := 30 |};
               startingBlockHeight := 6;
               lastBlock := Some 6;
               bufferedChainData := [];
               timestampToBlockNumber := [];
               lastMaxSlot := 0%Q;
               api := "ws://avail" |} in
  exists result s' more h,
    fetchHeaders (sampleWorld (fun _ => []) (fun _ => 30) None) sampleConfig 5
      (inject_Z 10) [] (withState st processStart) = (Return result, s') /\
    result = [] ++ more /\
    last result = Some h /\
    (inject_Z 10 <= inject_Z (slot h))%Q.
Proof.
  intros st.
  destruct (fetchHeaders (sampleWorld (fun _ => []) (fun _ => 30) None) sampleConfig 5
              (inject_Z 10) [] (withState st processStart)) as [[result| |] s'] eqn:Hrun;
    [|vm_compute in Hrun; discriminate Hrun..].
  destruct (fetchHeaders_reaches_maxSlot _ _ _ _ _ _ _ _ Hrun) as (more & h & Hres & Hlast & Hle).
  exists result, s', more, h. auto.
Defined.

Lemma fetchHeaders_group_of_one_witness :
  let config := {| delay := None; confirmationDepth := None; funnelBlockGroupSize := 1;
                   lightClient := "http://lc"; rpc := "ws://avail" |} in
  let st := {| latestBlock_ := Some {| number := 30; hash := "0xhead"; slot := 30 |};
               startingBlockHeight := 6;
               lastBlock := Some 6;
               bufferedChainData := [];
               timestampToBlockNumber := [];
               lastMaxSlot := 0%Q;
               api := "ws://avail" |} in
  fetchHeaders (sampleWorld (fun _ => []) (fun _ => 30) None) config 1000
    (inject_Z 10) [] (withState st processStart)
  = (OutOfFuel, withState st processStart).
Proof.
  intros config st.
  apply (fetchHeaders_group_of_one (sampleWorld (fun _ => []) (fun _ => 30) None) config
           1000 (inject_Z 10) (withState st processStart) st
           {| number := 30; hash := "0xhead"; slot := 30 |} 6).
  - reflexivity.
  - reflexivity.
  - reflexivity.
  - vm_compute. discriminate.
  - vm_compute. reflexivity.
Defined.

(** ** Secondary data lands in time *)

Lemma bind_Return_inv {A B} (m : M A) (k : A -> M B) s b s' :
  bind m k s = (Return b, s') ->
  exists a s1, m s = (Return a, s1) /\ k a s1 = (Return b, s').
Proof.
  intros Hrun.
  apply bind_inv in Hrun as [(a & s1 & Hrun1 & Hrun2)|[(e & _ & He)|[_ He]]];
    [eauto|discriminate He..].
Qed.

Lemma modifyState_inv g s r s' :
  modifyState g s = (r, s') -> stateOf s' = g <$> stateOf s.
Proof.
  unfold modifyState, stateOf.
  destruct (cacheEntries s) as [[[st|]]|] eqn:Hc; intros [= _ <-]; simpl;
    rewrite ?Hc; reflexivity.
Qed.

Lemma getState_inv s cs s' :
  getState s = (Return cs, s') -> s' = s /\ stateOf s = Some cs.
Proof.
  unfold getState, stateOf.
  destruct (cacheEntries s) as [[[st|]]|]; intros [= <- <-] || intros [=]; auto.
Qed.

Section InTime.

Variable w : World.
Variable config : AvailConfig.
Variable chainName : string.

Lemma advance_In ts blocks block :
  In block (advance config ts blocks) -> In block blocks.
Proof.
  induction blocks as [|b rest IH]; [intros []|].
  simpl. destruct (applyDelay config (timestamp b) >=? ts); [auto|].
  intros Hin. right. now apply IH.
Qed.

Lemma advance_head ts blocks block later :
  advance config ts blocks = block :: later ->
  ts <= applyDelay config (timestamp block).
Proof.
  induction blocks as [|b rest IH]; [discriminate|].
  simpl. destruct (applyDelay config (timestamp b) >=? ts) eqn:Hready; [|exact IH].
  intros [= <- _]. lia.
Qed.

(** Whatever the order of the index, an entry of the mapping sends a
    secondary block of the index to a block of the batch that is not
    before it in time. *)
Lemma buildMapping_sound (index : list (Z * Z)) (batch : list ChainData) entries :
  forall blocks mapping,
    (forall e, In e entries -> In e index) ->
    (forall b, In b blocks -> In b batch) ->
    (forall m k, mapping !! m = Some k ->
       exists ts block, In (ts, m) index /\ In block batch /\
                        blockNumber block = k /\ ts <= applyDelay config (timestamp block)) ->
    forall m k, buildMapping config entries blocks mapping !! m = Some k ->
      exists ts block, In (ts, m) index /\ In block batch /\
                       blockNumber block = k /\ ts <= applyDelay config (timestamp block).
Proof.
  induction entries as [|[ts0 n0] rest IH]; intros blocks mapping Hentries Hblocks Hmapping.
  { exact Hmapping. }
  cbn [buildMapping].
  destruct (advance config ts0 blocks) as [|block later] eqn:Hadv.
  - apply IH; [intros e He; apply Hentries; now right|intros b []|exact Hmapping].
  - apply IH.
    + intros e He. apply Hentries. now right.
    + intros b Hb. apply Hblocks. apply (advance_In ts0). now rewrite Hadv.
    + intros m k. destruct (decide (m = n0)) as [->|Hne].
      * rewrite lookup_insert_eq. intros [= <-].
        exists ts0, block. split; [apply Hentries; now left|].
        split; [apply Hblocks, (advance_In ts0); rewrite Hadv; now left|].
        split; [reflexivity|exact (advance_head _ _ _ _ Hadv)].
      * rewrite lookup_insert_ne by congruence. apply Hmapping.
Qed.

Lemma datumsOf_withDatums b l : datumsOf (withDatums b l) = l.
Proof. reflexivity. Qed.

(** What the merge adds to a block: nothing, or the datums of a record
    with the block's number. *)
Lemma composeBlock_datums cdeData b :
  sameBlock (composeBlock cdeData b) b /\
  exists more,
    datumsOf (composeBlock cdeData b) = datumsOf b ++ more /\
    (more = [] \/
     exists r, In r cdeData /\ cdeBlockNumber r = Some (blockNumber b) /\
               cdeExtensionDatums r = Some more).
Proof.
  split; [apply sameBlock_composeBlock|].
  unfold composeBlock.
  destruct (List.find (matchesBlock b) cdeData) as [r|] eqn:Hfind.
  2:{ exists []. rewrite app_nil_r. auto. }
  apply find_some in Hfind as [Hin Hmatch]. apply matchesBlock_true in Hmatch.
  unfold mergeBlock, datumsOf.
  destruct (extensionDatums b) as [own|] eqn:Hown,
           (cdeExtensionDatums r) as [more|] eqn:Hmore; simpl.
  - exists more. split; [reflexivity|]. right. exists r. auto.
  - exists []. rewrite Hown, app_nil_r. auto.
  - exists more. split; [reflexivity|]. right. exists r. auto.
  - exists []. rewrite Hown. auto.
Qed.

Lemma attaches_refl index batch b : attaches config chainName index batch b b.
Proof.
  split; [apply sameBlock_refl|]. exists []. rewrite app_nil_r. split; [reflexivity|constructor].
Qed.

Lemma Forall2_attaches_refl index batch l :
  Forall2 (attaches config chainName index batch) l l.
Proof. induction l; constructor; auto using attaches_refl. Qed.

(** Every record of [getSubmittedData] is the record of an answer. *)
Lemma blockRecords_recordOf lc (blocks : list Z) :
  Forall (fun r => exists response, r = recordOf chainName response)
         (concat (map (blockRecords w lc chainName) blocks)).
Proof.
  induction blocks as [|n rest IH]; [constructor|].
  simpl. apply Forall_app. split; [|exact IH].
  destruct (blockRecords_cases w lc chainName n) as [->|[-> _]]; [constructor|].
  constructor; [eauto|constructor].
Qed.

(** The merge of remapped records into the batch. *)
Lemma compose_attaches (index : list (Z * Z)) (batch : list ChainData)
  (availData : list CdeData) :
  Forall (fun r => exists response, r = recordOf chainName response) availData ->
  Forall2 (attaches config chainName index batch)
    (composeChainData batch (map (remap (buildMapping config index batch ∅)) availData))
    batch.
Proof.
  intros Hrecords. unfold composeChainData.
  set (cdeData := map (remap (buildMapping config index batch ∅)) availData).
  assert (Hall : forall b, attaches config chainName index batch (composeBlock cdeData b) b).
  { intros b. destruct (composeBlock_datums cdeData b) as [Hsame (more & Hdatums & Hmore)].
    split; [exact Hsame|]. exists more. split; [exact Hdatums|].
    destruct Hmore as [->|(r' & Hin & Hnum & Hext)]; [constructor|].
    apply in_map_iff in Hin as (r & <- & Hr).
    rewrite List.Forall_forall in Hrecords. destruct (Hrecords r Hr) as (response & ->).
    simpl in Hnum, Hext. injection Hext as <-.
    destruct (buildMapping_sound index batch index batch ∅
                (fun e He => He) (fun b0 Hb0 => Hb0)
                ltac:(intros m k Hm; rewrite lookup_empty in Hm; discriminate Hm)
                _ _ Hnum) as (ts & block & Hentry & Hblock & Hk & Hts).
    apply Forall_map. apply List.Forall_forall. intros tx _.
    split; [reflexivity|]. split; [reflexivity|].
    exists ts, block. simpl. auto. }
  generalize batch at 2 3 as l.
  induction l as [|b l IH]; simpl; constructor; auto.
Qed.

(** [correlate], when it returns. *)
Lemma correlate_attaches fuel chainData first final s batch s' :
  correlate w config chainName fuel chainData first final s = (Return batch, s') ->
  exists st',
    stateOf s' = Some st' /\
    Forall2 (attaches config chainName (timestampToBlockNumber st') chainData)
            batch chainData.
Proof.
  intros Hrun. unfold correlate in Hrun. cbv zeta in Hrun.
  apply bind_Return_inv in Hrun as (u1 & s1 & _ & Hrun).
  apply bind_Return_inv in Hrun as (headers & s2 & _ & Hrun).
  apply bind_Return_inv in Hrun as (u2 & s3 & _ & Hrun).
  apply bind_Return_inv in Hrun as (cs & s3' & Hget & Hrun).
  apply getState_inv in Hget as [-> Hcs].
  apply bind_Return_inv in Hrun as (u3 & s4 & Htrim & Hrun).
  apply modifyState_inv in Htrim. rewrite Hcs in Htrim. simpl in Htrim.
  set (trimmed := trimConsumed (lastMaxSlot cs * 20)%Q (timestampToBlockNumber cs)) in *.
  destruct trimmed as [|[firstTs fromBlock] rest] eqn:Htrimmed.
  { injection Hrun as <- <-. eexists. split; [exact Htrim|].
    apply Forall2_attaches_refl. }
  apply bind_Return_inv in Hrun as (u4 & s5 & Hslot & Hrun).
  apply modifyState_inv in Hslot. rewrite Htrim in Hslot. simpl in Hslot.
  destruct (negb (Qle_bool _ _)).
  { injection Hrun as <- <-. eexists. split; [exact Hslot|].
    apply Forall2_attaches_refl. }
  match type of Hrun with
  | (if ?c then _ else _) _ = _ => destruct c
  end.
  { injection Hrun as <- <-. eexists. split; [exact Hslot|].
    apply Forall2_attaches_refl. }
  rewrite (bind_Return _ _ _ _ _ (getSubmittedData_run w _ _ _ _ _)) in Hrun.
  injection Hrun as <- <-.
  eexists. split; [rewrite stateOf_logged; exact Hslot|].
  cbn [timestampToBlockNumber set_lastMaxSlot set_timestampToBlockNumber].
  apply compose_attaches, blockRecords_recordOf.
Qed.

(** X23. Where the secondary data goes.  When [readData] returns, the batch is
    the list of pending blocks that pass the filter at the secondary
    chain's logical time, in order; a block of the batch differs from the
    pending block only by datums appended to its extension datums; and
    every appended datum is a generic datum of this network that names a
    secondary block of the index whose logical time is not after the
    delayed timestamp of a block of the batch with that number.  So no
    data of the secondary chain is delivered with a primary block that is
    earlier than it. *)
Theorem readData_attaches_in_time (fuel : nat) (blockHeight : Z) (s : Machine)
  (st : AvailFunnelCacheEntryState) (batch : list ChainData) (s' : Machine) :
  stateOf s = Some st ->
  readData w config chainName fuel blockHeight s = (Return batch, s') ->
  exists T st',
    currentLogicalTime w config s = Ok T /\
    stateOf s' = Some st' /\
    let chainData :=
      List.filter (passesFilter config T) (pendingBlocks w blockHeight st) in
    Forall2 (attaches config chainName (timestampToBlockNumber st') chainData)
            batch chainData.
Proof.
  intros Hst Hrun.
  destruct (refreshedHead w config s) as [b|e] eqn:Hhead.
  2:{ destruct (readData_refresh_fails w config chainName fuel blockHeight s st e
                  Hst Hhead) as (s2 & Hthrow & _).
      rewrite Hthrow in Hrun. discriminate Hrun. }
  destruct (readData_prefix_full w config chainName fuel blockHeight s st b Hst Hhead)
    as (s3 & Hst3 & _ & _ & Hread).
  cbv zeta in Hread, Hst3. rewrite Hread in Hrun.
  exists (slot b * 20).
  unfold currentLogicalTime. rewrite Hhead. cbv zeta.
  destruct (List.filter _ _) as [|first rest] eqn:Hfilter.
  - injection Hrun as <- <-. eexists. split; [reflexivity|]. split; [exact Hst3|constructor].
  - destruct (correlate_attaches _ _ _ _ _ _ _ Hrun) as (st' & Hst' & Hall).
    exists st'. split; [reflexivity|]. split; [exact Hst'|].
    exact Hall.
Qed.

End InTime.

(** ** Runs of [readData] on sample chains *)

Lemma readData_failed_refresh_witness :
  let world := brokenWorld 31 (fun _ => [sampleBlock 10 200 None])
                 (fun k => if (k <? 2)%nat then 30 else 31) None in
  exists st s',
    stateOf (bootstrapped world) = Some st /\
    readData world sampleConfig "avail" 5 10 (bootstrapped world)
    = (Throw MalformedHeaderError, s') /\
    stateOf s' = Some (set_bufferedChainData [sampleBlock 10 200 None] st).
Proof.
  intros world.
  eassert (Hst : stateOf (bootstrapped world) = Some _) by (vm_compute; reflexivity).
  destruct (readData_failed_refresh world sampleConfig "avail" 5 10 (bootstrapped world)
              _ MalformedHeaderError Hst eq_refl) as (s' & Hrun & Hst' & _).
  eexists _, s'. split; [exact Hst|]. split; [exact Hrun|exact Hst'].
Defined.

Lemma readData_conserves_blocks_witness :
  let world := sampleWorld (fun _ => [sampleBlock 10 200 None; sampleBlock 11 220 None;
                                      sampleBlock 12 400 None])
                           (fun k => 10 + Z.of_nat k) (Some 3) in
  exists batch s' st',
    readData world sampleConfig "avail" 5 10 (bootstrapped world) = (Return batch, s') /\
    stateOf s' = Some st' /\
    Forall2 sameBlock (batch ++ bufferedChainData st')
      [sampleBlock 10 200 None; sampleBlock 11 220 None; sampleBlock 12 400 None].
Proof.
  intros world.
  eassert (Hst : stateOf (bootstrapped world) = Some _) by (vm_compute; reflexivity).
  destruct (readData world sampleConfig "avail" 5 10 (bootstrapped world))
    as [[batch| |] s'] eqn:Hrun;
    [|vm_compute in Hrun; discriminate Hrun..].
  destruct (readData_conserves_blocks world sampleConfig "avail" 5 10 (bootstrapped world)
              _ batch s' Hst
              ltac:(vm_compute; repeat constructor; discriminate) Hrun)
    as (st' & Hst' & Hall).
  exists batch, s', st'. split; [reflexivity|]. split; [exact Hst'|exact Hall].
Defined.

Lemma readData_failure_drops_batch_witness :
  let world := brokenWorld 7 (fun _ => [sampleBlock 10 200 None]) (fun _ => 30) (Some 6) in
  exists st s' st',
    stateOf (bootstrapped world) = Some st /\
    pendingBlocks world 10 st = [sampleBlock 10 200 None] /\
    readData world sampleConfig "avail" 5 10 (bootstrapped world)
    = (Throw MalformedHeaderError, s') /\
    stateOf s' = Some st' /\
    bufferedChainData st' = [].
Proof.
  intros world.
  eassert (Hst : stateOf (bootstrapped world) = Some _) by (vm_compute; reflexivity).
  destruct (readData world sampleConfig "avail" 5 10 (bootstrapped world))
    as [[batch|e|] s'] eqn:Hrun;
    [vm_compute in Hrun; discriminate Hrun| |vm_compute in Hrun; discriminate Hrun].
  assert (He : e = MalformedHeaderError) by (destruct e; [reflexivity|vm_compute in Hrun; discriminate Hrun]).
  subst e.
  destruct (readData_failure_drops_batch world sampleConfig "avail" 5 10 (bootstrapped world)
              _ {| number := 30; hash := "0xhead"; slot := 30 |} MalformedHeaderError s'
              Hst eq_refl Hrun) as (_ & st' & Hst' & Hbuf).
  eexists _, s', st'. split; [exact Hst|]. split; [reflexivity|].
  split; [reflexivity|]. split; [exact Hst'|exact Hbuf].
Defined.

Lemma readData_requests_witness :
  let world := sampleWorld (fun _ => [sampleBlock 10 200 None]) (fun _ => 30) (Some 6) in
  exists r s' rest,
    readData world sampleConfig "avail" 5 10 (bootstrapped world) = (r, s') /\
    trace s' = trace (bootstrapped world)
               ++ [BaseReadData 10; RpcGetFinalizedHead; RpcGetHeader 30;
                   RpcGetBlockHash 30; RpcGetHeader 30] ++ rest /\
    Forall (fun e => isBaseRequest e = false) rest.
Proof.
  intros world.
  eassert (Hst : stateOf (bootstrapped world) = Some _) by (vm_compute; reflexivity).
  destruct (readData world sampleConfig "avail" 5 10 (bootstrapped world)) as [r s'] eqn:Hrun.
  destruct (readData_requests world sampleConfig "avail" 5 10 (bootstrapped world)
              _ r s' Hst Hrun) as (rest & Htrace & Hbase & _).
  exists r, s', rest. split; [reflexivity|]. split; [exact Htrace|exact Hbase].
Defined.

Lemma readData_attaches_in_time_witness :
  let world := busyWorld (fun _ => [sampleBlock 10 200 (Some [])]) (fun _ => 12) (Some 3) in
  exists batch s' T st',
    readData world sampleConfig "avail" 5 10 (bootstrapped world) = (Return batch, s') /\
    currentLogicalTime world sampleConfig (bootstrapped world) = Ok T /\
    stateOf s' = Some st' /\
    Forall2 (attaches sampleConfig "avail" (timestampToBlockNumber st')
               [sampleBlock 10 200 (Some [])])
            batch [sampleBlock 10 200 (Some [])].
Proof.
  intros world.
  eassert (Hst : stateOf (bootstrapped world) = Some _) by (vm_compute; reflexivity).
  destruct (readData world sampleConfig "avail" 5 10 (bootstrapped world))
    as [[batch| |] s'] eqn:Hrun;
    [|vm_compute in Hrun; discriminate Hrun..].
  destruct (readData_attaches_in_time world sampleConfig "avail" 5 10 (bootstrapped world)
              _ batch s' Hst Hrun) as (T & st' & Htime & Hst' & Hall).
  exists batch, s', T, st'. split; [reflexivity|]. split; [exact Htime|].
  split; [exact Hst'|].
  assert (HT : T = 240) by (vm_compute in Htime; congruence).
  subst T. exact Hall.
Defined.

(** ** The merge on the heap, continued *)

Lemma composeChainData_in_place_witness :
  InPlace.viewAt (InPlace.composeChainData [0%nat; 1%nat] sampleCdeObjects sampleHeap) 0%nat
  = Some (sampleBlock 10 100 (Some [sampleDatum "a"; sampleDatum "b"; sampleDatum "c"])).
Proof.
  rewrite (composeChainData_in_place sampleCdeObjects [0%nat; 1%nat] sampleHeap).
  - vm_compute. reflexivity.
  - split; [|split].
    + apply (bool_decide_unpack _). vm_compute. reflexivity.
    + intros a b l Ha Hb Hab Hl.
      rewrite !elem_of_cons, elem_of_nil in Ha, Hb.
      destruct Ha as [->|[->|[]]], Hb as [->|[->|[]]]; try congruence;
        vm_compute in Hl; injection Hl as <-; vm_compute; discriminate.
    + intros a l c Ha Hl Hc. unfold sampleCdeObjects in Hc.
      rewrite !elem_of_cons, elem_of_nil in Ha.
      rewrite elem_of_cons, elem_of_nil in Hc.
      destruct Hc as [->|[]].
      destruct Ha as [->|[->|[]]];
        vm_compute in Hl; injection Hl as <-; vm_compute; discriminate.
  - rewrite !elem_of_cons. now left.
Defined.

Section Sharing.

Import InPlace.

(** X24. The assignment [blockData.extensionDatums = matchingData.extensionDatums]
    copies no array.  A block without extension datums is given the array
    of the first record with its number, the very object: after the merge
    block and record refer to one array, and a second merge into the
    block, with a record that has another array, appends to the array of
    the first record too. *)
Theorem composeChainData_shares_record_array (cdeData cdeData' : list CdeObject)
  (h : Heap) (a : nat) (o : BlockObject) (c c' : CdeObject) (l l' : nat) :
  objects h !! a = Some o ->
  o_extensionDatums o = None ->
  List.find (matches o) cdeData = Some c ->
  c_extensionDatums c = Some l ->
  List.find (matches o) cdeData' = Some c' ->
  c_extensionDatums c' = Some l' ->
  let h1 := InPlace.composeChainData [a] cdeData h in
  let h2 := InPlace.composeChainData [a] cdeData' h1 in
  ownOf h1 a = Some l /\
  arrays h1 = arrays h /\
  ownOf h2 a = Some l /\
  arrayAt h2 l = arrayAt h l ++ arrayAt h l' /\
  cdeExtensionDatums (viewCde h2 c) = Some (arrayAt h l ++ arrayAt h l').
Proof.
  intros Ha Ho Hc Hl Hc' Hl' h1 h2.
  assert (Hh1 : h1 = {| objects :=
                          <[a := {| o_timestamp := o_timestamp o;
                                    o_blockHash := o_blockHash o;
                                    o_blockNumber := o_blockNumber o;
                                    o_submittedData := o_submittedData o;
                                    o_extensionDatums := Some l |}]> (objects h);
                        arrays := arrays h |}).
  { unfold h1, InPlace.composeChainData. simpl. unfold composeOne.
    now rewrite Ha, Hc, Ho, Hl. }
  assert (Hh2 : h2 = {| objects := objects h1;
                        arrays := <[l := arrayAt h1 l ++ arrayAt h1 l']> (arrays h1) |}).
  { unfold h2, InPlace.composeChainData. simpl. unfold composeOne.
    rewrite Hh1. simpl. rewrite lookup_insert_eq.
    change (matches _) with (matches o). now rewrite Hc', Hl'. }
  assert (Harr : forall k, arrayAt h1 k = arrayAt h k) by (now rewrite Hh1).
  split; [|split; [|split; [|split]]].
  - unfold ownOf. rewrite Hh1. simpl. now rewrite lookup_insert_eq.
  - now rewrite Hh1.
  - unfold ownOf. rewrite Hh2, Hh1. simpl. now rewrite lookup_insert_eq.
  - rewrite Hh2. rewrite arrayAt_insert_eq. now rewrite !Harr.
  - unfold viewCde. simpl. rewrite Hl. simpl. f_equal.
    rewrite Hh2. rewrite arrayAt_insert_eq. now rewrite !Harr.
Qed.

End Sharing.

Lemma composeChainData_shares_record_array_witness :
  let first := {| InPlace.c_blockNumber := Some 10;
                  InPlace.c_extensionDatums := Some 20%nat |} in
  let second := {| InPlace.c_blockNumber := Some 10;
                   InPlace.c_extensionDatums := Some 21%nat |} in
  let h2 := InPlace.composeChainData [0%nat] [second]
              (InPlace.composeChainData [0%nat] [first] bareHeap) in
  InPlace.arrayAt bareHeap 20%nat = [sampleDatum "b"] /\
  InPlace.arrayAt h2 20%nat = [sampleDatum "b"; sampleDatum "c"].
Proof.
  intros first second h2. split; [vm_compute; reflexivity|].
  eassert (Ho : InPlace.objects bareHeap !! 0%nat = Some _) by (vm_compute; reflexivity).
  destruct (composeChainData_shares_record_array [first] [second] bareHeap 0%nat _
              first second 20%nat 21%nat Ho eq_refl eq_refl eq_refl eq_refl eq_refl)
    as (_ & _ & _ & Harray & _).
  fold h2 in Harray. rewrite Harray. vm_compute. reflexivity.
Defined.

(** ** The slot of a header, continued *)

(** X25. [getSlotFromHeader] reads the first pre-runtime item of the digest
    log, whatever the variant of its BABE pre-digest, and takes its slot
    number; items before it that are not pre-runtime items, and all items
    after it, do not matter. *)
Theorem getSlotFromHeader_reads_first (header : Header) (pre : list DigestItem)
  (engine : string) (d : RawBabePreDigest) (post : list DigestItem) :
  hdr_logs header = pre ++ PreRuntime engine d :: post ->
  Forall (fun log => isPreRuntime log = false) pre ->
  getSlotFromHeader header = Ok (slotNumberOf d) /\
  match d with
  | Primary _ sl | SecondaryPlain _ sl | SecondaryVRF _ sl =>
      getSlotFromHeader header = Ok sl
  end.
Proof.
  intros Hlogs Hpre.
  assert (Hslot : getSlotFromHeader header = Ok (slotNumberOf d)).
  { apply (getSlotFromHeader_first_preRuntime header pre engine d post Hlogs).
    rewrite List.Forall_forall in Hpre. exact Hpre. }
  split; [exact Hslot|]. destruct d; exact Hslot.
Qed.

Lemma getSlotFromHeader_reads_first_witness :
  getSlotFromHeader
    {| hdr_number := 7; hdr_hash := "0xab";
       hdr_logs := [Consensus "BABE"; PreRuntime "BABE" (SecondaryVRF 3 41);
                    PreRuntime "BABE" (Primary 0 99); Seal "BABE"] |}
  = Ok 41.
Proof.
  apply (getSlotFromHeader_reads_first
           {| hdr_number := 7; hdr_hash := "0xab";
              hdr_logs := [Consensus "BABE"; PreRuntime "BABE" (SecondaryVRF 3 41);
                           PreRuntime "BABE" (Primary 0 99); Seal "BABE"] |}
           [Consensus "BABE"] "BABE" (SecondaryVRF 3 41)
           [PreRuntime "BABE" (Primary 0 99); Seal "BABE"] eq_refl).
  repeat constructor.
Defined.

(** ** The cursor of the header loop *)

(** X26. On a chain that answers a request for number [n] with header [n],
    the header loop reads the consecutive blocks after the cursor and
    leaves the cursor on the last block it has read, whether it returns,
    throws or is cut short.  It does not touch the index: the headers
    reach the index only after the loop has returned, so when the loop
    fails the blocks it has read are behind the cursor without being in the
    index. *)
Theorem fetchHeaders_moves_cursor (w : World) (config : AvailConfig) (fuel : nat)
  (maxSlot : Q) (s : Machine) (r : Outcome (list HeaderData)) (s' : Machine)
  (st : AvailFunnelCacheEntryState) (c : Z) :
  (forall n, hdr_number (rpc_header w n) = n) ->
  stateOf s = Some st ->
  lastBlock st = Some c ->
  fetchHeaders w config fuel maxSlot [] s = (r, s') ->
  exists st' headers,
    stateOf s' = Some st' /\
    map number headers = seqZ (c + 1) (Z.of_nat (length headers)) /\
    lastBlock st' = Some (c + Z.of_nat (length headers)) /\
    timestampToBlockNumber st' = timestampToBlockNumber st /\
    forall result, r = Return result -> result = headers.
Proof.
  intros Hnumbered Hst Hcursor Hrun.
  destruct (fetchHeaders_cursor w config Hnumbered fuel maxSlot [] s r s' st c Hst)
    as (st' & headers & Hst' & Hrest & Hlast & [Hnum _] & Hr); auto.
  { simpl. rewrite Hcursor. f_equal. lia. }
  { split; [reflexivity|constructor]. }
  exists st', headers. split; [exact Hst'|]. split; [exact Hnum|].
  split; [exact Hlast|]. split.
  - unfold restFields in Hrest. now injection Hrest.
  - intros result ->. exact Hr.
Qed.

Lemma fetchHeaders_moves_cursor_witness :
  let config := {| delay := None; confirmationDepth := None; funnelBlockGroupSize := 4;
                   lightClient := "http://lc"; rpc := "ws://avail" |} in
  let st := {| latestBlock_ := Some {| number := 30; hash := "0xhead"; slot := 30 |};
               startingBlockHeight := 6;
               lastBlock := Some 6;
               bufferedChainData := [];
               timestampToBlockNumber := [];
               lastMaxSlot := 0%Q;
               api := "ws://avail" |} in
  exists s' st' headers,
    fetchHeaders (brokenWorld 12 (fun _ => []) (fun _ => 30) None) config 5
      (inject_Z 100) [] (withState st processStart) = (Throw MalformedHeaderError, s') /\
    stateOf s' = Some st' /\
    map number headers = [7; 8; 9] /\
    lastBlock st' = Some 9 /\
    timestampToBlockNumber st' = [].
Proof.
  intros config st.
  assert (Hnumbered : forall n,
    hdr_number (rpc_header (brokenWorld 12 (fun _ => []) (fun _ => 30) None) n) = n)
    by (intros n; simpl; destruct (n =? 12); reflexivity).
  assert (Hfst : fst (fetchHeaders (brokenWorld 12 (fun _ => []) (fun _ => 30) None)
                        config 5 (inject_Z 100) [] (withState st processStart))
                 = Throw MalformedHeaderError) by (vm_compute; reflexivity).
  assert (Hlb : lastBlock <$> stateOf
                  (snd (fetchHeaders (brokenWorld 12 (fun _ => []) (fun _ => 30) None)
                          config 5 (inject_Z 100) [] (withState st processStart)))
                = Some (Some 9)) by (vm_compute; reflexivity).
  destruct (fetchHeaders (brokenWorld 12 (fun _ => []) (fun _ => 30) None) config 5
              (inject_Z 100) [] (withState st processStart)) as [r s'] eqn:Hrun.
  simpl in Hfst, Hlb. subst r.
  destruct (fetchHeaders_moves_cursor _ config 5 (inject_Z 100)
              (withState st processStart) _ s' st 6 Hnumbered eq_refl eq_refl Hrun)
    as (st' & headers & Hst' & Hnum & Hlast & Hindex & _).
  rewrite Hst' in Hlb. simpl in Hlb. rewrite Hlast in Hlb.
  assert (Hlen : length headers = 3%nat) by (injection Hlb as Hlb; lia).
  exists s', st', headers.
  split; [reflexivity|]. split; [exact Hst'|].
  rewrite Hlen in Hnum, Hlast. auto.
Defined.

(** ** The wait for a new head *)

Section Wait.

Variable w : World.
Variable config : AvailConfig.

Lemma heldBackBlock_atPoll s : heldBackBlock w config s = heldBackBlock w config (atPoll (polls s)).
Proof. reflexivity. Qed.

Lemma refreshedHead_atPoll s : refreshedHead w config s = refreshedHead w config (atPoll (polls s)).
Proof. reflexivity. Qed.

Lemma refreshRequests_atPoll s : refreshRequests w config s = refreshRequests w config (atPoll (polls s)).
Proof. reflexivity. Qed.

Lemma waitRequests_S p k :
  waitRequests w config p (S k)
  = refreshRequests w config (atPoll p) ++ [Delay 500] ++ waitRequests w config (S p) k.
Proof.
  unfold waitRequests. cbn [seq map concat].
  rewrite <- seq_shift, map_map.
  replace (p + 0)%nat with p by lia.
  replace (p + S k)%nat with (S p + k)%nat by lia.
  rewrite <- !app_assoc. do 3 f_equal. f_equal.
  apply map_ext. intros i. now replace (p + S i)%nat with (S p + i)%nat by lia.
Qed.

(** X27. The inner loop of the header loop polls the head until the number it
    asks for differs from the one it was given.  If the held-back head
    still has that number at the next [k] refreshes and another one at the
    refresh after them (well-formed headers throughout), the wait returns
    after exactly these [k + 1] refreshes, with a pause of 500 ms after
    each of the first [k]; the head it leaves in the cache is the new
    one. *)
Theorem waitForBlocks_until_head_moves (k : nat) : forall (fuel : nat) (latestNumber : Z)
  (s : Machine) (st : AvailFunnelCacheEntryState) (b : HeaderData),
  stateOf s = Some st ->
  (k < fuel)%nat ->
  (forall i, (i < k)%nat ->
     heldBackBlock w config (atPoll (polls s + i)) = latestNumber /\
     exists bi, refreshedHead w config (atPoll (polls s + i)) = Ok bi) ->
  heldBackBlock w config (atPoll (polls s + k)) <> latestNumber ->
  refreshedHead w config (atPoll (polls s + k)) = Ok b ->
  exists s',
    waitForBlocks w config fuel latestNumber s = (Return tt, s') /\
    stateOf s' = Some (set_latestBlock (Some b) st) /\
    polls s' = (polls s + k + 1)%nat /\
    trace s' = trace s ++ waitRequests w config (polls s) k.
Proof.
  induction k as [|k IH]; intros fuel latestNumber s st b Hst Hfuel Hsame Hmoved Hhead.
  - destruct fuel as [|fuel]; [lia|]. cbn [waitForBlocks].
    replace (polls s + 0)%nat with (polls s) in Hmoved, Hhead by lia.
    rewrite <- heldBackBlock_atPoll in Hmoved. rewrite <- refreshedHead_atPoll in Hhead.
    destruct (updateLatestBlock_cases w config s st Hst) as (s1 & Htrace & Hpolls & Hrun).
    rewrite Hhead in Hrun. destruct Hrun as [Hrun Hst1].
    rewrite (bind_Return _ _ _ _ _ Hrun).
    assert ((heldBackBlock w config s =? latestNumber) = false) as -> by lia.
    exists s1. split; [reflexivity|]. split; [exact Hst1|]. split; [lia|].
    rewrite Htrace. unfold waitRequests. simpl.
    replace (polls s + 0)%nat with (polls s) by lia. reflexivity.
  - destruct fuel as [|fuel]; [lia|]. cbn [waitForBlocks].
    destruct (Hsame 0%nat ltac:(lia)) as [Hnumber (b0 & Hhead0)].
    replace (polls s + 0)%nat with (polls s) in Hnumber, Hhead0 by lia.
    rewrite <- heldBackBlock_atPoll in Hnumber. rewrite <- refreshedHead_atPoll in Hhead0.
    destruct (updateLatestBlock_cases w config s st Hst) as (s1 & Htrace & Hpolls & Hrun).
    rewrite Hhead0 in Hrun. destruct Hrun as [Hrun Hst1].
    rewrite (bind_Return _ _ _ _ _ Hrun).
    assert ((heldBackBlock w config s =? latestNumber) = true) as -> by lia.
    unfold delay_ms. unfold bind at 1. rewrite emit_logged.
    destruct (IH fuel latestNumber (logged [Delay 500] s1) _ b
                ltac:(rewrite stateOf_logged; exact Hst1) ltac:(lia))
      as (s' & Hwait & Hst' & Hpolls' & Htrace').
    + intros i Hi. simpl. rewrite Hpolls.
      replace (S (polls s) + i)%nat with (polls s + S i)%nat by lia.
      apply Hsame. lia.
    + simpl. rewrite Hpolls.
      now replace (S (polls s) + k)%nat with (polls s + S k)%nat by lia.
    + simpl. rewrite Hpolls.
      now replace (S (polls s) + k)%nat with (polls s + S k)%nat by lia.
    + exists s'. split; [exact Hwait|]. split; [exact Hst'|].
      split; [simpl in Hpolls'; lia|].
      rewrite Htrace'. simpl. rewrite Htrace, Hpolls, waitRequests_S.
      rewrite refreshRequests_atPoll. rewrite <- !app_assoc. reflexivity.
Qed.

End Wait.

Lemma waitForBlocks_until_head_moves_witness :
  let world := sampleWorld (fun _ => []) (fun p => if (p <? 4)%nat then 30 else 31) None in
  exists st s',
    stateOf (bootstrapped world) = Some st /\
    waitForBlocks world sampleConfig 5 30 (bootstrapped world) = (Return tt, s') /\
    stateOf s'
    = Some (set_latestBlock (Some {| number := 31; hash := "0xhead"; slot := 31 |}) st) /\
    polls s' = 5%nat /\
    trace s' = trace (bootstrapped world) ++ waitRequests world sampleConfig 2 2.
Proof.
  intros world.
  eassert (Hst : stateOf (bootstrapped world) = Some _) by (vm_compute; reflexivity).
  destruct (waitForBlocks_until_head_moves world sampleConfig 2 5 30 (bootstrapped world)
              _ {| number := 31; hash := "0xhead"; slot := 31 |} Hst ltac:(lia))
    as (s' & Hrun & Hst' & Hpolls & Htrace).
  - intros i Hi. destruct i as [|[|i]]; [| |lia]; (split; [reflexivity|eexists; reflexivity]).
  - vm_compute. discriminate.
  - reflexivity.
  - eexists _, s'. split; [exact Hst|]. split; [exact Hrun|]. split; [exact Hst'|].
    split; [exact Hpolls|exact Htrace].
Defined.

(** ** The header loop, when the chain is far enough *)

Section Progress.

Variable w : World.
Variable config : AvailConfig.
Variable slotAt : Z -> Z.
Variable latest : HeaderData.
Variable maxSlot : Q.
Variable reach : Z.

Hypothesis numbered : forall n, hdr_number (rpc_header w n) = n.
Hypothesis group : 2 <= funnelBlockGroupSize config.
Hypothesis reach_below_head : reach < number latest.
Hypothesis reached : (maxSlot <= inject_Z (slotAt reach))%Q.

Lemma last_headers headers (from len : Z) :
  0 < len ->
  last (headers ++ map (fun n => headerDataAt w n (slotAt n)) (seqZ from len))
  = Some (headerDataAt w (from + len - 1) (slotAt (from + len - 1))).
Proof.
  intros Hlen.
  rewrite <- (Z2Nat.id len) by lia.
  destruct (Z.to_nat len) as [|k] eqn:Hk; [lia|].
  rewrite seqZ_S, map_app, app_assoc. simpl. rewrite last_snoc.
  replace (from + Z.of_nat (S k) - 1) with (from + Z.of_nat k) by lia. reflexivity.
Qed.

(** The turns of the loop from a cursor [c] below [reach]. *)
Lemma fetchHeaders_progress (fuel : nat) : forall (c : Z) headers s st,
  stateOf s = Some st ->
  latestBlock_ st = Some latest ->
  lastBlock st = Some c ->
  c < reach ->
  (forall n, c < n < number latest -> getSlotFromHeader (rpc_header w n) = Ok (slotAt n)) ->
  (forall n, reach <= n < number latest -> slotAt reach <= slotAt n) ->
  (Z.to_nat (reach - c) <= fuel)%nat ->
  exists c' s',
    fetchHeaders w config fuel maxSlot headers s
    = (Return (headers ++ map (fun n => headerDataAt w n (slotAt n))
                              (seqZ (c + 1) (c' - c))), s') /\
    c < c' < number latest /\
    (maxSlot <= inject_Z (slotAt c'))%Q /\
    lastBlock <$> stateOf s' = Some (Some c') /\
    polls s' = polls s /\
    trace s' = trace s ++ concat (map headerRequests (seqZ (c + 1) (c' - c))).
Proof.
  induction fuel as [|fuel IH]; intros c headers s st Hst Hlatest Hcursor Hc Hslots Hmono Hfuel.
  { lia. }
  cbn [fetchHeaders].
  rewrite (bind_Return _ _ _ _ _ (latestBlock_run s st latest Hst Hlatest)).
  rewrite (bind_Return _ _ _ _ _ (getState_run s st Hst)).
  cbv zeta.
  assert (Hcur : cursor st = c) by (unfold cursor; now rewrite Hcursor).
  rewrite Hcur.
  set (to := Z.min (number latest) (c + funnelBlockGroupSize config)).
  assert (Hto : c + 2 <= to <= number latest) by (unfold to; lia).
  rewrite (bind_Return _ _ _ _ _
             (getMultipleHeaderData_run w slotAt (c + 1) to s
                ltac:(intros n Hn; apply Hslots; lia))).
  rewrite (last_headers headers (c + 1) (to - (c + 1))) by lia.
  replace (c + 1 + (to - (c + 1)) - 1) with (to - 1) by lia.
  cbn [number headerDataAt]. rewrite numbered.
  match goal with
  | |- context [bind (modifyState ?g) _ ?s1] =>
      rewrite (bind_Return _ _ _ _ _
                 (modifyState_withState g s1 st ltac:(rewrite stateOf_logged; exact Hst)))
  end.
  unfold reachesMaxSlot.
  rewrite (last_headers headers (c + 1) (to - (c + 1))) by lia.
  replace (c + 1 + (to - (c + 1)) - 1) with (to - 1) by lia.
  cbn [slot headerDataAt].
  destruct (Qle_bool maxSlot (inject_Z (slotAt (to - 1)))) eqn:Hreach.
  - exists (to - 1). eexists. split.
    { replace (to - 1 - c) with (to - (c + 1)) by lia. reflexivity. }
    split; [lia|]. split; [now apply Qle_bool_iff|].
    split; [reflexivity|]. split; [reflexivity|].
    simpl. now replace (to - 1 - c) with (to - (c + 1)) by lia.
  - assert (Hbelow : to - 1 < reach).
    { destruct (Z_lt_le_dec (to - 1) reach) as [Hlt|Hge]; [exact Hlt|].
      exfalso. assert (Hq : Qle_bool maxSlot (inject_Z (slotAt (to - 1))) = true).
      { apply Qle_bool_iff. apply Qle_trans with (inject_Z (slotAt reach)); [exact reached|].
        rewrite <- Zle_Qle. apply Hmono. lia. }
      congruence. }
    assert ((to =? number latest) = false) as -> by lia.
    cbn [negb].
    match goal with
    | |- context [fetchHeaders w config fuel maxSlot ?hs ?s2] =>
        destruct (IH (to - 1) hs s2 (set_lastBlock (to - 1) st))
          as (c' & s' & Hrun & Hc' & Hslot' & Hlast' & Hpolls' & Htrace');
          [apply stateOf_withState|exact Hlatest|reflexivity|exact Hbelow
          |intros n Hn; apply Hslots; lia|exact Hmono|lia|]
    end.
    replace (to - 1 + 1) with (c + 1 + (to - (c + 1))) in Hrun, Htrace' by lia.
    assert (Hseq : seqZ (c + 1) (c' - c)
                   = seqZ (c + 1) (to - (c + 1))
                     ++ seqZ (c + 1 + (to - (c + 1))) (c' - (to - 1))).
    { replace (c' - c) with ((to - (c + 1)) + (c' - (to - 1))) by lia.
      apply seqZ_app; lia. }
    exists c', s'. split.
    { rewrite Hrun, Hseq, map_app, app_assoc. reflexivity. }
    split; [lia|]. split; [exact Hslot'|]. split; [exact Hlast'|].
    split; [exact Hpolls'|].
    rewrite Htrace', Hseq, map_app, concat_app. simpl. now rewrite <- app_assoc.
Qed.

End Progress.

(** X28. The header loop does not wait when the chain is far enough.  On a
    chain that answers a request for number [n] with header [n], with a
    group size of two or more: if some block strictly between the cursor
    and the held-back head has reached [maxSlot], the blocks from the
    cursor to the head carry slots, and no block from that one on has a
    smaller slot, then the loop returns within as many turns as there are
    blocks up to that one.  It returns the headers of the consecutive
    blocks after the cursor up to a block that has reached [maxSlot], leaves
    the cursor there, asks for nothing but these headers, and neither
    refreshes the head nor pauses. *)
Theorem fetchHeaders_returns_without_waiting (w : World) (config : AvailConfig)
  (slotAt : Z -> Z) (maxSlot : Q) (s : Machine) (st : AvailFunnelCacheEntryState)
  (latest : HeaderData) (c reach : Z) (fuel : nat) :
  (forall n, hdr_number (rpc_header w n) = n) ->
  2 <= funnelBlockGroupSize config ->
  stateOf s = Some st ->
  latestBlock_ st = Some latest ->
  lastBlock st = Some c ->
  c < reach < number latest ->
  (forall n, c < n < number latest -> getSlotFromHeader (rpc_header w n) = Ok (slotAt n)) ->
  (forall n, reach <= n < number latest -> slotAt reach <= slotAt n) ->
  (maxSlot <= inject_Z (slotAt reach))%Q ->
  (Z.to_nat (reach - c) <= fuel)%nat ->
  exists c' s',
    fetchHeaders w config fuel maxSlot [] s
    = (Return (map (fun n => headerDataAt w n (slotAt n)) (seqZ (c + 1) (c' - c))), s') /\
    c < c' < number latest /\
    (maxSlot <= inject_Z (slotAt c'))%Q /\
    lastBlock <$> stateOf s' = Some (Some c') /\
    polls s' = polls s /\
    trace s' = trace s ++ concat (map headerRequests (seqZ (c + 1) (c' - c))).
Proof.
  intros Hnumbered Hgroup Hst Hlatest Hcursor [Hc Hreach] Hslots Hmono Hreached Hfuel.
  destruct (fetchHeaders_progress w config slotAt latest maxSlot reach
              Hnumbered Hgroup Hreach Hreached fuel c [] s st
              Hst Hlatest Hcursor Hc Hslots Hmono Hfuel)
    as (c' & s' & Hrun & Hc' & Hslot' & Hlast' & Hpolls' & Htrace').
  exists c', s'. repeat (split; [assumption|]). exact Htrace'.
Qed.

Lemma fetchHeaders_returns_without_waiting_witness :
  let config := {| delay := None; confirmationDepth := None; funnelBlockGroupSize := 4;
                   lightClient := "http://lc"; rpc := "ws://avail" |} in
  let st := {| latestBlock_ := Some {| number := 30; hash := "0xhead"; slot := 30 |};
               startingBlockHeight := 6;
               lastBlock := Some 6;
               bufferedChainData := [];
               timestampToBlockNumber := [];
               lastMaxSlot := 0%Q;
               api := "ws://avail" |} in
  exists c' s',
    fetchHeaders (sampleWorld (fun _ => []) (fun _ => 30) None) config 5
      (inject_Z 11) [] (withState st processStart)
    = (Return (map (fun n => headerDataAt (sampleWorld (fun _ => []) (fun _ => 30) None) n n)
                   (seqZ 7 (c' - 6))), s') /\
    6 < c' < 30 /\
    polls s' = 0%nat.
Proof.
  intros config st.
  destruct (fetchHeaders_returns_without_waiting
              (sampleWorld (fun _ => []) (fun _ => 30) None) config (fun n => n)
              (inject_Z 11) (withState st processStart) st
              {| number := 30; hash := "0xhead"; slot := 30 |} 6 11 5)
    as (c' & s' & Hrun & Hc' & _ & _ & Hpolls & _).
  - intros n. reflexivity.
  - vm_compute. discriminate.
  - reflexivity.
  - reflexivity.
  - reflexivity.
  - simpl. lia.
  - intros n _. apply sampleWorld_slot.
  - intros n Hn. lia.
  - apply Qle_refl.
  - simpl. lia.
  - exists c', s'. split; [exact Hrun|]. split; [exact Hc'|exact Hpolls].
Defined.

(** ** Sync after presync *)

Section PastPresync.

Variable w : World.
Variable config : AvailConfig.
Variable chainName : string.

Hypothesis numbered : forall n, hdr_number (rpc_header w n) = n.

Lemma notBelow_other floor e :
  (forall lc n, e <> HttpGet lc n) -> notBelow floor e.
Proof. intros He lc n Heq. now destruct (He lc n). Qed.

(** Appending to the trace, step after step. *)
Lemma trace_then (P : Event -> Prop) (s s1 s2 : Machine) :
  (exists events, trace s1 = trace s ++ events /\ Forall P events) ->
  (exists events, trace s2 = trace s1 ++ events /\ Forall P events) ->
  exists events, trace s2 = trace s ++ events /\ Forall P events.
Proof.
  intros (e1 & Ht1 & HP1) (e2 & Ht2 & HP2). exists (e1 ++ e2).
  split; [now rewrite Ht2, Ht1, app_assoc|]. apply Forall_app. auto.
Qed.

Lemma trace_same (P : Event -> Prop) (s : Machine) :
  exists events, trace s = trace s ++ events /\ Forall P events.
Proof. exists []. rewrite app_nil_r. split; [reflexivity|constructor]. Qed.

(** Every request but those to the light client is harmless here. *)
Ltac harmless := intros; apply notBelow_other; intros; discriminate.

(** The cursor, once resolved, is not before the end of the presync
    range. *)
Lemma resolveLastBlock_floor first s st r s1 :
  stateOf s = Some st ->
  (lastBlockUnset st = false -> startingBlockHeight st - 1 <= cursor st) ->
  (lastBlockUnset st = true -> is_Some (db_latestProcessedCde w chainName)) ->
  resolveLastBlock w config chainName first s = (r, s1) ->
  exists c1 st1,
    r = Return tt /\
    stateOf s1 = Some st1 /\
    restFields st1 = restFields st /\
    lastBlock st1 = Some c1 /\
    startingBlockHeight st - 1 <= c1 /\
    (lastBlockUnset st1 = false -> startingBlockHeight st1 - 1 <= cursor st1).
Proof.
  intros Hst Hset Hunset Hrun. unfold resolveLastBlock in Hrun.
  rewrite (bind_Return _ _ _ _ _ (getState_run s st Hst)) in Hrun.
  destruct (lastBlockUnset st) eqn:Hu.
  - destruct (Hunset eq_refl) as [persisted Hdb].
    assert (Hquery : getLatestProcessedCdeBlockheight w chainName s
                     = (Return (Some persisted), logged [DbLatestProcessedCde chainName] s)).
    { unfold getLatestProcessedCdeBlockheight, bind, emit, ret, logged. now rewrite Hdb. }
    rewrite (bind_Return _ _ _ _ _ Hquery) in Hrun.
    rewrite (modifyState_withState _ _ st) in Hrun by (rewrite stateOf_logged; exact Hst).
    injection Hrun as <- <-.
    eexists (Z.max persisted (startingBlockHeight st - 1)), _.
    split; [reflexivity|]. split; [apply stateOf_withState|].
    split; [reflexivity|]. split; [reflexivity|]. split; [lia|].
    intros _. unfold cursor. simpl. lia.
  - injection Hrun as <- <-.
    unfold lastBlockUnset in Hu. destruct (lastBlock st) as [c|] eqn:Hc; [|discriminate].
    specialize (Hset eq_refl). unfold cursor in Hset. rewrite Hc in Hset. simpl in Hset.
    exists c, st. split; [reflexivity|]. split; [exact Hst|]. split; [reflexivity|].
    split; [exact Hc|]. split; [exact Hset|].
    intros _. unfold cursor. rewrite Hc. exact Hset.
Qed.

Lemma consecutive_numbers c headers :
  consecutive w c headers -> Forall (fun h => c + 1 <= number h) headers.
Proof.
  intros Hcons. pose proof (consecutive_range w c headers Hcons) as Hrange.
  eapply Forall_impl; [exact Hrange|]. intros h [Hn _]. simpl in Hn. lia.
Qed.

(** [correlate] from a state past the presync range. *)
Lemma correlate_past_presync fuel chainData first final s st r s' :
  stateOf s = Some st ->
  pastPresync st ->
  (lastBlockUnset st = true -> is_Some (db_latestProcessedCde w chainName)) ->
  correlate w config chainName fuel chainData first final s = (r, s') ->
  exists st',
    stateOf s' = Some st' /\
    startingBlockHeight st' = startingBlockHeight st /\
    pastPresync st' /\
    exists events,
      trace s' = trace s ++ events /\
      Forall (notBelow (startingBlockHeight st)) events.
Proof.
  intros Hst [Hindex Hset] Hunset Hrun. unfold correlate in Hrun. cbv zeta in Hrun.
  set (P := notBelow (startingBlockHeight st)).
  (* the cursor *)
  apply bind_inv in Hrun as [(u & s1 & Hres & Hrun)|[(e & Hres & ->)|[Hres ->]]];
    pose proof (emits_resolveLastBlock w config chainName P
                  ltac:(harmless) ltac:(harmless) ltac:(harmless)
                  ltac:(harmless) ltac:(harmless) first _ _ _ Hres) as Htrace1;
    destruct (resolveLastBlock_floor _ _ _ _ _ Hst Hset Hunset Hres)
      as (c1 & st1 & Hr1 & Hst1 & Hrest1 & Hlast1 & Hc1 & Hset1);
    try discriminate Hr1.
  clear Hr1.
  assert (Hstart1 : startingBlockHeight st1 = startingBlockHeight st)
    by (unfold restFields in Hrest1; now injection Hrest1).
  assert (Hindex1 : timestampToBlockNumber st1 = timestampToBlockNumber st)
    by (unfold restFields in Hrest1; now injection Hrest1).
  (* the headers *)
  assert (Hfetched : forall r2 s2,
    fetchHeaders w config fuel
      (inject_Z (applyDelay config (timestamp final)) / 20)%Q [] s1 = (r2, s2) ->
    exists st2 headers,
      stateOf s2 = Some st2 /\
      startingBlockHeight st2 = startingBlockHeight st /\
      timestampToBlockNumber st2 = timestampToBlockNumber st /\
      lastBlock st2 = Some (c1 + Z.of_nat (length headers)) /\
      Forall (fun h => startingBlockHeight st <= number h) headers /\
      (forall result, r2 = Return result -> result = headers) /\
      exists events, trace s2 = trace s ++ events /\ Forall P events).
  { intros r2 s2 Hfetch.
    pose proof (emits_fetchHeaders w config P ltac:(harmless) ltac:(harmless)
                  ltac:(harmless) ltac:(harmless) fuel _ _ _ _ _ Hfetch) as Htrace2.
    assert (Hlast0 : lastBlock st1 = Some (c1 + Z.of_nat (length (@nil HeaderData))))
      by (simpl; rewrite Hlast1; f_equal; lia).
    assert (Hcons0 : consecutive w c1 []) by apply consecutive_nil.
    destruct (fetchHeaders_cursor w config numbered fuel _ [] s1 r2 s2 st1 c1
                Hst1 Hlast0 Hcons0 Hfetch)
      as (st2 & headers & Hst2 & Hrest2 & Hlast2 & Hcons2 & Hr2).
    exists st2, headers. split; [exact Hst2|].
    unfold restFields in Hrest2. injection Hrest2 as Hs2 Hi2 _.
    split; [congruence|]. split; [congruence|]. split; [exact Hlast2|].
    split.
    { eapply Forall_impl; [exact (consecutive_numbers c1 headers Hcons2)|].
      intros h Hh. simpl in Hh. lia. }
    split; [intros result ->; exact Hr2|].
    exact (trace_then P s s1 s2 Htrace1 Htrace2). }
  assert (Hpast2 : forall st2 k,
    startingBlockHeight st2 = startingBlockHeight st ->
    lastBlock st2 = Some (c1 + Z.of_nat k) ->
    Forall (fun e => startingBlockHeight st <= snd e) (timestampToBlockNumber st2) ->
    pastPresync st2).
  { intros st2 k Hs2 Hl2 Hi2. split; [now rewrite Hs2|].
    intros _. unfold cursor. rewrite Hl2, Hs2. simpl. lia. }
  apply bind_inv in Hrun as [(headers & s2 & Hfetch & Hrun)|[(e & Hfetch & ->)|[Hfetch ->]]];
    destruct (Hfetched _ _ Hfetch)
      as (st2 & headers' & Hst2 & Hstart2 & Hindex2 & Hlast2 & Hnum2 & Hr2 & Htrace2);
    try (exists st2; split; [exact Hst2|]; split; [exact Hstart2|];
         split; [apply (Hpast2 st2 (length headers') Hstart2 Hlast2); now rewrite Hindex2|];
         exact Htrace2).
  rewrite <- (Hr2 headers eq_refl) in *. clear Hr2 Hfetched.
  (* the index *)
  rewrite (bind_Return _ _ _ _ _ (modifyState_withState _ _ _ Hst2)) in Hrun.
  rewrite (bind_Return _ _ _ _ _ (getState_run _ _ (stateOf_withState _ _))) in Hrun.
  rewrite (bind_Return _ _ _ _ _
             (modifyState_withState _ _ _ (stateOf_withState _ _))) in Hrun.
  set (st3 := pushHeaders headers st2) in *.
  set (trimmed := trimConsumed (lastMaxSlot st3 * 20)%Q (timestampToBlockNumber st3)) in *.
  assert (Hindex3 : Forall (fun e => startingBlockHeight st <= snd e)
                           (timestampToBlockNumber st3)).
  { subst st3. rewrite pushHeaders_index, Hindex2. apply Forall_app. split; [exact Hindex|].
    apply Forall_map. exact Hnum2. }
  assert (Htrimmed : Forall (fun e => startingBlockHeight st <= snd e) trimmed).
  { destruct (trimConsumed_split (lastMaxSlot st3 * 20)%Q (timestampToBlockNumber st3))
      as (consumed & Hsplit & _).
    fold trimmed in Hsplit. rewrite Hsplit in Hindex3.
    apply Forall_app in Hindex3. tauto. }
  assert (Hfinal : forall st4,
    startingBlockHeight st4 = startingBlockHeight st ->
    lastBlock st4 = lastBlock st2 ->
    timestampToBlockNumber st4 = trimmed ->
    pastPresync st4).
  { intros st4 Hs4 Hl4 Hi4.
    apply (Hpast2 st4 (length headers) Hs4); [congruence|now rewrite Hi4]. }
  destruct trimmed as [|[firstTs fromBlock] rest] eqn:Htrim.
  { injection Hrun as <- <-. eexists. split; [apply stateOf_withState|].
    split; [exact Hstart2|]. split; [apply Hfinal; auto|exact Htrace2]. }
  rewrite (bind_Return _ _ _ _ _
             (modifyState_withState _ _ _ (stateOf_withState _ _))) in Hrun.
  destruct (negb (Qle_bool _ _)).
  { injection Hrun as <- <-. eexists. split; [apply stateOf_withState|].
    split; [exact Hstart2|]. split; [apply Hfinal; auto|exact Htrace2]. }
  match type of Hrun with
  | (if ?c then _ else _) _ = _ => destruct c
  end.
  { injection Hrun as <- <-. eexists. split; [apply stateOf_withState|].
    split; [exact Hstart2|]. split; [apply Hfinal; auto|exact Htrace2]. }
  rewrite (bind_Return _ _ _ _ _ (getSubmittedData_run w _ _ _ _ _)) in Hrun.
  injection Hrun as <- <-. eexists.
  split; [rewrite stateOf_logged; apply stateOf_withState|].
  split; [exact Hstart2|]. split; [apply Hfinal; auto|].
  refine (trace_then P s s2 _ Htrace2 _).
  eexists. split; [reflexivity|].
  apply Forall_map. apply Forall_seqZ. intros n Hn lc' n' [= _ <-].
  inversion Htrimmed as [|? ? Hfrom _]; subst. simpl in Hfrom. lia.
Qed.

End PastPresync.

(** X29. Sync asks the light client for nothing that presync covers.  On a
    chain that answers a request for number [n] with header [n], suppose
    every entry of the index is a block from [startingBlockHeight] on, a
    cursor that is set is at [startingBlockHeight - 1] or later, and, if
    the cursor is still to be resolved, a persisted height is on record.
    Then, however a call of [readData] ends, the same holds after it, and
    every block the call asks the light client for is at or after
    [startingBlockHeight], whereas presync asks for blocks below it only. *)
Theorem readData_past_presync (w : World) (config : AvailConfig) (chainName : string)
  (fuel : nat) (blockHeight : Z) (s : Machine) (st : AvailFunnelCacheEntryState)
  (r : Outcome (list ChainData)) (s' : Machine) :
  (forall n, hdr_number (rpc_header w n) = n) ->
  stateOf s = Some st ->
  pastPresync st ->
  (lastBlockUnset st = true -> is_Some (db_latestProcessedCde w chainName)) ->
  readData w config chainName fuel blockHeight s = (r, s') ->
  exists st' events,
    stateOf s' = Some st' /\
    startingBlockHeight st' = startingBlockHeight st /\
    pastPresync st' /\
    trace s' = trace s ++ events /\
    Forall (notBelow (startingBlockHeight st)) events.
Proof.
  intros Hnumbered Hst Hpast Hunset Hrun.
  assert (Hprefix : forall l,
    Forall (notBelow (startingBlockHeight st)) (prefixRequests w config blockHeight st l)).
  { intros l. unfold prefixRequests, refreshRequests.
    destruct (bufferedChainData st); repeat constructor; intros lc n Heq; discriminate Heq. }
  destruct (refreshedHead w config s) as [b|e] eqn:Hhead.
  2:{ destruct (readData_refresh_fails w config chainName fuel blockHeight s st e
                  Hst Hhead) as (s2 & Hthrow & Hst2 & Htrace).
      rewrite Hthrow in Hrun. injection Hrun as <- <-.
      eexists _, _. split; [exact Hst2|]. split; [reflexivity|].
      split; [exact Hpast|]. split; [exact Htrace|apply Hprefix]. }
  destruct (readData_prefix_full w config chainName fuel blockHeight s st b Hst Hhead)
    as (s3 & Hst3 & Htrace3 & _ & Hread).
  cbv zeta in Hread, Hst3. rewrite Hread in Hrun.
  destruct (List.filter _ _) as [|first rest].
  { injection Hrun as <- <-.
    eexists _, _. split; [exact Hst3|]. split; [reflexivity|].
    split; [exact Hpast|]. split; [exact Htrace3|apply Hprefix]. }
  destruct (correlate_past_presync w config chainName Hnumbered fuel _ _ _ _ _ _ _
              Hst3 Hpast Hunset Hrun)
    as (st' & Hst' & Hstart' & Hpast' & events & Htrace & Hevents).
  exists st', (prefixRequests w config blockHeight st s ++ events).
  split; [exact Hst'|]. split; [exact Hstart'|]. split; [exact Hpast'|].
  split; [now rewrite Htrace, Htrace3, app_assoc|].
  apply Forall_app. split; [apply Hprefix|exact Hevents].
Qed.

Lemma readData_past_presync_witness :
  let world := busyWorld (fun _ => [sampleBlock 10 200 (Some [])]) (fun _ => 12) (Some 3) in
  exists st r s' st' events,
    stateOf (bootstrapped world) = Some st /\
    startingBlockHeight st = 6 /\
    readData world sampleConfig "avail" 5 10 (bootstrapped world) = (r, s') /\
    stateOf s' = Some st' /\
    trace s' = trace (bootstrapped world) ++ events /\
    Forall (notBelow 6) events.
Proof.
  intros world.
  eassert (Hst : stateOf (bootstrapped world) = Some _) by (vm_compute; reflexivity).
  destruct (readData world sampleConfig "avail" 5 10 (bootstrapped world)) as [r s'] eqn:Hrun.
  destruct (readData_past_presync world sampleConfig "avail" 5 10 (bootstrapped world)
              _ r s' ltac:(reflexivity) Hst) as (st' & events & Hst' & _ & _ & Htrace & Hall).
  - split; [constructor|]. intros Hset. vm_compute in Hset. discriminate Hset.
  - intros _. eexists. reflexivity.
  - exact Hrun.
  - eexists _, r, s', st', events. split; [exact Hst|]. split; [reflexivity|].
    split; [reflexivity|]. split; [exact Hst'|]. split; [exact Htrace|exact Hall].
Defined.
